(** * Hospital-Recommender-System: the map and geocoding client code

    A shallow embedding of the JavaScript sources that resolve the user's
    position, geocode addresses and drive the Leaflet map:

    - [utils/geocode.js], [geocodeWithNominatim];
    - the commented [MapComponent] of [utils/geocode.js] (props
      [destination], [originHint], [originFallback]), module [HintedMap];
    - the live [MapComponent] of [utils/geocode.js] (props [origin],
      [destination], refs [mapRef] and [routeLayerRef]), module [RefMap];
    - the [MapComponent] of [src/unnamed/part_000] (own [origin] state filled
      by the geolocation callbacks), module [LocatingMap];
    - the [MapComponent] of [src/components/Map.jsx] (a map per effect run,
      removed by the effect's cleanup), module [MapJsx];
    - the commented [Recommendations] component that calls
      [geocodeWithNominatim], module [Recommendations].

    [ResolverSpec] writes down the resolver of the specification, to compare
    the commented [MapComponent] with it; [Builtins] gives instances of the
    JavaScript built-ins the sources call.

    JavaScript exceptions are explicit ([Completion]); asynchronous functions
    are split at their [await]: the part before it runs when the function is
    called, the part after it runs when the environment settles the request.
    Leaflet is followed where a call of the sources can throw (a NaN
    coordinate, data or bounds it rejects) and where it changes what the claims
    are about: the layers of a map, its viewport, its removal. *)

From Stdlib Require Import QArith Ascii String.
From stdpp Require Import base list strings.

Set Warnings "-register-all".

Local Open Scope string_scope.
Local Open Scope list_scope.

(** ** Completions and a state monad with exceptions *)

Inductive JsError :=
| TypeError        (* property access on null or undefined *)
| SyntaxError      (* response.json() on a body that is not JSON *)
| NetworkError     (* fetch() rejected *)
| LeafletError.    (* an exception thrown by Leaflet *)

Inductive Completion (A : Type) :=
| Normal (a : A)
| Throw (e : JsError).
Arguments Normal {A} a.
Arguments Throw {A} e.

Definition M (S A : Type) : Type := S -> Completion A * S.

Definition ret {S A} (a : A) : M S A := fun s => (Normal a, s).

Definition bind {S A B} (m : M S A) (k : A -> M S B) : M S B :=
  fun s => match m s with
           | (Normal a, s') => k a s'
           | (Throw e, s') => (Throw e, s')
           end.

Definition throw {S A} (e : JsError) : M S A := fun s => (Throw e, s).

(** [try { m } catch (err) { h err }]: what [m] did before it threw stays done. *)
Definition try_catch {S A} (m : M S A) (h : JsError -> M S A) : M S A :=
  fun s => match m s with
           | (Normal a, s') => (Normal a, s')
           | (Throw e, s') => h e s'
           end.

Definition lift {S A} (c : Completion A) : M S A := fun s => (c, s).
Definition gets {S A} (f : S -> A) : M S A := fun s => (Normal (f s), s).
Definition modify {S} (f : S -> S) : M S unit := fun s => (Normal tt, f s).

Declare Scope js_scope.
Delimit Scope js_scope with js.
Notation "x <- c1 ;; c2" := (bind c1 (fun x => c2))
  (at level 100, c1 at next level, right associativity) : js_scope.
Notation "c1 ;; c2" := (bind c1 (fun _ => c2))
  (at level 100, right associativity) : js_scope.
Local Open Scope js_scope.

(** ** JavaScript values *)

Module Js.

(** A JavaScript number. [Finite q] is a finite double, held by its exact
    value. *)
Inductive JsNumber :=
| NaN
| PosInfinity
| NegInfinity
| Finite (q : Q).

(** What [response.json()] yields, and [undefined] for the properties that
    are not there. An [Object] lists its own properties, each key once. *)
Inductive Value :=
| Undefined
| Null
| Bool (b : bool)
| Number (n : JsNumber)
| Str (s : string)
| Array (items : list Value)
| Object (fields : list (string * Value)).

(** [[lat, lng]], as the components pass positions around. *)
Definition Coord : Type := JsNumber * JsNumber.

Definition coord (lat lng : Q) : Coord := (Finite lat, Finite lng).

Definition in_range (lo hi : Q) (n : JsNumber) : bool :=
  match n with
  | Finite q => Qle_bool lo q && Qle_bool q hi
  | _ => false
  end.

(** The data model's Coordinate: finite, latitude in [-90, 90], longitude
    in [-180, 180]. *)
Definition valid_coordinate (c : Coord) : bool :=
  in_range (-90) 90 (fst c) && in_range (-180) 180 (snd c).

Definition has_NaN (c : Coord) : bool :=
  match c with
  | (NaN, _) | (_, NaN) => true
  | _ => false
  end.

(** ToBoolean *)
Definition truthy (v : Value) : bool :=
  match v with
  | Undefined | Null => false
  | Bool b => b
  | Number NaN => false
  | Number (Finite q) => negb (Qeq_bool q 0)
  | Number _ => true
  | Str s => negb (String.eqb s EmptyString)
  | Array _ | Object _ => true
  end.

Fixpoint assoc (k : string) (fields : list (string * Value)) : Value :=
  match fields with
  | [] => Undefined
  | (k', v) :: rest => if String.eqb k k' then v else assoc k rest
  end.

Definition number_of_nat (n : nat) : Value := Number (Finite (inject_Z (Z.of_nat n))).

(** [v.length]. The length of a string is counted in the characters of the
    embedding; only whether it is zero is ever looked at. *)
Definition get_length (v : Value) : Completion Value :=
  match v with
  | Undefined | Null => Throw TypeError
  | Array items => Normal (number_of_nat (length items))
  | Str s => Normal (number_of_nat (String.length s))
  | Object fields => Normal (assoc "length" fields)
  | Bool _ | Number _ => Normal Undefined
  end.

(** [v[0]] *)
Definition get_first (v : Value) : Completion Value :=
  match v with
  | Undefined | Null => Throw TypeError
  | Array items => Normal (default Undefined (head items))
  | Str s => Normal (match s with
                     | EmptyString => Undefined
                     | String c _ => Str (String c EmptyString)
                     end)
  | Object fields => Normal (assoc "0" fields)
  | Bool _ | Number _ => Normal Undefined
  end.

(** [v.name] for a property name that no prototype defines ([lat], [lon]). *)
Definition get_field (name : string) (v : Value) : Completion Value :=
  match v with
  | Undefined | Null => Throw TypeError
  | Object fields => Normal (assoc name fields)
  | _ => Normal Undefined
  end.

(** [v?.[0]] *)
Definition get_first_opt (v : Value) : Value :=
  match get_first v with
  | Normal x => x
  | Throw _ => Undefined
  end.

End Js.
Import Js.

(** ** The network *)

Module Net.

Inductive Method := GET | POST.

Record Request := {
  req_method : Method;
  req_url : string;
  req_headers : list (string * string);
  (** the two [[lng, lat]] pairs of the JSON body of a directions request *)
  req_coordinates : list (JsNumber * JsNumber)
}.

Record Response := {
  resp_ok : bool;               (* res.ok: status in 200..299 *)
  resp_json : option Value      (* None: the body is not JSON, json() rejects *)
}.

(** How a [fetch] followed by [json()] ends. *)
Inductive Settled :=
| Rejected                      (* fetch() rejected: no response at all *)
| Resolved (r : Response).

Definition json_of (s : Settled) : Completion (Response * Value) :=
  match s with
  | Rejected => Throw NetworkError
  | Resolved r => match resp_json r with
                  | Some v => Normal (r, v)
                  | None => Throw SyntaxError
                  end
  end.

End Net.
Import Net.

(** ** [geocodeWithNominatim] and [geocodePlace] *)

Module Geocode.

(** What a geocoding call did besides returning. *)
Record Trace := {
  requests : list Request;
  console : list JsError        (* console.error entries *)
}.

Definition no_trace : Trace := {| requests := []; console := [] |}.

Definition send (r : Request) (t : Trace) : Trace :=
  {| requests := requests t ++ [r]; console := console t |}.

Definition console_error (e : JsError) (t : Trace) : Trace :=
  {| requests := requests t; console := console t ++ [e] |}.

Section WithBuiltins.

(** The built-ins are not part of the repository. *)
Variable parseFloat : Value -> JsNumber.
Variable encodeURIComponent : string -> string.

(** The servers: what comes back for a request. *)
Variable network : Request -> Settled.

Definition nominatim_url (q : string) : string :=
  String.append "https://nominatim.openstreetmap.org/search?format=json&q="
                (encodeURIComponent q).

Definition fetch (r : Request) : M Trace (Response * Value) :=
  modify (send r) ;; lift (json_of (network r)).

(** utils/geocode.js, lines 2-14 *)
Definition geocodeWithNominatim (address : string) : M Trace (option Coord) :=
  try_catch
    (res <- fetch {| req_method := GET; req_url := nominatim_url address;
                        req_headers := []; req_coordinates := [] |} ;;
     let data := snd res in
     len <- lift (get_length data) ;;
     if negb (truthy len) then ret None
     else
       first <- lift (get_first data) ;;
       lat <- lift (get_field "lat" first) ;;
       lon <- lift (get_field "lon" first) ;;
       ret (Some (parseFloat lat, parseFloat lon)))
    (fun err => modify (console_error err) ;; ret None).

(** utils/geocode.js, lines 136-147 (commented [MapComponent]) *)
Definition geocodePlace (place : string) : M Trace (option Coord) :=
  if String.eqb place EmptyString then ret None
  else
    try_catch
      (res <- fetch {| req_method := GET; req_url := nominatim_url place;
                              req_headers := [("Accept", "application/json")];
                          req_coordinates := [] |} ;;
       let data := snd res in
       let first := get_first_opt data in
       if negb (truthy first) then ret None
       else
         lat <- lift (get_field "lat" first) ;;
         lon <- lift (get_field "lon" first) ;;
         ret (Some (parseFloat lat, parseFloat lon)))
      (fun _ => ret None).

End WithBuiltins.

End Geocode.

(** ** Reference instances of the built-ins

    [parseFloat] and [encodeURIComponent] for strings of bytes: enough to run
    the functions above on concrete responses. [parseFloat] reads the longest
    decimal literal at the front of the text and keeps its exact value (it is
    not rounded to a double). *)

Module Builtins.

Definition is_space (c : ascii) : bool :=
  let n := nat_of_ascii c in
  (n =? 32)%nat || ((9 <=? n)%nat && (n <=? 13)%nat).

Fixpoint skip_spaces (s : string) : string :=
  match s with
  | String c rest => if is_space c then skip_spaces rest else s
  | EmptyString => s
  end.

Definition digit_of (c : ascii) : option Z :=
  let n := nat_of_ascii c in
  if (48 <=? n)%nat && (n <=? 57)%nat then Some (Z.of_nat (n - 48)) else None.

(** reads digits: the number read so far, how many digits, the rest *)
Fixpoint read_digits (s : string) (acc : Z) (count : nat) : Z * nat * string :=
  match s with
  | String c rest =>
      match digit_of c with
      | Some d => read_digits rest (10 * acc + d)%Z (S count)
      | None => (acc, count, s)
      end
  | EmptyString => (acc, count, s)
  end.

Definition read_sign (s : string) : bool * string :=
  match s with
  | String "-" rest => (true, rest)
  | String "+" rest => (false, rest)
  | _ => (false, s)
  end.

Definition read_exponent (s : string) : Z :=
  match s with
  | String c rest =>
      if Ascii.eqb c "e" || Ascii.eqb c "E" then
        let '(neg, rest') := read_sign rest in
        let '(e, n, _) := read_digits rest' 0%Z 0 in
        match n with
        | O => 0%Z
        | _ => if neg then (- e)%Z else e
        end
      else 0%Z
  | EmptyString => 0%Z
  end.

Definition scale (q : Q) (e : Z) : Q := (q * Qpower 10 e)%Q.

Definition parseFloat_string (s : string) : JsNumber :=
  let '(neg, s1) := read_sign (skip_spaces s) in
  if String.prefix "Infinity" s1 then (if neg then NegInfinity else PosInfinity)
  else
    let '(int, n_int, s2) := read_digits s1 0%Z 0 in
    let '(mant, n_frac, s3) :=
      match s2 with
      | String "." rest => read_digits rest int 0
      | _ => (int, O, s2)
      end in
    match (n_int + n_frac)%nat with
    | O => NaN
    | _ =>
        let q := scale (inject_Z mant) (read_exponent s3 - Z.of_nat n_frac) in
        Finite (Qred (if neg then (- q)%Q else q))
    end.

(** [parseFloat(v)] is [parseFloat(ToString(v))]: nothing numeric in
    "undefined", "null", "true", "false" and "[object Object]"; a number
    prints and reads back as itself. An array prints its elements joined by
    commas, which is not followed here: the geocoder's fields are strings. *)
Definition parseFloat (v : Value) : JsNumber :=
  match v with
  | Number n => n
  | Str s => parseFloat_string s
  | _ => NaN
  end.

Definition unreserved (c : ascii) : bool :=
  let n := nat_of_ascii c in
  ((48 <=? n) && (n <=? 57) || (65 <=? n) && (n <=? 90) || (97 <=? n) && (n <=? 122))%nat
  || existsb (Ascii.eqb c) ["-"; "_"; "."; "!"; "~"; "*"; "'"; "("; ")"]%char.

Definition hex_digit (n : nat) : ascii :=
  ascii_of_nat (if (n <? 10)%nat then 48 + n else 55 + n).

Fixpoint encodeURIComponent (s : string) : string :=
  match s with
  | EmptyString => EmptyString
  | String c rest =>
      let n := nat_of_ascii c in
      if unreserved c then String c (encodeURIComponent rest)
      else String "%" (String (hex_digit (n / 16)) (String (hex_digit (n mod 16))
             (encodeURIComponent rest)))
  end.

(** Reference instances of the two Leaflet checks the components depend on,
    for the answers of the directions service: a LineString geometry, a
    Feature whose geometry is one, a FeatureCollection of such Features.
    [L.geoJSON] draws these when every position starts with two numbers, and
    draws nothing, without throwing, for falsy data; the bounds of what it drew
    are valid when a line has a position. Data of another shape is answered as
    rejected: for a value without [type] and without [features] that is what
    Leaflet does ("Invalid GeoJSON object"), the other geometry types are not
    followed here. *)
Definition is_number (v : Value) : bool :=
  match v with
  | Number NaN => false
  | Number _ => true
  | _ => false
  end.

(** [[lng, lat]] or [[lng, lat, alt]] *)
Definition is_position (v : Value) : bool :=
  match v with
  | Array (lng :: lat :: _) => is_number lng && is_number lat
  | _ => false
  end.

(** the positions of a LineString geometry *)
Definition line_string (v : Value) : option (list Value) :=
  match v with
  | Object fields =>
      match assoc "type" fields, assoc "coordinates" fields with
      | Str t, Array positions =>
          if String.eqb t "LineString" && forallb is_position positions
          then Some positions else None
      | _, _ => None
      end
  | _ => None
  end.

Definition feature (v : Value) : option (list Value) :=
  match v with
  | Object fields =>
      match assoc "type" fields with
      | Str t => if String.eqb t "Feature" then line_string (assoc "geometry" fields)
                 else None
      | _ => None
      end
  | _ => None
  end.

Definition features (items : list Value) : option (list (list Value)) :=
  fold_right (fun item rest =>
                match feature item, rest with
                | Some line, Some lines => Some (line :: lines)
                | _, _ => None
                end) (Some []) items.

(** the lines [L.geoJSON(data)] draws *)
Definition lines_of (data : Value) : option (list (list Value)) :=
  match data with
  | Object fields =>
      match assoc "features" fields with
      | Array items => features items
      | _ =>
          match line_string data, feature data with
          | Some line, _ | None, Some line => Some [line]
          | None, None => None
          end
      end
  | _ => None
  end.

Definition geojson_accepts (data : Value) : bool :=
  negb (truthy data) ||
  match lines_of data with
  | Some _ => true
  | None => false
  end.

(** [layer.getBounds().isValid()] *)
Definition bounds_valid (data : Value) : bool :=
  match lines_of data with
  | Some lines => existsb (fun line => negb (Nat.eqb (length line) 0)) lines
  | None => false
  end.

(** The answer of the directions service for a route through [positions],
    each [(lng, lat)]. *)
Definition route (positions : list (Q * Q)) : Value :=
  Object [("type", Str "FeatureCollection");
          ("features",
           Array [Object [("type", Str "Feature");
                          ("geometry",
                           Object [("type", Str "LineString");
                                   ("coordinates",
                                    Array (map (fun p => Array [Number (Finite (fst p));
                                                                Number (Finite (snd p))])
                                             positions))])]])].

End Builtins.

(** ** The platform's location capability *)

Module Geolocation.

(** [pos.coords]: [latitude] and [longitude] are finite doubles;
    [accuracy], in metres, is read with [?? 99999]. *)
Record Position := {
  latitude : Q;
  longitude : Q;
  accuracy : option Q
}.

Inductive PositionError := PERMISSION_DENIED | POSITION_UNAVAILABLE | TIMEOUT.

(** Which of the two callbacks of [getCurrentPosition] is called by a
    platform that has the capability: with a position or with a failure. *)
Inductive Outcome :=
| Success (pos : Position)
| Failure (err : PositionError).

(** [navigator.geolocation]. The sources call
    [navigator.geolocation.getCurrentPosition(...)] without a guard: where the
    platform has no location capability [navigator.geolocation] is
    [undefined] and the call is a TypeError; where it has one, the platform
    answers through one of the two callbacks. *)
Inductive Platform :=
| NoGeolocation
| Answers (answer : Outcome).

Record PositionOptions := {
  enableHighAccuracy : bool;
  timeout : Z;          (* milliseconds *)
  maximumAge : Z
}.

End Geolocation.
Import Geolocation.

(** ** Origin resolution in the commented [MapComponent] (utils/geocode.js, 130-182) *)

Module HintedMap.

Import Geocode.

Definition default_originFallback : Coord := coord 6.5244 3.3792.

Definition opts : PositionOptions :=
  {| enableHighAccuracy := true; timeout := 15000; maximumAge := 0 |}%Z.

(** [a > b] on finite doubles *)
Definition gt (a b : Q) : bool := negb (Qle_bool a b).

Section Resolve.

Variable parseFloat : Value -> JsNumber.
Variable encodeURIComponent : string -> string.
Variable network : Request -> Settled.

(** props *)
Variable destination : option Coord.
Variable originHint : string.
Variable originFallback : Coord.

(** The body of the effect up to the call of [getCurrentPosition]: the
    options of the request, if one is made. *)
Definition locate : option PositionOptions :=
  match destination with
  | None => None
  | Some _ => Some opts
  end.

(** The success callback; [cancelled] is the flag as it stands when the
    callback is called. The result is the argument of [setOrigin], [None]
    when [setOrigin] is not called. *)
Definition on_position (cancelled : bool) (pos : Position) : M Trace (option Coord) :=
  if cancelled then ret None
  else
    let cand := coord (latitude pos) (longitude pos) in
    let accuracy := default 99999%Q (accuracy pos) in
    if gt accuracy 5000 && negb (String.eqb originHint EmptyString) then
      hinted <- geocodePlace parseFloat encodeURIComponent network originHint ;;
      ret (Some (default cand hinted))
    else ret (Some cand).

(** The error callback. *)
Definition on_error (cancelled : bool) : M Trace (option Coord) :=
  if cancelled then ret None
  else
    hinted <- geocodePlace parseFloat encodeURIComponent network originHint ;;
    ret (Some (default originFallback hinted)).

(** The effect and the callback the platform answers it with. *)
Definition resolve (cancelled : bool) (geo : Outcome) : M Trace (option Coord) :=
  match locate with
  | None => ret None
  | Some _ =>
      match geo with
      | Success pos => on_position cancelled pos
      | Failure _ => on_error cancelled
      end
  end.

(** The effect on a platform: where [navigator.geolocation] is [undefined]
    the call of [getCurrentPosition] throws, out of the effect. *)
Definition acquire (platform : Platform) (cancelled : bool) : M Trace (option Coord) :=
  match locate with
  | None => ret None
  | Some _ =>
      match platform with
      | NoGeolocation => throw TypeError
      | Answers geo => resolve cancelled geo
      end
  end.

End Resolve.

End HintedMap.

(** ** The specification's resolver (section 4.1), for comparison *)

Module ResolverSpec.

Inductive OriginResolution :=
| DeviceObserved (c : Coord) (accuracy : Q)
| HintGeocoded (c : Coord)
| StaticFallback (c : Coord).

Definition coordinate (r : OriginResolution) : Coord :=
  match r with
  | DeviceObserved c _ | HintGeocoded c | StaticFallback c => c
  end.

Section Resolve.

Variable threshold : Q.
Variable defaultCoordinate : Coord.
(** the text-to-coordinate lookup capability *)
Variable geocode : string -> option Coord.

(** Steps 2 to 5 of the operation, on the answer of the platform to
    step 1. *)
Definition resolve (device : option (Coord * Q)) (hint : string) : OriginResolution :=
  match device with
  | Some (c, acc) =>
      if Qle_bool acc threshold then DeviceObserved c acc
      else if String.eqb hint EmptyString then DeviceObserved c acc
      else match geocode hint with
           | Some g => HintGeocoded g
           | None => DeviceObserved c acc
           end
  | None =>
      if String.eqb hint EmptyString then StaticFallback defaultCoordinate
      else match geocode hint with
           | Some g => HintGeocoded g
           | None => StaticFallback defaultCoordinate
           end
  end.

End Resolve.

End ResolverSpec.

(** ** The commented [Recommendations] component (Recommendations.jsx, 6-101) *)

Module Recommendations.

Import Geocode.

(** [{...hospital, coords: coords || null}]; [hospital] is an element of the
    array [recommendation], whatever the server put there. *)
Record GeoCoded := {
  hospital : Value;
  coords : option Coord
}.

(** The callbacks of the geolocation effect: the argument of
    [setUserCoords]. *)
Definition userCoords (geo : Outcome) : Coord :=
  match geo with
  | Success pos => coord (latitude pos) (longitude pos)
  | Failure _ => coord 6.5244 3.3792
  end.

(** The geolocation effect on a platform: the call throws where
    [navigator.geolocation] is [undefined]. *)
Definition locate_user (platform : Platform) : Completion Coord :=
  match platform with
  | NoGeolocation => Throw TypeError
  | Answers geo => Normal (userCoords geo)
  end.

(** A hospital as the server sends it. *)
Definition hospital_of (name full_address : string) : Value :=
  Object [("name", Str name); ("full_address", Str full_address)].

Section FetchCoords.

Variable parseFloat : Value -> JsNumber.
Variable encodeURIComponent : string -> string.
Variable network : Request -> Settled.
(** ToString, which [encodeURIComponent] applies to an address that is not a
    string *)
Variable toString : Value -> string.

Definition address_text (address : Value) : string :=
  match address with
  | Str s => s
  | _ => toString address
  end.

(** [coords || null]: an array is truthy whatever it holds. *)
Definition or_null (coords : option Coord) : option Coord :=
  match coords with
  | Some c => Some c
  | None => None
  end.

(** [fetchCoords], for the elements of the array [recommendation]: the
    argument of [setGeoCoded]; [hospital.full_address] is read outside any
    [try], so that an element that is [null] or [undefined] throws out of
    [fetchCoords]. *)
Fixpoint fetchCoords (recommendation : list Value) : M Trace (list GeoCoded) :=
  match recommendation with
  | [] => ret []
  | hospital :: rest =>
      full_address <- lift (get_field "full_address" hospital) ;;
      coords <- geocodeWithNominatim parseFloat encodeURIComponent network
                  (address_text full_address) ;;
      result <- fetchCoords rest ;;
      ret ({| hospital := hospital; coords := or_null coords |} :: result)
  end.

End FetchCoords.

(** The "View on Map" button of a row is there when [recommend.coords] is
    truthy; clicking it selects the row. *)
Definition view_on_map (recommend : GeoCoded) : option GeoCoded :=
  match coords recommend with
  | Some _ => Some recommend
  | None => None
  end.

(** The props [MapComponent] is rendered with, when it is rendered:
    [selectedHospital && userCoords && selectedHospital.coords]. *)
Record MapProps := {
  origin : Coord;
  destination : Coord
}.

Definition map_props (userCoords : option Coord) (selectedHospital : option GeoCoded)
  : option MapProps :=
  match selectedHospital, userCoords with
  | Some selected, Some user =>
      match coords selected with
      | Some c => Some {| origin := user; destination := c |}
      | None => None
      end
  | _, _ => None
  end.

End Recommendations.

(** ** The rendering surface: Leaflet maps, as far as the components use them *)

Module Leaflet.

Inductive LayerKind :=
| TileLayer
(** [L.marker(latlng).bindPopup(popup)]; which popup is open is not
    followed, what opening one does to the viewport is ([AutoPanned]). *)
| Marker (latlng : Coord) (popup : string)
(** [L.geoJSON(data)]; [drawn_for] is the [origin] and [destination] in the
    scope of the [getRoute] call that drew it (not a field of the layer). *)
| GeoJSON (data : Value) (drawn_for : Coord * Coord).

Record Layer := {
  layer_id : nat;
  kind : LayerKind
}.

Inductive Bounds :=
| LayerBounds (data : Value)        (* layer.getBounds() *)
| Points (latlngs : list Coord).

Inductive View :=
| Centered (center : Coord) (zoom : nat)      (* setView *)
| Fitted (bounds : Bounds)                    (* fitBounds *)
(** [openPopup]: a popup pans the map by default (autoPan) when it does not
    fit in the view; the view after a popup was opened at [popup] in the view
    [before], the same view or one moved to show the popup. *)
| AutoPanned (popup : Coord) (before : View).

Record Surface := {
  layers : list Layer;
  view : option View;
  removed : nat                     (* how many times map.remove() was called *)
}.

Definition is_overlay (l : Layer) : bool :=
  match kind l with GeoJSON _ _ => true | _ => false end.

Definition is_marker (l : Layer) : bool :=
  match kind l with Marker _ _ => true | _ => false end.

Definition overlays (sf : Surface) : list Layer := List.filter is_overlay (layers sf).
Definition markers (sf : Surface) : list Layer := List.filter is_marker (layers sf).

Definition new_surface : Surface := {| layers := []; view := None; removed := 0 |}.

Definition with_view (v : View) (sf : Surface) : Surface :=
  {| layers := layers sf; view := Some v; removed := removed sf |}.

Definition with_layer (l : Layer) (sf : Surface) : Surface :=
  {| layers := layers sf ++ [l]; view := view sf; removed := removed sf |}.

Definition with_popup (latlng : Coord) (sf : Surface) : Surface :=
  {| layers := layers sf; view := option_map (AutoPanned latlng) (view sf);
     removed := removed sf |}.

Definition without_layer (id : nat) (sf : Surface) : Surface :=
  {| layers := List.filter (fun l => negb (layer_id l =? id)%nat) (layers sf);
     view := view sf; removed := removed sf |}.

(** [map.remove()] takes every layer off the map. *)
Definition torn_down (sf : Surface) : Surface :=
  {| layers := []; view := view sf; removed := S (removed sf) |}.

(** The maps created so far, by handle; [timeline] keeps every state the
    maps went through, latest first (the observation points). *)
Record World := {
  surfaces : list Surface;
  timeline : list (list Surface);
  next_layer : nat
}.

Definition empty_world : World := {| surfaces := []; timeline := []; next_layer := 0 |}.

Arguments overlays : simpl never.
Arguments markers : simpl never.
Arguments new_surface : simpl never.
Arguments with_view : simpl never.
Arguments with_layer : simpl never.
Arguments with_popup : simpl never.
Arguments without_layer : simpl never.
Arguments torn_down : simpl never.

End Leaflet.
Import Leaflet.

(** ** A mounted [MapComponent] *)

Module Component.

Inductive LogEntry :=
| RouteError (err : JsError)              (* console.error("Route error:", err) *)
| OrsError (data : Value)                 (* console.error("ORS Error:", data) *)
| GeolocationError (err : PositionError). (* console.error("Geolocation error:", err) *)

(** A [getRoute] call waiting at its [await]. [query] is the [origin] and
    [destination] of its scope, [scope_map] the [map] of its scope in
    Map.jsx. *)
Record Pending := {
  fetch_id : nat;
  request : Request;
  query : Coord * Coord;
  scope_map : option nat
}.

(** [mapRef] and [routeLayerRef] are the refs of utils/geocode.js and
    part_000; [cleanup] is the map the cleanup function returned by the
    effect of Map.jsx will remove; [origin] and [destination] are the values
    the effect last ran with. *)
Record Session := {
  world : World;
  mapRef : option nat;
  routeLayerRef : option nat;
  cleanup : option nat;
  origin : option Coord;
  destination : option Coord;
  inflight : list Pending;
  issued : nat;
  console : list LogEntry;
  uncaught : list JsError
}.

Definition init : Session :=
  {| world := empty_world; mapRef := None; routeLayerRef := None; cleanup := None;
     origin := None; destination := None; inflight := []; issued := 0;
     console := []; uncaught := [] |}.

Definition set_world (w : World) (s : Session) : Session :=
  {| world := w; mapRef := mapRef s; routeLayerRef := routeLayerRef s;
     cleanup := cleanup s; origin := origin s; destination := destination s;
     inflight := inflight s; issued := issued s; console := console s;
     uncaught := uncaught s |}.

Definition set_mapRef (r : option nat) (s : Session) : Session :=
  {| world := world s; mapRef := r; routeLayerRef := routeLayerRef s;
     cleanup := cleanup s; origin := origin s; destination := destination s;
     inflight := inflight s; issued := issued s; console := console s;
     uncaught := uncaught s |}.

Definition set_routeLayerRef (r : option nat) (s : Session) : Session :=
  {| world := world s; mapRef := mapRef s; routeLayerRef := r;
     cleanup := cleanup s; origin := origin s; destination := destination s;
     inflight := inflight s; issued := issued s; console := console s;
     uncaught := uncaught s |}.

Definition set_cleanup (c : option nat) (s : Session) : Session :=
  {| world := world s; mapRef := mapRef s; routeLayerRef := routeLayerRef s;
     cleanup := c; origin := origin s; destination := destination s;
     inflight := inflight s; issued := issued s; console := console s;
     uncaught := uncaught s |}.

Definition set_props (o d : option Coord) (s : Session) : Session :=
  {| world := world s; mapRef := mapRef s; routeLayerRef := routeLayerRef s;
     cleanup := cleanup s; origin := o; destination := d;
     inflight := inflight s; issued := issued s; console := console s;
     uncaught := uncaught s |}.

Definition set_inflight (l : list Pending) (n : nat) (s : Session) : Session :=
  {| world := world s; mapRef := mapRef s; routeLayerRef := routeLayerRef s;
     cleanup := cleanup s; origin := origin s; destination := destination s;
     inflight := l; issued := n; console := console s; uncaught := uncaught s |}.

Definition log (e : LogEntry) (s : Session) : Session :=
  {| world := world s; mapRef := mapRef s; routeLayerRef := routeLayerRef s;
     cleanup := cleanup s; origin := origin s; destination := destination s;
     inflight := inflight s; issued := issued s; console := console s ++ [e];
     uncaught := uncaught s |}.

Definition escaped (e : JsError) (s : Session) : Session :=
  {| world := world s; mapRef := mapRef s; routeLayerRef := routeLayerRef s;
     cleanup := cleanup s; origin := origin s; destination := destination s;
     inflight := inflight s; issued := issued s; console := console s;
     uncaught := uncaught s ++ [e] |}.

(** React takes the whole tree down when an effect throws and no error
    boundary catches the error (the sources have none): from then on no effect
    and no cleanup of the component runs. The requests in flight still
    settle. *)
Definition crashed (s : Session) : bool :=
  match uncaught s with
  | [] => false
  | _ :: _ => true
  end.

(** *** Leaflet calls *)

(** [L.latLng(latlng)], which every call that takes a position goes
    through: "Invalid LatLng object" when a coordinate is NaN. *)
Definition toLatLng (latlng : Coord) : Completion Coord :=
  if has_NaN latlng then Throw LeafletError else Normal latlng.

Definition update_surfaces (f : list Surface -> list Surface) : M Session unit :=
  modify (fun s =>
    let w := world s in
    let now := f (surfaces w) in
    set_world {| surfaces := now; timeline := now :: timeline w;
                 next_layer := next_layer w |} s).

(** [L.map("map")] *)
Definition L_map : M Session nat :=
  m <- gets (fun s => length (surfaces (world s))) ;;
  update_surfaces (fun now => now ++ [new_surface]) ;;
  ret m.

Definition setView (m : nat) (center : Coord) (zoom : nat) : M Session unit :=
  c <- lift (toLatLng center) ;;
  update_surfaces (alter (with_view (Centered c zoom)) m).

(** [L.tileLayer(...)], [L.marker(...)], [L.geoJSON(...)]: a new layer object *)
Definition new_layer (k : LayerKind) : M Session Layer :=
  id <- gets (fun s => next_layer (world s)) ;;
  modify (fun s =>
    let w := world s in
    set_world {| surfaces := surfaces w; timeline := timeline w;
                 next_layer := S (next_layer w) |} s) ;;
  ret {| layer_id := id; kind := k |}.

(** [L.marker(latlng)], with the popup bound to it later *)
Definition L_marker (latlng : Coord) (popup : string) : M Session Layer :=
  c <- lift (toLatLng latlng) ;;
  new_layer (Marker c popup).

Definition addTo (l : Layer) (m : nat) : M Session unit :=
  update_surfaces (alter (with_layer l) m).

(** [marker.openPopup()], for a marker on the map [m] *)
Definition openPopup (m : nat) (latlng : Coord) : M Session unit :=
  update_surfaces (alter (with_popup latlng) m).

Definition removeLayer (m : nat) (id : nat) : M Session unit :=
  update_surfaces (alter (without_layer id) m).

(** [map.remove()] *)
Definition remove (m : nat) : M Session unit :=
  update_surfaces (alter torn_down m).

(** [ref.current] used as a map: a [TypeError] when it is [null] *)
Definition current (r : Session -> option nat) : M Session nat :=
  v <- gets r ;;
  match v with
  | Some m => ret m
  | None => throw TypeError
  end.

(** *** Tasks *)

(** The call of [fetch] inside [getRoute]: the request is sent, the rest of
    [getRoute] waits. *)
Definition issue (req : Request) (q : Coord * Coord) (scope : option nat) : M Session unit :=
  modify (fun s =>
    set_inflight (inflight s ++ [{| fetch_id := issued s; request := req; query := q;
                                   scope_map := scope |}])
                 (S (issued s)) s).

(** A task of the event loop: an exception that leaves it is uncaught. *)
Definition run_task (task : M Session unit) (s : Session) : Session :=
  match task s with
  | (Normal _, s') => s'
  | (Throw e, s') => escaped e s'
  end.

Definition find_pending (id : nat) (s : Session) : option Pending :=
  List.find (fun p => (fetch_id p =? id)%nat) (inflight s).

Definition drop_pending (id : nat) (s : Session) : Session :=
  set_inflight (List.filter (fun p => negb (fetch_id p =? id)%nat) (inflight s)) (issued s) s.

Definition ors_url : string :=
  "https://api.openrouteservice.org/v2/directions/driving-car/geojson".

(** The directions request of utils/geocode.js and part_000: the body is
    [{coordinates: [[origin[1], origin[0]], [destination[1], destination[0]]]}]. *)
Definition directions_request (key : string) (o d : Coord) : Request :=
  {| req_method := POST;
     req_url := ors_url;
     req_headers := [("Authorization", key); ("Content-Type", "application/json")];
     req_coordinates := [(snd o, fst o); (snd d, fst d)] |}.

(** [L.geoJSON(data, ...)]: Leaflet throws on data it does not accept. *)
Definition geoJSON (accepts : Value -> bool) (data : Value) (q : Coord * Coord)
  : M Session Layer :=
  if accepts data then new_layer (GeoJSON data q) else throw LeafletError.

(** [map.fitBounds(bounds)]: Leaflet throws on bounds that are not valid. *)
Definition fitBounds (valid : bool) (m : nat) (b : Bounds) : M Session unit :=
  if valid then update_surfaces (alter (with_view (Fitted b)) m) else throw LeafletError.

End Component.
Import Component.

(** ** [MapComponent] of utils/geocode.js (lines 262-334) *)

Module RefMap.

(** React runs the effect after the first render and after every render in
    which [origin] or [destination] changed. *)
Inductive Event :=
| Render (origin destination : option Coord)   (* the effect runs with these props *)
| Settle (id : nat) (outcome : Settled)        (* the fetch of a getRoute call ends *)
| Unmount.

Definition nigeria : Coord := coord 9.082 8.6753.

Section WithLeaflet.

Variable geojson_accepts : Value -> bool.

(** [getRoute] from its [await] on. *)
Definition getRoute_resume (p : Pending) (outcome : Settled) : M Session unit :=
  try_catch
    (res <- lift (json_of outcome) ;;
     let data := snd res in
     old <- gets routeLayerRef ;;
     match old with
     | Some id => (m <- current mapRef ;; removeLayer m id)
     | None => ret tt
     end ;;
     layer <- geoJSON geojson_accepts data (query p) ;;
     m <- current mapRef ;;
     addTo layer m ;;
     modify (set_routeLayerRef (Some (layer_id layer))))
    (fun err => modify (log (RouteError err))).

Definition effect (origin destination : option Coord) : M Session unit :=
  r <- gets mapRef ;;
  match r with
  | None =>
      (m <- L_map ;;
       setView m (default nigeria origin) 6 ;;
       modify (set_mapRef (Some m)) ;;
       tiles <- new_layer TileLayer ;;
       m <- current mapRef ;;
       addTo tiles m)
  | Some _ => ret tt
  end ;;
  match origin with
  | Some o =>
      (marker <- L_marker o "Your Location" ;;
       m <- current mapRef ;;
       addTo marker m ;;
       openPopup m o ;;
       m <- current mapRef ;;
       setView m o 13)
  | None => ret tt
  end ;;
  match destination with
  | Some d =>
      (marker <- L_marker d "Hospital" ;;
       m <- current mapRef ;;
       addTo marker m)
  | None => ret tt
  end ;;
  match origin, destination with
  | Some o, Some d => issue (directions_request "YOUR_API_KEY_HERE" o d) (o, d) None
  | _, _ => ret tt
  end.

(** The effect returns no cleanup function: unmounting runs nothing. Once an
    effect has thrown, the component is gone and no effect runs. *)
Definition step (s : Session) (e : Event) : Session :=
  match e with
  | Render o d => if crashed s then s else run_task (effect o d) (set_props o d s)
  | Settle id outcome =>
      match find_pending id s with
      | Some p => run_task (getRoute_resume p outcome) (drop_pending id s)
      | None => s
      end
  | Unmount => s
  end.

Definition run (events : list Event) : Session := fold_left step events init.

End WithLeaflet.

End RefMap.

(** ** [MapComponent] of src/unnamed/part_000 *)

Module LocatingMap.

Inductive Event :=
| Located (geo : Outcome)                 (* a geolocation callback is called *)
| Render (destination : option Coord)     (* rendered with this prop *)
| Settle (id : nat) (outcome : Settled)
| Unmount
(** the geolocation effect runs, at mount: it calls
    [navigator.geolocation.getCurrentPosition]; [capability] is whether
    [navigator.geolocation] is there *)
| Locate (capability : bool).

Definition akure : Coord := coord 7.2526 5.1931.

Section WithLeaflet.

Variable geojson_accepts : Value -> bool.
Variable bounds_valid : Value -> bool.
(** the value of the Authorization header, a literal of the source *)
Variable ors_key : string.

(** The callbacks of [getCurrentPosition]: the argument of [setOrigin]. *)
Definition located (geo : Outcome) : M Session Coord :=
  match geo with
  | Success pos => ret (coord (latitude pos) (longitude pos))
  | Failure err => (modify (log (GeolocationError err)) ;; ret akure)
  end.

Definition getRoute_resume (p : Pending) (outcome : Settled) : M Session unit :=
  try_catch
    (res <- lift (json_of outcome) ;;
     let data := snd res in
     if negb (resp_ok (fst res)) then modify (log (OrsError data))
     else
       old <- gets routeLayerRef ;;
       match old with
       | Some id => (m <- current mapRef ;; removeLayer m id)
       | None => ret tt
       end ;;
       layer <- geoJSON geojson_accepts data (query p) ;;
       m <- current mapRef ;;
       addTo layer m ;;
       modify (set_routeLayerRef (Some (layer_id layer))) ;;
       m <- current mapRef ;;
       fitBounds (bounds_valid data) m (LayerBounds data))
    (fun err => modify (log (RouteError err))).

Definition effect (origin destination : option Coord) : M Session unit :=
  match origin, destination with
  | Some o, Some d =>
      r <- gets mapRef ;;
      match r with
      | None =>
          (m <- L_map ;;
           setView m o 13 ;;
           modify (set_mapRef (Some m)) ;;
           tiles <- new_layer TileLayer ;;
           m <- current mapRef ;;
           addTo tiles m)
      | Some _ => ret tt
      end ;;
      marker <- L_marker o "You are here" ;;
      m <- current mapRef ;;
      addTo marker m ;;
      openPopup m o ;;
      marker <- L_marker d "Hospital" ;;
      m <- current mapRef ;;
      addTo marker m ;;
      issue (directions_request ors_key o d) (o, d) None
  | _, _ => ret tt
  end.

(** The geolocation effect: the call is a TypeError where
    [navigator.geolocation] is [undefined]. *)
Definition locate (capability : bool) : M Session unit :=
  if capability then ret tt else throw TypeError.

(** Once an effect has thrown, the component is gone: no effect runs and the
    callbacks set no state. *)
Definition step (s : Session) (e : Event) : Session :=
  match e with
  | Located geo =>
      if crashed s then s
      else run_task (o <- located geo ;;
                     d <- gets destination ;;
                     modify (set_props (Some o) d) ;;
                     effect (Some o) d) s
  | Render d =>
      if crashed s then s
      else run_task (o <- gets origin ;;
                     modify (set_props o d) ;;
                     effect o d) s
  | Settle id outcome =>
      match find_pending id s with
      | Some p => run_task (getRoute_resume p outcome) (drop_pending id s)
      | None => s
      end
  | Unmount => s
  | Locate capability => if crashed s then s else run_task (locate capability) s
  end.

Definition run (events : list Event) : Session := fold_left step events init.

End WithLeaflet.

End LocatingMap.

(** ** [MapComponent] of src/components/Map.jsx *)

Module MapJsx.

(** [Recommendations] renders the component only once both props are there. *)
Inductive Event :=
| Render (origin destination : Coord)
| Settle (id : nat) (outcome : Settled)
| Unmount.

(** [fetch(url, {coordinates}, {method, headers})]: the second argument is
    the options, the third is ignored; what is sent is a plain GET. *)
Definition route_request : Request :=
  {| req_method := GET; req_url := ors_url; req_headers := []; req_coordinates := [] |}.

(** [getRoute] from its [await] on; a Response has no [data] property, so
    [res.data] is [undefined]. *)
Definition getRoute_resume (p : Pending) (outcome : Settled) : M Session unit :=
  try_catch
    (match outcome with
     | Rejected => throw NetworkError
     | Resolved res =>
         layer <- new_layer (GeoJSON Undefined (query p)) ;;
         map <- current (fun _ => scope_map p) ;;
         addTo layer map
     end)
    (fun err => modify (log (RouteError err))).

Definition effect (origin destination : Coord) : M Session unit :=
  map <- L_map ;;
  setView map origin 13 ;;
  tiles <- new_layer TileLayer ;;
  addTo tiles map ;;
  marker <- L_marker origin "Your Location" ;;
  addTo marker map ;;
  marker <- L_marker destination "Hospital" ;;
  addTo marker map ;;
  issue route_request (origin, destination) (Some map) ;;
  modify (set_cleanup (Some map)).

(** [() => map.remove()], run before the effect runs again and at unmount. *)
Definition run_cleanup : M Session unit :=
  c <- gets cleanup ;;
  match c with
  | Some map => (remove map ;; modify (set_cleanup None))
  | None => ret tt
  end.

(** An effect that throws returns no cleanup: the map it created is not
    removed, and the component is gone. *)
Definition step (s : Session) (e : Event) : Session :=
  match e with
  | Render o d =>
      if crashed s then s
      else run_task (run_cleanup ;; effect o d) (set_props (Some o) (Some d) s)
  | Settle id outcome =>
      match find_pending id s with
      | Some p => run_task (getRoute_resume p outcome) (drop_pending id s)
      | None => s
      end
  | Unmount => if crashed s then s else run_task run_cleanup s
  end.

Definition run (events : list Event) : Session := fold_left step events init.

End MapJsx.

(** ** Predicates of the statements *)

Module Props.

(** [v.name], [undefined] where the access throws *)
Definition property (name : string) (v : Value) : Value :=
  match get_field name v with
  | Normal x => x
  | Throw _ => Undefined
  end.

Definition nominatim_request (encodeURIComponent : string -> string) (q : string) : Request :=
  {| req_method := GET; req_url := Geocode.nominatim_url encodeURIComponent q;
     req_headers := []; req_coordinates := [] |}.

(** The geocoder of the commented [MapComponent] as a lookup, for the
    comparison with [ResolverSpec.resolve]. *)
Definition lookup_place (parseFloat : Value -> JsNumber)
    (encodeURIComponent : string -> string) (network : Request -> Settled)
    (place : string) : option Coord :=
  match fst (Geocode.geocodePlace parseFloat encodeURIComponent network place
               Geocode.no_trace) with
  | Normal r => r
  | Throw _ => None
  end.

(** What the platform reported, as the specification's resolver takes it. *)
Definition device_fix (geo : Outcome) : option (Coord * Q) :=
  match geo with
  | Success pos => Some (coord (latitude pos) (longitude pos), default 99999%Q (accuracy pos))
  | Failure _ => None
  end.

(** At most one route overlay on each map. *)
Definition single_overlay (now : list Surface) : Prop :=
  Forall (fun sf => length (overlays sf) <= 1) now.

(** At every observation point so far. *)
Definition always_single_overlay (s : Session) : Prop :=
  single_overlay (surfaces (world s)) /\ Forall single_overlay (timeline (world s)).

(** The overlay on the map, if any, is the layer [routeLayerRef] holds. *)
Definition linked (ref : option nat) (sf : Surface) : Prop :=
  overlays sf = [] \/ exists l, overlays sf = [l] /\ ref = Some (layer_id l).

Definition never_fitted_to_points (sf : Surface) : Prop :=
  forall pts, view sf <> Some (Fitted (Points pts)).

(** Layer handles are below the next one to be given out. *)
Definition bounded (n : nat) (sf : Surface) : Prop :=
  Forall (fun l => layer_id l < n) (layers sf).

(** The handle in [routeLayerRef] is the handle of no other kind of layer. *)
Definition apart (ref : option nat) (sf : Surface) : Prop :=
  forall id, ref = Some id ->
    Forall (fun l => layer_id l = id -> is_overlay l = true) (layers sf).

(** The invariant of the two components that keep the map in [mapRef]. The
    ref is empty before the map is created, and stays empty when the effect
    that creates the map throws at its [setView]. *)
Definition ref_inv (s : Session) : Prop :=
  Forall single_overlay (timeline (world s)) /\
  (forall id, routeLayerRef s = Some id -> id < next_layer (world s)) /\
  match mapRef s with
  | None =>
      inflight s = [] /\
      (surfaces (world s) = []
       \/ crashed s = true /\ surfaces (world s) = [new_surface])
  | Some m =>
      m = 0 /\
      exists sf, surfaces (world s) = [sf] /\ removed sf = 0 /\
                 linked (routeLayerRef s) sf /\
                 never_fitted_to_points sf /\
                 bounded (next_layer (world s)) sf /\
                 apart (routeLayerRef s) sf
  end.

(** Kinds of the markers and of the overlays on all maps, in the order they
    were added. *)
Definition all_markers (s : Session) : list LayerKind :=
  flat_map (fun sf => map kind (markers sf)) (surfaces (world s)).

Definition all_overlays (s : Session) : list LayerKind :=
  flat_map (fun sf => map kind (overlays sf)) (surfaces (world s)).

Definition views (s : Session) : list (option View) := map view (surfaces (world s)).

(** What [L.marker(c)...addTo(map)] leaves on the map: nothing when Leaflet
    rejects [c]. *)
Definition marker_at (popup : string) (c : Coord) : list LayerKind :=
  if has_NaN c then [] else [Marker c popup].

(** The markers an effect run of utils/geocode.js adds: the effect is left
    at the first position Leaflet rejects. *)
Definition placed (o d : option Coord) : list LayerKind :=
  match o with
  | Some o' =>
      if has_NaN o' then []
      else Marker o' "Your Location"
             :: match d with
                | Some d' => marker_at "Hospital" d'
                | None => []
                end
  | None =>
      match d with
      | Some d' => marker_at "Hospital" d'
      | None => []
      end
  end.

(** The markers an effect run of part_000 adds: none unless both inputs are
    there. *)
Definition both_markers (o d : option Coord) : list LayerKind :=
  match o, d with
  | Some o, Some d =>
      if has_NaN o then [] else Marker o "You are here" :: marker_at "Hospital" d
  | _, _ => []
  end.

(** One map, not removed. *)
Definition created (s : Session) : Prop :=
  exists sf, surfaces (world s) = [sf] /\ removed sf = 0.

(** In part_000 the map is there once the effect has run with both an origin
    and a destination. *)
Definition known_pair (s : Session) : Prop :=
  match origin s, destination s with
  | Some _, Some _ => created s
  | _, _ => True
  end.

(** The argument of [setOrigin] in part_000. *)
Definition located_origin (geo : Outcome) : Coord :=
  match geo with
  | Success pos => coord (latitude pos) (longitude pos)
  | Failure _ => LocatingMap.akure
  end.

(** The marker of an input that is there. *)
Definition marker_for (popup : string) (at_ : option Coord) : list LayerKind :=
  match at_ with
  | Some c => [Marker c popup]
  | None => []
  end.

(** No NaN in an input that is there. *)
Definition sound (at_ : option Coord) : bool :=
  match at_ with
  | Some c => negb (has_NaN c)
  | None => true
  end.

(** The [getRoute] calls in flight whose [map] is [m] (Map.jsx). *)
Definition waiting_on (m : nat) (l : list Pending) : list Pending :=
  List.filter (fun p => match scope_map p with Some m' => (m' =? m)%nat | None => false end) l.

Definition is_render (e : MapJsx.Event) : bool :=
  match e with MapJsx.Render _ _ => true | _ => false end.

(** The map of Map.jsx that is not removed: the one the pending cleanup
    holds, or the one of the effect run that threw. *)
Definition live_map (s : Session) : option nat :=
  if crashed s then
    match length (surfaces (world s)) with
    | O => None
    | S n => Some n
    end
  else cleanup s.

(** The invariant of the component of Map.jsx. *)
Definition jsx_inv (s : Session) : Prop :=
  Forall single_overlay (timeline (world s)) /\
  (forall p, In p (inflight s) ->
     exists m, scope_map p = Some m /\ m < length (surfaces (world s))) /\
  (forall m sf, surfaces (world s) !! m = Some sf ->
     length (overlays sf) + length (waiting_on m (inflight s)) <= 1 /\
     removed sf = (if decide (live_map s = Some m) then 0 else 1)) /\
  (forall m, cleanup s = Some m ->
     S m = length (surfaces (world s)) /\ crashed s = false).

End Props.
Import Props.

(** ** [App] (utils/geocode.js, 38-120): the recommendation request *)

(** The calls of [console.log] and [e.preventDefault()] are not followed. *)

Module App.

Record FormData := {
  location : string;
  service_needed : string;
  cost_preference : string;
  quality_preference : string
}.

(** The state of [App] and what it asked the router to do. *)
Record State := {
  recommendation : Value;       (* useState([]) *)
  isLoading : bool;
  error : string;
  mapUrl : Value;               (* useState("") *)
  formData : FormData;
  navigated : list string       (* the calls of navigate *)
}.

Definition initial : State :=
  {| recommendation := Array []; isLoading := false; error := EmptyString;
     mapUrl := Str EmptyString;
     formData := {| location := EmptyString; service_needed := EmptyString;
                    cost_preference := EmptyString; quality_preference := EmptyString |};
     navigated := [] |}.

Definition setRecommendation (v : Value) (s : State) : State :=
  {| recommendation := v; isLoading := isLoading s; error := error s; mapUrl := mapUrl s;
     formData := formData s; navigated := navigated s |}.

Definition setIsLoading (b : bool) (s : State) : State :=
  {| recommendation := recommendation s; isLoading := b; error := error s;
     mapUrl := mapUrl s; formData := formData s; navigated := navigated s |}.

Definition setError (e : string) (s : State) : State :=
  {| recommendation := recommendation s; isLoading := isLoading s; error := e;
     mapUrl := mapUrl s; formData := formData s; navigated := navigated s |}.

Definition setMapUrl (v : Value) (s : State) : State :=
  {| recommendation := recommendation s; isLoading := isLoading s; error := error s;
     mapUrl := v; formData := formData s; navigated := navigated s |}.

Definition setFormData (f : FormData) (s : State) : State :=
  {| recommendation := recommendation s; isLoading := isLoading s; error := error s;
     mapUrl := mapUrl s; formData := f; navigated := navigated s |}.

Definition navigate (to : string) (s : State) : State :=
  {| recommendation := recommendation s; isLoading := isLoading s; error := error s;
     mapUrl := mapUrl s; formData := formData s; navigated := navigated s ++ [to] |}.

(** What [fetch] is called with: [POST /api/recommend], the form as JSON. *)
Record Submission := {
  sub_method : Method;
  sub_url : string;
  sub_headers : list (string * string);
  sub_body : FormData
}.

(** What the [catch] gets: an error of the engine, or [new Error(message)]. *)
Inductive Thrown :=
| Native (e : JsError)
| ErrorObject (message : string).

(** [a || b] *)
Definition or_else (a b : Value) : Value := if truthy a then a else b.

Section Handler.

(** the message the engine gives its own errors *)
Variable native_message : JsError -> string.
(** ToString, for a message that is not a string *)
Variable toString : Value -> string.

(** [error.message] *)
Definition message_of (t : Thrown) : string :=
  match t with
  | Native e => native_message e
  | ErrorObject m => m
  end.

(** The message of [new Error(v)]: empty when [v] is [undefined]. *)
Definition error_text (v : Value) : string :=
  match v with
  | Undefined => EmptyString
  | Str m => m
  | _ => toString v
  end.

(** [handleGetRecommendation] up to its first [await]. *)
Definition submit (s : State) : Submission * State :=
  ({| sub_method := POST; sub_url := "/api/recommend";
      sub_headers := [("Content-Type", "application/json")];
      sub_body := formData s |},
   setIsLoading true (setError EmptyString s)).

(** The [try] block from the first [await] on. *)
Definition try_block (out : Settled) (s : State) : option Thrown * State :=
  match out with
  | Rejected => (Some (Native NetworkError), s)
  | Resolved res =>
      if negb (resp_ok res) then
        (* res.json().catch(() => ({})) *)
        let errorData := default (Object []) (resp_json res) in
        match get_field "message" errorData with
        | Normal m => (Some (ErrorObject (error_text m)), s)
        | Throw e => (Some (Native e), s)
        end
      else
        match resp_json res with
        | None => (Some (Native SyntaxError), s)
        | Some data =>
            match get_field "recommendations" data with
            | Throw e => (Some (Native e), s)
            | Normal recommendations =>
                let s1 := setRecommendation (or_else recommendations (Array [])) s in
                match get_field "map_url" data with
                | Throw e => (Some (Native e), s1)
                | Normal map_url =>
                    (None,
                     setIsLoading false
                       (navigate "/recommend"
                          (setMapUrl (or_else map_url (Str EmptyString)) s1)))
                end
            end
        end
  end.

(** [handleGetRecommendation] from the first [await] on. *)
Definition settle (out : Settled) (s : State) : State :=
  match try_block out s with
  | (None, s') => s'
  | (Some thrown, s') =>
      let m := message_of thrown in
      setError (if String.eqb m EmptyString then "Internal Server Error" else m)
        (setIsLoading false s')
  end.

(** The whole call, for one answer of the server. *)
Definition handleGetRecommendation (out : Settled) (s : State) : State :=
  settle out (snd (submit s)).

End Handler.

(** The four inputs of [MainPage]: [setFormData({...formData, field: value})]. *)
Inductive Field := Location | ServiceNeeded | CostPreference | QualityPreference.

Definition with_field (f : Field) (value : string) (d : FormData) : FormData :=
  match f with
  | Location =>
      {| location := value; service_needed := service_needed d;
         cost_preference := cost_preference d; quality_preference := quality_preference d |}
  | ServiceNeeded =>
      {| location := location d; service_needed := value;
         cost_preference := cost_preference d; quality_preference := quality_preference d |}
  | CostPreference =>
      {| location := location d; service_needed := service_needed d;
         cost_preference := value; quality_preference := quality_preference d |}
  | QualityPreference =>
      {| location := location d; service_needed := service_needed d;
         cost_preference := cost_preference d; quality_preference := value |}
  end.

Definition field (f : Field) (d : FormData) : string :=
  match f with
  | Location => location d
  | ServiceNeeded => service_needed d
  | CostPreference => cost_preference d
  | QualityPreference => quality_preference d
  end.

(** [onChange] of an input of [MainPage]. *)
Definition onChange (f : Field) (value : string) (s : State) : State :=
  setFormData (with_field f value (formData s)) s.

End App.

(** ** [Recommendations] (Recommendations.jsx, 103-169): the table and the image *)

Module Results.

Definition API_BASE_URL : string :=
  "https://hospital-recommender-system.onrender.com/recommend".

(** [getMapUrl]: [startsWith] is there on strings only. *)
Definition getMapUrl (mapUrl : Value) : Completion (option string) :=
  if negb (truthy mapUrl) then Normal None
  else
    match mapUrl with
    | Str url =>
        Normal (Some (if String.prefix "http" url then url
                      else String.append API_BASE_URL url))
    | _ => Throw TypeError
    end.

(** The image is rendered under [mapUrl && ...]: its [src], if it is there. *)
Definition route_image (mapUrl : Value) : Completion (option string) :=
  if truthy mapUrl then getMapUrl mapUrl else Normal None.

Record Row := {
  serial : nat;                 (* idx + 1 *)
  key : Value;                  (* recommend.name *)
  cells : list Value;           (* name, services, full_address *)
  level : string
}.

Section Table.

(** StringToNumber of the engine *)
Variable stringToNumber : string -> JsNumber.
Variable toString : Value -> string.

(** ToNumber *)
Definition to_number (v : Value) : JsNumber :=
  match v with
  | Undefined => NaN
  | Null => Finite 0
  | Bool b => Finite (if b then 1 else 0)
  | Number n => n
  | Str s => stringToNumber s
  | Array _ => stringToNumber (toString v)
  | Object _ => NaN
  end.

(** [n > q] for a finite [q] *)
Definition greater (n : JsNumber) (q : Q) : bool :=
  match n with
  | NaN | NegInfinity => false
  | PosInfinity => true
  | Finite x => negb (Qle_bool x q)
  end.

(** [recommend.recommendation_score > 0.5 ? ... : ...] *)
Definition level_of (score : Value) : string :=
  if greater (to_number score) 0.5 then "Highly Recommended" else "Not recommended".

(** The callback of [recommendation.map]. *)
Definition row (recommend : Value) (idx : nat) : Completion Row :=
  match get_field "name" recommend with
  | Throw e => Throw e
  | Normal name =>
      Normal {| serial := idx + 1; key := name;
                cells := [name; property "services" recommend;
                          property "full_address" recommend];
                level := level_of (property "recommendation_score" recommend) |}
  end.

Fixpoint rows_from (idx : nat) (items : list Value) : Completion (list Row) :=
  match items with
  | [] => Normal []
  | recommend :: rest =>
      match row recommend idx with
      | Throw e => Throw e
      | Normal r =>
          match rows_from (S idx) rest with
          | Throw e => Throw e
          | Normal rs => Normal (r :: rs)
          end
      end
  end.

(** [recommendation.map(...)]: [map] is there on arrays only. *)
Definition rows (recommendation : Value) : Completion (list Row) :=
  match recommendation with
  | Array items => rows_from 0 items
  | _ => Throw TypeError
  end.

End Table.

End Results.

(** ** Notions of the statements about the rest of the code *)

Module Notions.

(** The request of [geocodePlace]. *)
Definition place_request (encodeURIComponent : string -> string) (place : string) : Request :=
  {| req_method := GET; req_url := Geocode.nominatim_url encodeURIComponent place;
     req_headers := [("Accept", "application/json")]; req_coordinates := [] |}.

(** Whether the accuracy the success callback reads is worse than 5000 m. *)
Definition poor (pos : Position) : bool :=
  HintedMap.gt (default 99999%Q (accuracy pos)) 5000.

(** Whether a resolution of the commented [MapComponent] calls the geocoder
    with a hint that is not empty. *)
Definition asks_geocoder (destination : option Coord) (originHint : string)
    (cancelled : bool) (geo : Outcome) : bool :=
  match destination with
  | None => false
  | Some _ =>
      negb cancelled && negb (String.eqb originHint EmptyString)
      && match geo with
         | Success pos => poor pos
         | Failure _ => true
         end
  end.

(** An element of [recommendation] that has properties. *)
Definition readable (hospital : Value) : bool :=
  match hospital with
  | Null | Undefined => false
  | _ => true
  end.

(** What [geocodeWithNominatim] returns for an address. *)
Definition lookup_address (parseFloat : Value -> JsNumber)
    (encodeURIComponent : string -> string) (network : Request -> Settled)
    (address : string) : option Coord :=
  match fst (Geocode.geocodeWithNominatim parseFloat encodeURIComponent network address
               Geocode.no_trace) with
  | Normal r => r
  | Throw _ => None
  end.

(** The answers on which the two geocoders cannot differ: no body, or an
    array that is empty or starts with [null] or with a truthy element. *)
Definition plain_answer (out : Settled) : bool :=
  match out with
  | Rejected => true
  | Resolved res =>
      match resp_json res with
      | None => true
      | Some (Array []) => true
      | Some (Array (Null :: _)) => true
      | Some (Array (first :: _)) => truthy first
      | Some _ => false
      end
  end.

(** An effect run of utils/geocode.js that has both an origin and a
    destination, and so calls [getRoute] when Leaflet takes them. *)
Definition full_render (e : RefMap.Event) : bool :=
  match e with
  | RefMap.Render (Some _) (Some _) => true
  | _ => false
  end.

(** The [getRoute] call of an effect run of utils/geocode.js, if it makes
    one. *)
Definition route_call (n : nat) (o d : option Coord) : list Pending :=
  match o, d with
  | Some o, Some d =>
      if has_NaN o || has_NaN d then []
      else [{| fetch_id := n; request := directions_request "YOUR_API_KEY_HERE" o d;
               query := (o, d); scope_map := None |}]
  | _, _ => []
  end.

(** The directions request for a pair: the Authorization header apart, POST
    to the directions URL with the two points as [[lng, lat]]. *)
Definition asks_route (q : Coord * Coord) (r : Request) : Prop :=
  req_method r = POST /\ req_url r = ors_url
  /\ req_coordinates r = [(snd (fst q), fst (fst q)); (snd (snd q), fst (snd q))].

(** An effect run of part_000: a geolocation callback or a new prop. *)
Definition is_update (e : LocatingMap.Event) : bool :=
  match e with
  | LocatingMap.Located _ | LocatingMap.Render _ => true
  | _ => false
  end.

(** Any event of part_000 but a geolocation callback. *)
Definition not_located (e : LocatingMap.Event) : bool :=
  match e with
  | LocatingMap.Located _ => false
  | _ => true
  end.

(** What the effect of Map.jsx puts on the map it creates; it is left at
    the first position Leaflet rejects. *)
Definition fresh_map (o d : Coord) (sf : Surface) : Prop :=
  map kind (layers sf)
  = (if has_NaN o then []
     else TileLayer :: Marker o "Your Location" :: marker_at "Hospital" d)
  /\ view sf = (if has_NaN o then None else Some (Centered o 13))
  /\ removed sf = 0.

(** Every overlay on the map was drawn from [undefined]. *)
Definition no_geometry (sf : Surface) : Prop :=
  Forall (fun l => is_overlay l = true -> exists q, kind l = GeoJSON Undefined q) (layers sf).

End Notions.
Import Notions.

(** * Geocoding *)

Section GeocodeFacts.

Import Geocode.

Variable parseFloat : Value -> JsNumber.
Variable encodeURIComponent : string -> string.
Variable network : Request -> Settled.

Lemma fetch_run (r : Request) (t : Trace) :
  fetch network r t = (json_of (network r), send r t).
Proof. reflexivity. Qed.

(** Whatever the servers answer, the two geocoders return: every exception
    is caught inside. *)
Lemma geocodeWithNominatim_returns address t :
  exists r t', geocodeWithNominatim parseFloat encodeURIComponent network address t
               = (Normal r, t').
Proof.
  unfold geocodeWithNominatim, try_catch, bind. rewrite fetch_run.
  destruct (json_of (network _)) as [[res data]|e]; simpl; [|eauto].
  unfold lift. destruct (get_length data) as [len|e]; simpl; [|eauto].
  destruct (truthy len); simpl; [|eauto].
  destruct (get_first data) as [first|e]; simpl; [|eauto].
  destruct (get_field "lat" first); simpl; [|eauto].
  destruct (get_field "lon" first); simpl; eauto.
Qed.

Lemma geocodeWithNominatim_requests address t :
  requests (snd (geocodeWithNominatim parseFloat encodeURIComponent network address t))
  = requests t ++ [nominatim_request encodeURIComponent address].
Proof.
  unfold geocodeWithNominatim, try_catch, bind. rewrite fetch_run.
  destruct (json_of (network _)) as [[res data]|e]; simpl; [|reflexivity].
  unfold lift. destruct (get_length data) as [len|e]; simpl; [|reflexivity].
  destruct (truthy len); simpl; [|reflexivity].
  destruct (get_first data) as [first|e]; simpl; [|reflexivity].
  destruct (get_field "lat" first); simpl; [|reflexivity].
  destruct (get_field "lon" first); simpl; reflexivity.
Qed.

Lemma geocodePlace_returns place t :
  exists r t', geocodePlace parseFloat encodeURIComponent network place t = (Normal r, t').
Proof.
  unfold geocodePlace. destruct (String.eqb place EmptyString); [unfold ret; eauto|].
  unfold try_catch, bind. rewrite fetch_run.
  destruct (json_of (network _)) as [[res data]|e]; simpl; [|unfold ret; eauto].
  destruct (truthy (get_first_opt data)); simpl; [|unfold ret; eauto].
  unfold lift. destruct (get_field "lat" _); simpl; [|unfold ret; eauto].
  destruct (get_field "lon" _); simpl; unfold ret; eauto.
Qed.

Lemma geocodePlace_no_hint t :
  geocodePlace parseFloat encodeURIComponent network EmptyString t = (Normal None, t).
Proof. reflexivity. Qed.

Lemma lookup_place_spec place :
  exists t, geocodePlace parseFloat encodeURIComponent network place no_trace
            = (Normal (lookup_place parseFloat encodeURIComponent network place), t).
Proof.
  unfold lookup_place.
  destruct (geocodePlace_returns place no_trace) as (r & t & E). rewrite E. eauto.
Qed.

End GeocodeFacts.

(** * Origin resolution *)

Section ResolveFacts.

Import Geocode HintedMap.

Variable parseFloat : Value -> JsNumber.
Variable encodeURIComponent : string -> string.
Variable network : Request -> Settled.


Lemma gt_true_Qle_bool (a b : Q) : gt a b = true -> Qle_bool a b = false.
Proof. unfold gt. intros H. apply negb_true_iff in H. exact H. Qed.

(** The callbacks never throw. *)
Lemma resolve_returns destination originHint originFallback cancelled geo t :
  exists r t', resolve parseFloat encodeURIComponent network destination originHint
                 originFallback cancelled geo t = (Normal r, t').
Proof.
  unfold resolve, locate. destruct destination; [|unfold ret; eauto].
  destruct geo as [pos|err]; unfold on_position, on_error;
    (destruct cancelled; [unfold ret; eauto|]).
  - destruct (gt _ _ && _); [|unfold ret; eauto].
    unfold bind.
    destruct (geocodePlace_returns parseFloat encodeURIComponent network originHint t)
      as (r & t' & ->).
    unfold ret; eauto.
  - unfold bind.
    destruct (geocodePlace_returns parseFloat encodeURIComponent network originHint t)
      as (r & t' & ->).
    unfold ret; eauto.
Qed.

(** The commented component follows the fallback chain of the
    specification, with 5000 m as the threshold and [originFallback] as the
    default: the origin it sets is the coordinate of the resolution. *)
Lemma resolve_refines_spec d originHint originFallback geo :
  exists t,
    resolve parseFloat encodeURIComponent network (Some d) originHint originFallback
      false geo no_trace
    = (Normal (Some (ResolverSpec.coordinate
                       (ResolverSpec.resolve 5000 originFallback
                          (lookup_place parseFloat encodeURIComponent network)
                          (device_fix geo) originHint))), t).
Proof.
  unfold resolve, locate, ResolverSpec.resolve.
  destruct geo as [pos|err]; simpl.
  - unfold on_position.
    destruct (gt (default 99999%Q (accuracy pos)) 5000) eqn:G; simpl.
    + rewrite (gt_true_Qle_bool _ _ G).
      destruct (String.eqb originHint EmptyString); simpl; [unfold ret; eauto|].
      unfold bind.
      destruct (lookup_place_spec parseFloat encodeURIComponent network originHint)
        as (t & ->).
      destruct (lookup_place _ _ _ _); unfold ret; simpl; eauto.
    + unfold gt in G. apply negb_false_iff in G. rewrite G. unfold ret; eauto.
  - unfold on_error, bind.
    destruct (String.eqb originHint EmptyString) eqn:E.
    + apply String.eqb_eq in E. subst originHint. simpl. unfold ret; eauto.
    + destruct (lookup_place_spec parseFloat encodeURIComponent network originHint)
        as (t & ->).
      destruct (lookup_place _ _ _ _); unfold ret; simpl; eauto.
Qed.

End ResolveFacts.



(** C6, as the code has it. When the platform answers through the error
    callback (whatever the error) and there is no hint, or the hint does not
    geocode, the origin that is set (by a callback that is not cancelled) is
    the default: [originFallback] in the commented [MapComponent], where this
    is the resolution [StaticFallback] of the specification, and Akure in the
    component of part_000. The callbacks return in every case: no exception
    leaves them. Where the platform has no location capability at all, the
    call of [getCurrentPosition] is a TypeError that leaves the effect: no
    callback runs and no origin is set. *)
Theorem failed_position_falls_back
    (parseFloat : Value -> JsNumber) (encodeURIComponent : string -> string)
    (network : Request -> Settled) (destination : Coord) (originHint : string)
    (originFallback : Coord) (err : PositionError) (s : Session) :
  originHint = EmptyString \/ lookup_place parseFloat encodeURIComponent network originHint = None ->
  (exists t,
     HintedMap.resolve parseFloat encodeURIComponent network (Some destination) originHint
       originFallback false (Failure err) Geocode.no_trace
     = (Normal (Some originFallback), t))
  /\ ResolverSpec.resolve 5000 originFallback
       (lookup_place parseFloat encodeURIComponent network) (device_fix (Failure err))
       originHint
     = ResolverSpec.StaticFallback originFallback
  /\ LocatingMap.located (Failure err) s
     = (Normal LocatingMap.akure, log (GeolocationError err) s)
  /\ (forall d hint fallback cancelled geo t,
        exists r t',
          HintedMap.resolve parseFloat encodeURIComponent network d hint fallback
            cancelled geo t = (Normal r, t'))
  /\ (forall d hint fallback cancelled geo t,
        HintedMap.acquire parseFloat encodeURIComponent network d hint fallback
          (Answers geo) cancelled t
        = HintedMap.resolve parseFloat encodeURIComponent network d hint fallback
            cancelled geo t)
  /\ (forall hint fallback cancelled t,
        HintedMap.acquire parseFloat encodeURIComponent network (Some destination) hint
          fallback NoGeolocation cancelled t
        = (Throw TypeError, t))
  /\ LocatingMap.locate false s = (Throw TypeError, s).
Proof.
  intros H.
  assert (E : ResolverSpec.resolve 5000 originFallback
                (lookup_place parseFloat encodeURIComponent network)
                (device_fix (Failure err)) originHint
              = ResolverSpec.StaticFallback originFallback).
  { unfold ResolverSpec.resolve; simpl.
    destruct H as [-> | H]; [reflexivity|].
    rewrite H. destruct (String.eqb originHint EmptyString); reflexivity. }
  split; [|split; [exact E|split; [reflexivity|split; [|split; [|split]]]]].
  - destruct (resolve_refines_spec parseFloat encodeURIComponent network destination
                originHint originFallback (Failure err)) as (t & Ht).
    rewrite E in Ht. exists t. exact Ht.
  - intros. apply resolve_returns.
  - intros d hint fallback cancelled geo t.
    unfold HintedMap.acquire, HintedMap.resolve. destruct (HintedMap.locate d); reflexivity.
  - reflexivity.
  - reflexivity.
Qed.

Lemma failed_position_falls_back_witness :
  exists t,
    HintedMap.resolve Builtins.parseFloat Builtins.encodeURIComponent
      (fun _ => Resolved {| resp_ok := true; resp_json := Some (Array []) |})
      (Some (coord 6.5244 3.3792)) "Ikorodu" HintedMap.default_originFallback false
      (Failure PERMISSION_DENIED) Geocode.no_trace
    = (Normal (Some HintedMap.default_originFallback), t).
Proof.
  apply (failed_position_falls_back Builtins.parseFloat Builtins.encodeURIComponent
           (fun _ => Resolved {| resp_ok := true; resp_json := Some (Array []) |})
           (coord 6.5244 3.3792) "Ikorodu" HintedMap.default_originFallback
           PERMISSION_DENIED init).
  right. reflexivity.
Defined.

(** C6, counterexample: on a platform without [navigator.geolocation] the
    acquisition fails and no default is returned. In the commented
    [MapComponent] the effect throws a TypeError, with no hint and the default
    fallback configured; in part_000 the geolocation effect throws at mount,
    the error is not handled, and the origin is never set: no map is made for
    the destination. *)
Lemma no_geolocation_no_fallback :
  let d := coord 6.5244 3.3792 in
  let s := LocatingMap.run Builtins.geojson_accepts Builtins.bounds_valid "ors-key"
             [LocatingMap.Locate false; LocatingMap.Render (Some d)] in
  HintedMap.acquire Builtins.parseFloat Builtins.encodeURIComponent (fun _ => Rejected)
    (Some d) EmptyString HintedMap.default_originFallback NoGeolocation false
    Geocode.no_trace
  = (Throw TypeError, Geocode.no_trace)
  /\ origin s = None
  /\ uncaught s = [TypeError]
  /\ surfaces (world s) = [].
Proof. repeat split. Qed.

(** C8, as the code has it. [geocodeWithNominatim] sends one GET request
    whose URL carries the encoded query, and always returns. It returns the
    pair of [parseFloat] of the [lat] and of the [lon] property of the first
    element when the body is a non-empty array whose first element is not
    [null]; it returns [null] when the array is empty, when its first element
    is [null], when the body is not JSON and when the fetch is rejected. *)
Theorem geocodeWithNominatim_outcome
    (parseFloat : Value -> JsNumber) (encodeURIComponent : string -> string)
    (network : Request -> Settled) (address : string) :
  let req := nominatim_request encodeURIComponent address in
  let run := Geocode.geocodeWithNominatim parseFloat encodeURIComponent network address
               Geocode.no_trace in
  Geocode.requests (snd run) = [req]
  /\ match network req with
     | Rejected => fst run = Normal None
     | Resolved res =>
         match resp_json res with
         | None => fst run = Normal None
         | Some (Array []) => fst run = Normal None
         | Some (Array (Null :: _)) | Some (Array (Undefined :: _)) => fst run = Normal None
         | Some (Array (first :: _)) =>
             fst run = Normal (Some (parseFloat (property "lat" first),
                                     parseFloat (property "lon" first)))
         | Some _ => exists r, fst run = Normal r
         end
     end.
Proof.
  intros req run. split.
  - apply (geocodeWithNominatim_requests parseFloat encodeURIComponent network address
             Geocode.no_trace).
  - assert (Hret : exists r, fst run = Normal r).
    { destruct (geocodeWithNominatim_returns parseFloat encodeURIComponent network
                  address Geocode.no_trace) as (r & t & E).
      exists r. subst run. rewrite E. reflexivity. }
    assert (Hrun : run = Geocode.geocodeWithNominatim parseFloat encodeURIComponent
                           network address Geocode.no_trace) by reflexivity.
    unfold Geocode.geocodeWithNominatim, try_catch, bind in Hrun.
    rewrite fetch_run in Hrun. change (network _) with (network req) in Hrun.
    destruct (network req) as [|res]; [rewrite Hrun; reflexivity|].
    simpl in Hrun.
    destruct (resp_json res) as [data|]; [|rewrite Hrun; reflexivity].
    destruct data as [| |b|n|str|items|fields]; try exact Hret.
    destruct items as [|first rest]; [rewrite Hrun; reflexivity|].
    destruct first; rewrite Hrun; reflexivity.
Qed.

(** C8, counterexample: the body [[null]] is a non-empty JSON array, and the
    result is [null], not a pair. *)
Lemma geocodeWithNominatim_null_element :
  fst (Geocode.geocodeWithNominatim Builtins.parseFloat Builtins.encodeURIComponent
         (fun _ => Resolved {| resp_ok := true; resp_json := Some (Array [Null]) |})
         "Ikeja, Lagos" Geocode.no_trace)
  = Normal None.
Proof. reflexivity. Qed.

(** C10, as the code has it. When the body is an array whose first element
    is an object without a [lat] property, [geocodeWithNominatim] returns a
    pair whose latitude is NaN instead of [null]; the pair is not a valid
    coordinate. Its caller, [fetchCoords] of the commented [Recommendations],
    keeps the pair as the [coords] of the hospital (an array is truthy), the
    row gets its "View on Map" button, and [MapComponent] is rendered with the
    pair as its [destination]; its [origin] is the position of the user. *)
Theorem geocodeWithNominatim_NaN_pair
    (parseFloat : Value -> JsNumber) (encodeURIComponent : string -> string)
    (network : Request -> Settled) (toString : Value -> string)
    (h : Value) (address : string)
    (res : Response) (fields : list (string * Value)) (rest : list Value)
    (geo : Outcome) :
  parseFloat Undefined = NaN ->
  get_field "full_address" h = Normal (Str address) ->
  network (nominatim_request encodeURIComponent address) = Resolved res ->
  resp_json res = Some (Array (Object fields :: rest)) ->
  assoc "lat" fields = Undefined ->
  exists c,
    fst (Geocode.geocodeWithNominatim parseFloat encodeURIComponent network
           address Geocode.no_trace) = Normal (Some c)
    /\ has_NaN c = true
    /\ valid_coordinate c = false
    /\ fst (Recommendations.fetchCoords parseFloat encodeURIComponent network toString [h]
              Geocode.no_trace)
       = Normal [{| Recommendations.hospital := h; Recommendations.coords := Some c |}]
    /\ Recommendations.map_props (Some (Recommendations.userCoords geo))
         (Recommendations.view_on_map
            {| Recommendations.hospital := h; Recommendations.coords := Some c |})
       = Some {| Recommendations.origin := Recommendations.userCoords geo;
                 Recommendations.destination := c |}.
Proof.
  intros Hpf Haddr Hnet Hjson Hlat.
  assert (E : Geocode.geocodeWithNominatim parseFloat encodeURIComponent network
                address Geocode.no_trace
              = (Normal (Some (NaN, parseFloat (assoc "lon" fields))),
                 Geocode.send (nominatim_request encodeURIComponent address)
                   Geocode.no_trace)).
  { unfold Geocode.geocodeWithNominatim, try_catch, bind. rewrite fetch_run.
    change (network _) with (network (nominatim_request encodeURIComponent address)).
    rewrite Hnet. simpl. rewrite Hjson. simpl. rewrite Hlat, Hpf. reflexivity. }
  exists (NaN, parseFloat (assoc "lon" fields)).
  split; [rewrite E; reflexivity|].
  split; [reflexivity|]. split; [reflexivity|]. split; [|reflexivity].
  simpl. unfold bind, lift. rewrite Haddr. simpl. rewrite E. reflexivity.
Qed.

Lemma geocodeWithNominatim_NaN_pair_witness :
  exists c,
    fst (Geocode.geocodeWithNominatim Builtins.parseFloat Builtins.encodeURIComponent
           (fun _ => Resolved {| resp_ok := true;
                                 resp_json := Some (Array [Object [("display_name",
                                                                    Str "Ikeja")]]) |})
           "Ikeja General Hospital" Geocode.no_trace) = Normal (Some c)
    /\ has_NaN c = true.
Proof.
  destruct (geocodeWithNominatim_NaN_pair Builtins.parseFloat
              Builtins.encodeURIComponent
              (fun _ => Resolved {| resp_ok := true;
                                    resp_json := Some (Array [Object [("display_name",
                                                                       Str "Ikeja")]]) |})
              (fun _ => "[object Object]")
              (Recommendations.hospital_of "General Hospital" "Ikeja General Hospital")
              "Ikeja General Hospital"
              {| resp_ok := true;
                 resp_json := Some (Array [Object [("display_name", Str "Ikeja")]]) |}
              [("display_name", Str "Ikeja")] [] (Failure TIMEOUT)
              eq_refl eq_refl eq_refl eq_refl eq_refl) as (c & H1 & H2 & _).
  exists c. split; [exact H1 | exact H2].
Defined.

(** C10, counterexample: for the body [[{}]] the pair (NaN, NaN) that
    [geocodeWithNominatim] returns becomes the [destination] of the map; the
    [origin] the caller passes is the position of the user (here the Lagos
    fallback), and no position of the user holds a NaN. *)
Lemma geocoded_pair_is_the_destination :
  let network := fun _ : Request =>
    Resolved {| resp_ok := true; resp_json := Some (Array [Object []]) |} in
  let h := Recommendations.hospital_of "General Hospital" "Ikeja, Lagos" in
  let row := {| Recommendations.hospital := h; Recommendations.coords := Some (NaN, NaN) |} in
  fst (Recommendations.fetchCoords Builtins.parseFloat Builtins.encodeURIComponent
         network (fun _ => "[object Object]") [h] Geocode.no_trace) = Normal [row]
  /\ Recommendations.map_props
       (Some (Recommendations.userCoords (Failure PERMISSION_DENIED)))
       (Recommendations.view_on_map row)
     = Some {| Recommendations.origin := coord 6.5244 3.3792;
               Recommendations.destination := (NaN, NaN) |}
  /\ (forall geo selected props,
        Recommendations.map_props (Some (Recommendations.userCoords geo)) selected
          = Some props ->
        has_NaN (Recommendations.origin props) = false).
Proof.
  split; [reflexivity|]. split; [reflexivity|].
  intros geo selected props H. unfold Recommendations.map_props in H.
  destruct selected as [sel|]; [|discriminate].
  destruct (Recommendations.coords sel); [|discriminate].
  injection H as <-. destruct geo; reflexivity.
Qed.

(** * Layers of a surface *)

Lemma filter_filter_comm {A} (f g : A -> bool) l :
  List.filter f (List.filter g l) = List.filter g (List.filter f l).
Proof.
  induction l as [|x l IH]; simpl; [reflexivity|].
  destruct (f x) eqn:Hf, (g x) eqn:Hg; simpl; rewrite ?Hf, ?Hg, IH; reflexivity.
Qed.

Lemma overlays_with_layer l sf :
  overlays (with_layer l sf) = overlays sf ++ (if is_overlay l then [l] else []).
Proof.
  unfold overlays, with_layer; simpl. rewrite List.filter_app. simpl.
  destruct (is_overlay l); reflexivity.
Qed.

Lemma overlays_with_view v sf : overlays (with_view v sf) = overlays sf.
Proof. reflexivity. Qed.

Lemma overlays_without_layer id sf :
  overlays (without_layer id sf)
  = List.filter (fun l => negb (layer_id l =? id)%nat) (overlays sf).
Proof. unfold overlays, without_layer; simpl. apply filter_filter_comm. Qed.

Lemma overlays_new_surface : overlays new_surface = [].
Proof. reflexivity. Qed.

Lemma overlays_torn_down sf : overlays (torn_down sf) = [].
Proof. reflexivity. Qed.

Lemma markers_with_layer l sf :
  markers (with_layer l sf) = markers sf ++ (if is_marker l then [l] else []).
Proof.
  unfold markers, with_layer; simpl. rewrite List.filter_app. simpl.
  destruct (is_marker l); reflexivity.
Qed.

Lemma markers_with_view v sf : markers (with_view v sf) = markers sf.
Proof. reflexivity. Qed.

Lemma markers_new_surface : markers new_surface = [].
Proof. reflexivity. Qed.

Lemma markers_without_layer id sf :
  apart (Some id) sf -> markers (without_layer id sf) = markers sf.
Proof.
  intros H. specialize (H id eq_refl). unfold markers, without_layer; simpl.
  induction (layers sf) as [|l ls IH]; simpl; [reflexivity|].
  apply Forall_cons in H as [Hl Hls].
  destruct (Nat.eqb_spec (layer_id l) id) as [E|E]; simpl.
  - specialize (Hl E). unfold is_overlay in Hl. unfold is_marker.
    destruct (kind l); try discriminate. apply IH, Hls.
  - rewrite (IH Hls). reflexivity.
Qed.

Lemma linked_without r id sf :
  linked r sf -> r = Some id -> overlays (without_layer id sf) = [].
Proof.
  intros [H | (l & H & Hr)] E; rewrite overlays_without_layer, H; [reflexivity|].
  simpl. rewrite E in Hr. injection Hr as ->. rewrite Nat.eqb_refl. reflexivity.
Qed.

Lemma linked_none sf : linked None sf -> overlays sf = [].
Proof. intros [H | (l & _ & H)]; [assumption | discriminate]. Qed.

Lemma linked_length r sf : linked r sf -> length (overlays sf) <= 1.
Proof. intros [H | (l & H & _)]; rewrite H; simpl; lia. Qed.

Lemma bounded_with_layer n l sf :
  bounded n sf -> layer_id l = n -> bounded (S n) (with_layer l sf).
Proof.
  unfold bounded, with_layer; simpl. intros H E. apply Forall_app. split.
  - eapply Forall_impl; [exact H|]. simpl. intros; lia.
  - constructor; [lia | constructor].
Qed.

Lemma bounded_with_view n v sf : bounded n sf -> bounded n (with_view v sf).
Proof. intros H; exact H. Qed.

Lemma bounded_without_layer n id sf : bounded n sf -> bounded n (without_layer id sf).
Proof.
  unfold bounded, without_layer; simpl. intros H.
  apply List.Forall_forall. intros l Hl. apply List.filter_In in Hl as [Hl _].
  rewrite List.Forall_forall in H. apply H, Hl.
Qed.

Lemma bounded_new_surface n : bounded n new_surface.
Proof. constructor. Qed.

Lemma bounded_weaken n sf : bounded n sf -> bounded (S n) sf.
Proof. unfold bounded. intros H. eapply Forall_impl; [exact H|]. simpl. intros; lia. Qed.

(** A layer with a new handle keeps the handle of [routeLayerRef] apart. *)
Lemma apart_with_layer r n l sf :
  apart r sf -> (forall id, r = Some id -> id < n) -> layer_id l = n ->
  apart r (with_layer l sf).
Proof.
  intros H Hr E id Hid. unfold with_layer; simpl. apply Forall_app. split.
  - apply H, Hid.
  - constructor; [|constructor]. intros E'. specialize (Hr id Hid). lia.
Qed.

Lemma apart_with_view r v sf : apart r sf -> apart r (with_view v sf).
Proof. intros H; exact H. Qed.

Lemma apart_without_layer r id sf : apart r sf -> apart r (without_layer id sf).
Proof.
  intros H id' Hid. specialize (H id' Hid). unfold without_layer; simpl.
  apply List.Forall_forall. intros l Hl. apply List.filter_In in Hl as [Hl _].
  rewrite List.Forall_forall in H. apply H, Hl.
Qed.

Lemma apart_new_surface r : apart r new_surface.
Proof. intros id _. constructor. Qed.

(** The layer just drawn is the one [routeLayerRef] now holds. *)
Lemma apart_drawn n l sf :
  bounded n sf -> layer_id l = n -> is_overlay l = true ->
  apart (Some n) (with_layer l sf).
Proof.
  intros H E Ho id Hid. injection Hid as <-. unfold with_layer; simpl.
  apply Forall_app. split.
  - eapply Forall_impl; [exact H|]. simpl. intros; lia.
  - constructor; [|constructor]. intros _. exact Ho.
Qed.


Lemma overlays_with_popup c sf : overlays (with_popup c sf) = overlays sf.
Proof. reflexivity. Qed.

Lemma markers_with_popup c sf : markers (with_popup c sf) = markers sf.
Proof. reflexivity. Qed.

Lemma bounded_with_popup n c sf : bounded n sf -> bounded n (with_popup c sf).
Proof. intros H; exact H. Qed.

Lemma apart_with_popup r c sf : apart r sf -> apart r (with_popup c sf).
Proof. intros H; exact H. Qed.

Lemma removed_with_popup c sf : removed (with_popup c sf) = removed sf.
Proof. reflexivity. Qed.

Lemma view_with_popup c sf : view (with_popup c sf) = option_map (AutoPanned c) (view sf).
Proof. reflexivity. Qed.

Lemma layers_with_popup c sf : layers (with_popup c sf) = layers sf.
Proof. reflexivity. Qed.

Lemma removed_with_layer l sf : removed (with_layer l sf) = removed sf.
Proof. reflexivity. Qed.
Lemma removed_with_view v sf : removed (with_view v sf) = removed sf.
Proof. reflexivity. Qed.
Lemma removed_without_layer id sf : removed (without_layer id sf) = removed sf.
Proof. reflexivity. Qed.
Lemma view_with_layer l sf : view (with_layer l sf) = view sf.
Proof. reflexivity. Qed.
Lemma view_without_layer id sf : view (without_layer id sf) = view sf.
Proof. reflexivity. Qed.
Lemma view_with_view v sf : view (with_view v sf) = Some v.
Proof. reflexivity. Qed.

Create Rewrite HintDb surface.
#[local] Hint Rewrite overlays_with_layer overlays_with_view overlays_with_popup
  overlays_new_surface overlays_torn_down markers_with_layer markers_with_view
  markers_with_popup markers_new_surface removed_with_layer removed_with_view
  removed_with_popup removed_without_layer
  view_with_layer view_without_layer view_with_view view_with_popup : surface.

Ltac known :=
  repeat match goal with
  | H : overlays ?x = _ |- context [overlays ?x] => rewrite H
  | H : markers ?x = _ |- context [markers ?x] => rewrite H
  end.

Ltac surfaces :=
  autorewrite with surface; known; simpl; rewrite ?map_app; simpl;
  rewrite ?app_nil_r, <- ?app_assoc.

Ltac snapshots :=
  repeat match goal with
  | |- Forall _ [] => constructor
  | |- Forall single_overlay (_ :: _) => constructor
  | |- single_overlay _ => unfold single_overlay
  | |- Forall _ (_ :: _) => constructor
  | |- length (overlays _) <= 1 => surfaces; try lia
  | |- _ => assumption
  end.

Ltac below :=
  match goal with
  | H : forall id, ?r = Some id -> _ |- forall id, ?r = Some id -> _ =>
      let i := fresh "i" in let Hi := fresh "Hi" in
      intros i Hi; specialize (H i Hi); lia
  | |- forall id, Some _ = Some id -> _ =>
      let i := fresh "i" in let Hi := fresh "Hi" in
      intros i Hi; injection Hi as <-; lia
  | |- forall id, None = Some id -> _ => intros ? ?; discriminate
  end.

Ltac handles :=
  repeat match goal with
  | |- bounded _ (with_view _ _) => apply bounded_with_view
  | |- bounded _ (with_popup _ _) => apply bounded_with_popup
  | |- bounded _ (without_layer _ _) => apply bounded_without_layer
  | |- bounded (S _) (with_layer _ _) => apply bounded_with_layer; [|reflexivity]
  | |- bounded _ new_surface => apply bounded_new_surface
  | |- apart _ (with_view _ _) => apply apart_with_view
  | |- apart _ (with_popup _ _) => apply apart_with_popup
  | |- apart _ (without_layer _ _) => apply apart_without_layer
  | |- apart _ new_surface => apply apart_new_surface
  | |- apart (Some ?n) (with_layer {| layer_id := ?n; kind := GeoJSON _ _ |} _) =>
      apply (apart_drawn n); [|reflexivity|reflexivity]
  | |- apart _ (with_layer {| layer_id := ?n; kind := _ |} _) =>
      apply (apart_with_layer _ n); [|below|reflexivity]
  | |- _ => assumption
  end.

Ltac open_session s :=
  destruct s as [[?ss ?tl ?nl] ?mr ?rr ?cl ?og ?ds ?inf ?iss ?con ?unc].

(** * The components that keep the map in [mapRef] *)

Arguments has_NaN : simpl never.

Lemma never_fitted_with_popup c sf :
  never_fitted_to_points sf -> never_fitted_to_points (with_popup c sf).
Proof.
  unfold never_fitted_to_points. intros H pts. rewrite view_with_popup.
  destruct (view sf); simpl; discriminate.
Qed.

Lemma never_fitted_with_layer l sf :
  never_fitted_to_points sf -> never_fitted_to_points (with_layer l sf).
Proof. intros H; exact H. Qed.

Lemma never_fitted_without_layer id sf :
  never_fitted_to_points sf -> never_fitted_to_points (without_layer id sf).
Proof. intros H; exact H. Qed.

Lemma never_fitted_centered c z sf : never_fitted_to_points (with_view (Centered c z) sf).
Proof. intros pts. rewrite view_with_view. discriminate. Qed.

Lemma never_fitted_layer_bounds data sf :
  never_fitted_to_points (with_view (Fitted (LayerBounds data)) sf).
Proof. intros pts. rewrite view_with_view. discriminate. Qed.

Lemma never_fitted_new_surface : never_fitted_to_points new_surface.
Proof. intros pts. discriminate. Qed.

Ltac viewport :=
  repeat match goal with
  | |- never_fitted_to_points (with_popup _ _) => apply never_fitted_with_popup
  | |- never_fitted_to_points (with_layer _ _) => apply never_fitted_with_layer
  | |- never_fitted_to_points (without_layer _ _) => apply never_fitted_without_layer
  | |- never_fitted_to_points (with_view (Centered _ _) _) => apply never_fitted_centered
  | |- never_fitted_to_points (with_view (Fitted (LayerBounds _)) _) =>
      apply never_fitted_layer_bounds
  | |- never_fitted_to_points new_surface => apply never_fitted_new_surface
  | |- _ => assumption
  end.

(** closes [ref_inv] of a computed state whose map is there *)
Ltac ref_inv_map :=
  refine (conj _ (conj _ (conj eq_refl (ex_intro _ _ (conj eq_refl
            (conj _ (conj _ (conj _ (conj _ _)))))))));
  [ snapshots
  | below
  | surfaces; first [assumption | reflexivity]
  | unfold linked in *; surfaces; first [assumption | left; reflexivity | idtac]
  | viewport
  | handles
  | handles ].

(** and of one whose map was left at its [setView] *)
Ltac ref_inv_left :=
  refine (conj _ (conj _ (conj _ (or_intror (conj eq_refl eq_refl)))));
  [ snapshots | below | first [assumption | reflexivity] ].

Ltac nan_cases o d :=
  destruct o as [o|]; [destruct (has_NaN o) eqn:?Ho|];
  (destruct d as [d|]; [destruct (has_NaN d) eqn:?Hd|]).

Ltac run_effect :=
  unfold run_task, RefMap.effect, LocatingMap.effect, MapJsx.effect, L_marker, setView,
    toLatLng, bind, lift, sound, placed, both_markers, marker_at, route_call;
  repeat (progress (simpl;
                    repeat match goal with
                           | H : has_NaN ?c = _ |- context [has_NaN ?c] => rewrite H
                           end));
  cbn.

Lemma crashed_false s : crashed s = false -> uncaught s = [].
Proof. unfold crashed. destruct (uncaught s); [reflexivity | discriminate]. Qed.

Section RefMapSteps.

Variable acc : Value -> bool.

Lemma refmap_render s o d :
  ref_inv s -> crashed s = false ->
  let s' := RefMap.step acc s (RefMap.Render o d) in
  ref_inv s' /\ created s'
  /\ all_markers s' = all_markers s ++ placed o d
  /\ all_overlays s' = all_overlays s
  /\ inflight s' = inflight s ++ route_call (issued s) o d
  /\ issued s' = issued s + length (route_call (issued s) o d)
  /\ console s' = console s
  /\ (if sound o && sound d then uncaught s' = [] /\ mapRef s' = Some 0
      else crashed s' = true)
  /\ (sound o = true ->
      views s' = match o with
                 | Some o => [Some (Centered o 13)]
                 | None => match mapRef s with
                           | Some _ => views s
                           | None => [Some (Centered RefMap.nigeria 6)]
                           end
                 end).
Proof.
  intros H Hc. cbv zeta. unfold RefMap.step. rewrite Hc.
  apply crashed_false in Hc. revert H Hc.
  open_session s.
  unfold ref_inv, created, all_markers, all_overlays, views; simpl.
  intros (Htl & Hrr & Hm) ->.
  destruct mr as [m|].
  - destruct Hm as (-> & sf & -> & Hr & Hl & Hv & Hb & Ha).
    pose proof (linked_length _ _ Hl) as Hlen.
    nan_cases o d; run_effect.
    all: (split; [ref_inv_map|]); (split; [eexists; split; [reflexivity|surfaces; assumption]|]).
    all: repeat split; surfaces; try reflexivity; try lia; try discriminate.
  - destruct Hm as (-> & [-> | [Hcr _]]); [|discriminate].
    nan_cases o d; run_effect.
    all: (split; [first [ref_inv_left | ref_inv_map]|]);
         (split; [eexists; split; [reflexivity|surfaces; reflexivity]|]).
    all: repeat split; surfaces; try reflexivity; try lia; try discriminate.
Qed.

End RefMapSteps.

Section RefMapSettle.

Variable acc : Value -> bool.

Lemma find_pending_inflight id s p : find_pending id s = Some p -> inflight s <> [].
Proof. unfold find_pending. destruct (inflight s); [discriminate | discriminate]. Qed.

Lemma refmap_settle s id out p :
  ref_inv s -> find_pending id s = Some p ->
  let s' := RefMap.step acc s (RefMap.Settle id out) in
  ref_inv s' /\ mapRef s' = mapRef s /\ all_markers s' = all_markers s
  /\ views s' = views s /\ uncaught s' = uncaught s /\ issued s' = issued s
  /\ (forall q, In q (inflight s') -> In q (inflight s))
  /\ created s'
  /\ match json_of out with
     | Throw e => surfaces (world s') = surfaces (world s)
                  /\ console s' = console s ++ [RouteError e]
     | Normal (res, data) =>
         if acc data
         then all_overlays s' = [GeoJSON data (query p)] /\ console s' = console s
         else all_overlays s' = []
              /\ console s' = console s ++ [RouteError LeafletError]
     end.
Proof.
  intros H Hp. unfold RefMap.step. rewrite Hp.
  pose proof (find_pending_inflight _ _ _ Hp) as Hne. clear Hp.
  open_session s.
  unfold ref_inv, created, all_markers, all_overlays, views in *; simpl in *.
  destruct H as (Htl & Hrr & Hm).
  destruct mr as [m|]; [|destruct Hm; contradiction].
  destruct Hm as (-> & sf & -> & Hr & Hl & Hv & Hb & Ha).
  pose proof (linked_length _ _ Hl) as Hlen.
  assert (Hin : forall q, In q (List.filter (fun p => negb (fetch_id p =? id)%nat) inf)
                          -> In q inf).
  { intros q Hq. apply List.filter_In in Hq as [Hq _]. exact Hq. }
  unfold RefMap.getRoute_resume, run_task, try_catch, bind, lift; simpl.
  destruct (json_of out) as [[res data]|e]; simpl.
  - destruct rr as [old|]; cbn; unfold geoJSON; destruct (acc data); cbn.
    all: try (pose proof (linked_without _ _ _ Hl eq_refl) as Hw;
              pose proof (markers_without_layer _ _ Ha) as Hmk).
    all: try (pose proof (linked_none _ Hl) as Hw).
    all: (split; [ref_inv_map|]);
         try (right; eexists; split; reflexivity).
    all: repeat split; surfaces; first [reflexivity | assumption | idtac].
    all: eexists; split; [reflexivity | surfaces; assumption].
  - split; [ref_inv_map|]. repeat split; try reflexivity; try assumption.
    eexists; split; [reflexivity | assumption].
Qed.

End RefMapSettle.

Section LocatingMapSteps.

Variable acc : Value -> bool.
Variable valid : Value -> bool.
Variable key : string.

Lemma ref_inv_log e s : ref_inv s -> ref_inv (log e s).
Proof. intros H; exact H. Qed.

Lemma locating_effect s o d :
  ref_inv s -> crashed s = false ->
  let s' := run_task (LocatingMap.effect key o d) (set_props o d s) in
  ref_inv s' /\ origin s' = o /\ destination s' = d /\ console s' = console s
  /\ all_overlays s' = all_overlays s
  /\ all_markers s' = all_markers s ++ both_markers o d
  /\ known_pair s'
  /\ match o, d with
     | Some o, Some d =>
         if has_NaN o || has_NaN d then crashed s' = true else uncaught s' = []
     | _, _ => uncaught s' = []
     end
  /\ views s' = match o, d with
                | Some o, Some _ =>
                    if has_NaN o
                    then match surfaces (world s) with
                         | [] => [None]
                         | _ :: _ => views s
                         end
                    else map (option_map (AutoPanned o))
                           match surfaces (world s) with
                           | [] => [Some (Centered o 13)]
                           | _ :: _ => views s
                           end
                | _, _ => views s
                end
  /\ inflight s' = inflight s
                   ++ match o, d with
                      | Some o, Some d =>
                          if has_NaN o || has_NaN d then []
                          else [{| fetch_id := issued s;
                                   request := directions_request key o d;
                                   query := (o, d); scope_map := None |}]
                      | _, _ => []
                      end
  /\ (created s -> created s').
Proof.
  intros H Hc. cbv zeta. apply crashed_false in Hc. revert H Hc.
  open_session s.
  unfold ref_inv, known_pair, created, all_markers, all_overlays, views; simpl.
  intros (Htl & Hrr & Hm) ->.
  destruct mr as [m|].
  - destruct Hm as (-> & sf & -> & Hr & Hl & Hv & Hb & Ha).
    pose proof (linked_length _ _ Hl) as Hlen.
    nan_cases o d; run_effect.
    all: (split; [ref_inv_map|]).
    all: repeat split; surfaces; try reflexivity; try discriminate.
    all: try intros _.
    all: eexists; split; [reflexivity | surfaces; assumption].
  - destruct Hm as (-> & [-> | [Hcr _]]); [|discriminate].
    nan_cases o d; run_effect.
    all: (split; [first [ref_inv_left | ref_inv_map
                        | refine (conj _ (conj _ (conj eq_refl (or_introl eq_refl))));
                          [snapshots | below] ]|]).
    all: repeat split; surfaces; try reflexivity; try discriminate.
    all: try (intros (sf0 & E0 & _); discriminate).
    all: eexists; split; [reflexivity | surfaces; reflexivity].
Qed.

Lemma locating_located s geo :
  crashed s = false ->
  LocatingMap.step acc valid key s (LocatingMap.Located geo)
  = let o := located_origin geo in
    let s1 := match geo with
              | Success _ => s
              | Failure err => log (GeolocationError err) s
              end in
    run_task (LocatingMap.effect key (Some o) (destination s))
      (set_props (Some o) (destination s) s1).
Proof. intros Hc. unfold LocatingMap.step. rewrite Hc. destruct geo; reflexivity. Qed.

Lemma locating_render s d :
  crashed s = false ->
  LocatingMap.step acc valid key s (LocatingMap.Render d)
  = run_task (LocatingMap.effect key (origin s) d) (set_props (origin s) d s).
Proof. intros Hc. unfold LocatingMap.step. rewrite Hc. reflexivity. Qed.

Lemma locating_settle s id out p :
  ref_inv s -> find_pending id s = Some p ->
  let s' := LocatingMap.step acc valid key s (LocatingMap.Settle id out) in
  ref_inv s' /\ mapRef s' = mapRef s /\ all_markers s' = all_markers s
  /\ origin s' = origin s /\ destination s' = destination s
  /\ uncaught s' = uncaught s /\ created s'
  /\ match json_of out with
     | Throw e => surfaces (world s') = surfaces (world s)
                  /\ console s' = console s ++ [RouteError e]
     | Normal (res, data) =>
         if negb (resp_ok res)
         then surfaces (world s') = surfaces (world s)
              /\ console s' = console s ++ [OrsError data]
         else if acc data
         then all_overlays s' = [GeoJSON data (query p)]
              /\ if valid data
                 then views s' = [Some (Fitted (LayerBounds data))]
                      /\ console s' = console s
                 else views s' = views s
                      /\ console s' = console s ++ [RouteError LeafletError]
         else all_overlays s' = [] /\ views s' = views s
              /\ console s' = console s ++ [RouteError LeafletError]
     end.
Proof.
  intros H Hp. unfold LocatingMap.step. rewrite Hp.
  pose proof (find_pending_inflight _ _ _ Hp) as Hne. clear Hp.
  open_session s.
  unfold ref_inv, created, all_markers, all_overlays, views in *; simpl in *.
  destruct H as (Htl & Hrr & Hm).
  destruct mr as [m|]; [|destruct Hm; contradiction].
  destruct Hm as (-> & sf & -> & Hr & Hl & Hv & Hb & Ha).
  pose proof (linked_length _ _ Hl) as Hlen.
  unfold LocatingMap.getRoute_resume, run_task, try_catch, bind, lift; simpl.
  destruct (json_of out) as [[res data]|e]; simpl.
  - destruct (resp_ok res); simpl.
    + destruct rr as [old|]; cbn; unfold geoJSON; destruct (acc data); cbn;
        unfold fitBounds; try destruct (valid data); cbn.
      all: try (pose proof (linked_without _ _ _ Hl eq_refl) as Hw;
                pose proof (markers_without_layer _ _ Ha) as Hmk).
      all: try (pose proof (linked_none _ Hl) as Hw).
      all: (split; [ref_inv_map|]);
           try (right; eexists; split; reflexivity).
      all: repeat split; surfaces; first [reflexivity | assumption | idtac].
      all: eexists; split; [reflexivity | surfaces; assumption].
    + split; [ref_inv_map|]. repeat split; try reflexivity; try assumption.
      eexists; split; [reflexivity | assumption].
  - split; [ref_inv_map|]. repeat split; try reflexivity; try assumption.
    eexists; split; [reflexivity | assumption].
Qed.

End LocatingMapSteps.

(** * Map.jsx *)

Lemma alter_last {A} (f : A -> A) (l : list A) (x : A) :
  alter f (length l) (l ++ [x]) = l ++ [f x].
Proof. induction l as [|y l IH]; simpl; [reflexivity|]. f_equal. exact IH. Qed.

Lemma waiting_on_app m l1 l2 : waiting_on m (l1 ++ l2) = waiting_on m l1 ++ waiting_on m l2.
Proof. apply List.filter_app. Qed.

(** No call waits on a map that is not created yet. *)
Lemma waiting_on_beyond n l :
  (forall p, In p l -> exists m, scope_map p = Some m /\ m < n) -> waiting_on n l = [].
Proof.
  induction l as [|p l IH]; intros H; simpl; [reflexivity|].
  destruct (H p (or_introl eq_refl)) as (m & E & Hm). rewrite E.
  destruct (Nat.eqb_spec m n); [lia|]. apply IH. intros q Hq. apply H. right. exact Hq.
Qed.

Lemma waiting_on_dropped m id l :
  length (waiting_on m (List.filter (fun p => negb (fetch_id p =? id)%nat) l))
  <= length (waiting_on m l).
Proof.
  induction l as [|p l IH]; simpl; [lia|].
  destruct (negb (fetch_id p =? id)%nat); simpl;
    destruct (match scope_map p with Some m' => (m' =? m)%nat | None => false end);
    simpl; lia.
Qed.

(** The call that is resumed does not wait any more. *)
Lemma waiting_on_resumed m id l p :
  List.find (fun p => (fetch_id p =? id)%nat) l = Some p -> scope_map p = Some m ->
  S (length (waiting_on m (List.filter (fun p => negb (fetch_id p =? id)%nat) l)))
  <= length (waiting_on m l).
Proof.
  induction l as [|q l IH]; simpl; [discriminate|].
  destruct (fetch_id q =? id)%nat eqn:E; simpl.
  - intros [= ->] Hs. rewrite Hs, Nat.eqb_refl. simpl.
    pose proof (waiting_on_dropped m id l). lia.
  - intros Hf Hs. specialize (IH Hf Hs).
    destruct (match scope_map q with Some m' => (m' =? m)%nat | None => false end);
      simpl; lia.
Qed.

Lemma waiting_on_length m l : length (waiting_on m l) <= length l.
Proof. apply List.filter_length_le. Qed.

Lemma jsx_single_overlay s : jsx_inv s -> single_overlay (surfaces (world s)).
Proof.
  intros (_ & _ & H & _). apply Forall_lookup. intros m sf Hm.
  destruct (H m sf Hm) as [Hl _]. lia.
Qed.

Lemma single_overlay_last now sf :
  single_overlay now -> overlays sf = [] -> single_overlay (now ++ [sf]).
Proof.
  intros H E. apply Forall_app. split; [exact H|].
  constructor; [rewrite E; simpl; lia | constructor].
Qed.

Lemma live_map_mounted s : crashed s = false -> live_map s = cleanup s.
Proof. unfold live_map. intros ->. reflexivity. Qed.

(** The map that is not removed yet is the one [live_map] names. *)
Lemma jsx_live s m sf :
  jsx_inv s -> surfaces (world s) !! m = Some sf ->
  removed sf <= 1 /\ (removed sf = 0 -> live_map s = Some m).
Proof.
  intros (_ & _ & H & _) E. destruct (H m sf E) as [_ Hr].
  destruct (decide (live_map s = Some m)); rewrite Hr; split; try lia.
  intros _. assumption.
Qed.

Lemma jsx_cleanup s :
  jsx_inv s -> crashed s = false ->
  let s' := run_task MapJsx.run_cleanup s in
  jsx_inv s' /\ cleanup s' = None /\ uncaught s' = []
  /\ length (surfaces (world s')) = length (surfaces (world s))
  /\ inflight s' = inflight s /\ next_layer (world s') = next_layer (world s)
  /\ console s' = console s
  /\ (forall m sf, surfaces (world s') !! m = Some sf -> removed sf = 1)
  /\ surfaces (world s') = match cleanup s with
                           | Some c => alter torn_down c (surfaces (world s))
                           | None => surfaces (world s)
                           end.
Proof.
  intros H Hc. pose proof (jsx_single_overlay s H) as Hso.
  apply crashed_false in Hc. revert H Hso Hc.
  open_session s. unfold jsx_inv, live_map; simpl. intros (Htl & Hp & Hs & Hcl) Hso ->.
  simpl in *.
  destruct cl as [c|]; cbn.
  - assert (Hnew : forall m sf, alter torn_down c ss !! m = Some sf ->
               length (overlays sf) + length (waiting_on m inf) <= 1 /\ removed sf = 1).
    { intros m sf. destruct (decide (c = m)) as [->|Hne].
      - rewrite list_lookup_alter_eq. destruct (ss !! m) as [sf0|] eqn:E; [|discriminate].
        intros [= <-]. destruct (Hs m sf0 E) as [Hl Hr].
        rewrite decide_True in Hr by reflexivity.
        split; [change (overlays (torn_down sf0)) with (@nil Layer); simpl; lia|].
        change (removed (torn_down sf0)) with (S (removed sf0)). lia.
      - rewrite list_lookup_alter_ne by exact Hne. intros E.
        destruct (Hs m sf E) as [Hl Hr].
        rewrite decide_False in Hr by congruence. split; assumption. }
    split; [|split; [reflexivity|split; [reflexivity|split; [apply length_alter|
      split; [reflexivity|split; [reflexivity|split; [reflexivity|split; [|reflexivity]]]]]]]].
    + split; [|split; [|split]].
      * constructor; [|exact Htl]. apply Forall_lookup. intros m sf E.
        destruct (Hnew m sf E). lia.
      * intros p Hin. rewrite length_alter. apply Hp, Hin.
      * intros m sf E. rewrite decide_False by discriminate. apply (Hnew m sf E).
      * discriminate.
    + intros m sf E. apply (Hnew m sf E).
  - split; [|split; [reflexivity|split; [reflexivity|split; [reflexivity|
      split; [reflexivity|split; [reflexivity|split; [reflexivity|split; [|reflexivity]]]]]]]].
    + split; [exact Htl|]. split; [exact Hp|]. split; [exact Hs | exact Hcl].
    + intros m sf E. destruct (Hs m sf E) as [_ Hr]. exact Hr.
Qed.

(** A new map, put behind maps that are all removed. *)
Lemma jsx_inv_pushed s s' sf extra :
  jsx_inv s -> live_map s = None ->
  surfaces (world s') = surfaces (world s) ++ [sf] ->
  removed sf = 0 -> overlays sf = [] ->
  Forall single_overlay (timeline (world s')) ->
  inflight s' = inflight s ++ extra ->
  length extra <= 1 ->
  Forall (fun p => scope_map p = Some (length (surfaces (world s)))) extra ->
  live_map s' = Some (length (surfaces (world s))) ->
  (forall m, cleanup s' = Some m ->
     m = length (surfaces (world s)) /\ crashed s' = false) ->
  jsx_inv s'.
Proof.
  intros (Htl & Hp & Hs & Hcl) Hlive Ess Hr Ho Htl' Einf Hlen Hextra Hlive' Hcl'.
  unfold jsx_inv. rewrite Ess, Einf, Hlive'.
  split; [exact Htl'|]. split; [|split].
  - intros p Hin. rewrite length_app; simpl. apply in_app_or in Hin as [Hin | Hin].
    + destruct (Hp p Hin) as (m & E & Hm). exists m. split; [exact E | lia].
    + rewrite List.Forall_forall in Hextra. exists (length (surfaces (world s))).
      split; [apply Hextra, Hin | lia].
  - intros m sf' E. rewrite waiting_on_app, length_app.
    apply lookup_app_Some in E as [E | [Hge E]].
    + pose proof (lookup_lt_Some _ _ _ E) as Hlt.
      destruct (Hs m sf' E) as [Hl Hrm]. rewrite Hlive in Hrm.
      rewrite decide_False in Hrm by discriminate.
      rewrite decide_False by (intros [= ?]; lia).
      assert (Hw : waiting_on m extra = []).
      { clear - Hextra Hlt. induction Hextra as [|p l Hp _ IH]; simpl; [reflexivity|].
        rewrite Hp. destruct (Nat.eqb_spec (length (surfaces (world s))) m); [lia|].
        exact IH. }
      rewrite Hw. simpl. split; [lia | exact Hrm].
    + destruct (m - length (surfaces (world s))) as [|k] eqn:Ek; [|destruct k; discriminate].
      injection E as <-. assert (m = length (surfaces (world s))) as -> by lia.
      rewrite (waiting_on_beyond _ _ Hp), Ho.
      rewrite decide_True by reflexivity.
      pose proof (waiting_on_length (length (surfaces (world s))) extra).
      simpl. split; [lia | exact Hr].
  - intros m Hm. destruct (Hcl' m Hm) as [-> Hc]. rewrite length_app; simpl.
    split; [lia | exact Hc].
Qed.

Lemma layers_nil_overlays sf : layers sf = [] -> overlays sf = [].
Proof. unfold overlays. intros ->. reflexivity. Qed.

Lemma jsx_effect s o d :
  jsx_inv s -> cleanup s = None -> crashed s = false ->
  let s' := run_task (MapJsx.effect o d) s in
  jsx_inv s'
  /\ (exists sf, surfaces (world s') = surfaces (world s) ++ [sf]
                 /\ fresh_map o d sf /\ no_geometry sf)
  /\ console s' = console s
  /\ if has_NaN o || has_NaN d
     then crashed s' = true /\ cleanup s' = None /\ inflight s' = inflight s
     else uncaught s' = [] /\ cleanup s' = Some (length (surfaces (world s)))
          /\ inflight s'
             = inflight s ++ [{| fetch_id := issued s; request := MapJsx.route_request;
                                 query := (o, d);
                                 scope_map := Some (length (surfaces (world s))) |}].
Proof.
  intros H Hcl Hc. pose proof (jsx_single_overlay s H) as Hso.
  assert (Hlive : live_map s = None) by (rewrite live_map_mounted; assumption).
  apply crashed_false in Hc. cbv zeta.
  match goal with |- context [run_task ?t s] => set (s' := run_task t s) end.
  assert (Hs' : s' = run_task (MapJsx.effect o d) s) by reflexivity.
  clearbody s'. revert H Hso Hlive Hcl Hc Hs'.
  open_session s. simpl. intros H Hso Hlive -> -> Hs'.
  unfold fresh_map, marker_at, no_geometry.
  destruct (has_NaN o) eqn:Ho; [|destruct (has_NaN d) eqn:Hd]; revert Hs'; run_effect;
    rewrite ?alter_last; intros ->; simpl.
  all: split;
    [ eapply (jsx_inv_pushed _ _ _ _ H Hlive); simpl;
      [ reflexivity | reflexivity | reflexivity
      | repeat (constructor; [apply single_overlay_last; [exact Hso | reflexivity]|]);
        apply H
      | first [ symmetry; apply app_nil_r | reflexivity ]
      | simpl; lia
      | repeat constructor
      | unfold live_map; simpl; rewrite ?length_app; simpl; rewrite ?Nat.add_1_r; reflexivity
      | first [ discriminate | intros m [= <-]; split; reflexivity ] ]
    | ].
  all: split; [eexists; split; [reflexivity|]; split;
               [repeat split | repeat constructor; discriminate]|].
  all: repeat split.
Qed.

Lemma jsx_render_step s o d :
  crashed s = false ->
  MapJsx.step s (MapJsx.Render o d)
  = run_task (MapJsx.effect o d)
      (run_task MapJsx.run_cleanup (set_props (Some o) (Some d) s)).
Proof.
  intros Hc. unfold MapJsx.step. rewrite Hc.
  unfold MapJsx.run_cleanup, run_task, bind, gets. simpl.
  destruct (cleanup s); reflexivity.
Qed.

Lemma jsx_inv_props o d s : jsx_inv s -> jsx_inv (set_props o d s).
Proof. intros H; exact H. Qed.

Lemma live_map_eq s s' :
  uncaught s' = uncaught s -> cleanup s' = cleanup s ->
  length (surfaces (world s')) = length (surfaces (world s)) ->
  live_map s' = live_map s.
Proof. unfold live_map, crashed. intros -> -> ->. reflexivity. Qed.

(** What settling a request of Map.jsx does. *)
Lemma jsx_settle_run s id out p :
  find_pending id s = Some p ->
  let s' := MapJsx.step s (MapJsx.Settle id out) in
  cleanup s' = cleanup s /\ uncaught s' = uncaught s
  /\ inflight s' = List.filter (fun p => negb (fetch_id p =? id)%nat) (inflight s)
  /\ match out, scope_map p with
     | Resolved _, Some m =>
         surfaces (world s')
         = alter (with_layer {| layer_id := next_layer (world s);
                                kind := GeoJSON Undefined (query p) |}) m
             (surfaces (world s))
         /\ timeline (world s') = surfaces (world s') :: timeline (world s)
         /\ console s' = console s
     | Resolved _, None =>
         world s' = world (set_world {| surfaces := surfaces (world s);
                                        timeline := timeline (world s);
                                        next_layer := S (next_layer (world s)) |} s)
         /\ console s' = console s ++ [RouteError TypeError]
     | Rejected, _ =>
         world s' = world s /\ console s' = console s ++ [RouteError NetworkError]
     end.
Proof.
  intros Hf. cbv zeta. unfold MapJsx.step. rewrite Hf. clear Hf.
  open_session s. destruct p as [pid preq pq [m|]], out as [|res]; repeat split.
Qed.

Lemma jsx_settle s id out p :
  jsx_inv s -> find_pending id s = Some p ->
  let s' := MapJsx.step s (MapJsx.Settle id out) in
  jsx_inv s' /\ cleanup s' = cleanup s /\ uncaught s' = uncaught s
  /\ length (surfaces (world s')) = length (surfaces (world s))
  /\ inflight s' = List.filter (fun p => negb (fetch_id p =? id)%nat) (inflight s)
  /\ exists m sf, scope_map p = Some m /\ surfaces (world s) !! m = Some sf
     /\ match out with
        | Rejected => surfaces (world s') = surfaces (world s)
                      /\ console s' = console s ++ [RouteError NetworkError]
        | Resolved _ =>
            surfaces (world s')
            = alter (with_layer {| layer_id := next_layer (world s);
                                   kind := GeoJSON Undefined (query p) |}) m
                (surfaces (world s))
            /\ console s' = console s
        end.
Proof.
  intros H Hf. cbv zeta.
  destruct (jsx_settle_run s id out p Hf) as (Ecl & Eu & Einf & Hout).
  set (s' := MapJsx.step s (MapJsx.Settle id out)) in *. clearbody s'.
  assert (Hin : In p (inflight s)).
  { unfold find_pending in Hf. apply List.find_some in Hf as [Hin _]. exact Hin. }
  destruct H as (Htl & Hp & Hs & Hc).
  destruct (Hp p Hin) as (m & Hm & Hlt).
  destruct (lookup_lt_is_Some_2 _ m Hlt) as [sf0 Hsf0].
  rewrite Hm in Hout.
  assert (Hlen : length (surfaces (world s')) = length (surfaces (world s))).
  { destruct out as [|res].
    - destruct Hout as [-> _]. reflexivity.
    - destruct Hout as (-> & _). apply length_alter. }
  pose proof (live_map_eq s s' Eu Ecl Hlen) as Elive.
  split; [|split; [exact Ecl|split; [exact Eu|split; [exact Hlen|split; [exact Einf|]]]]].
  - unfold jsx_inv. rewrite Einf, Elive, Ecl, Hlen. unfold crashed. rewrite Eu.
    fold (crashed s). destruct out as [|res].
    + destruct Hout as [-> _].
      split; [exact Htl|]. split; [|split; [|exact Hc]].
      * intros q Hq. apply List.filter_In in Hq as [Hq _]. apply Hp, Hq.
      * intros m' sf' E. destruct (Hs m' sf' E) as [Hl Hr].
        pose proof (waiting_on_dropped m' id (inflight s)). split; [lia | exact Hr].
    + destruct Hout as (Ess & Etl & _).
      assert (Hnew : forall m' sf',
                surfaces (world s') !! m' = Some sf' ->
                length (overlays sf') + length (waiting_on m'
                   (List.filter (fun p => negb (fetch_id p =? id)%nat) (inflight s))) <= 1
                /\ removed sf' = (if decide (live_map s = Some m') then 0 else 1)).
      { rewrite Ess. intros m' sf'. destruct (decide (m = m')) as [<-|Hne].
        - rewrite list_lookup_alter_eq, Hsf0. intros [= <-].
          destruct (Hs m sf0 Hsf0) as [Hl Hr].
          pose proof (waiting_on_resumed m id (inflight s) _ Hf Hm).
          rewrite overlays_with_layer, length_app. simpl. split; [lia | exact Hr].
        - rewrite list_lookup_alter_ne by exact Hne. intros E.
          destruct (Hs m' sf' E) as [Hl Hr].
          pose proof (waiting_on_dropped m' id (inflight s)). split; [lia | exact Hr]. }
      split; [|split; [|split; [exact Hnew | exact Hc]]].
      * rewrite Etl. constructor; [|exact Htl]. apply Forall_lookup. intros m' sf' E.
        destruct (Hnew m' sf' E). lia.
      * intros q Hq. apply List.filter_In in Hq as [Hq _]. apply Hp, Hq.
  - exists m, sf0. split; [exact Hm|]. split; [exact Hsf0|].
    destruct out as [|res].
    + destruct Hout as [-> E]. split; [reflexivity | exact E].
    + destruct Hout as (E1 & _ & E2). split; assumption.
Qed.

Lemma jsx_step_inv s e : jsx_inv s -> jsx_inv (MapJsx.step s e).
Proof.
  intros H. destruct e as [o d|id out|].
  - destruct (crashed s) eqn:Hc; [unfold MapJsx.step; rewrite Hc; exact H|].
    rewrite jsx_render_step by exact Hc.
    destruct (jsx_cleanup _ (jsx_inv_props (Some o) (Some d) s H) Hc) as (H1 & Hcl & Hu & _).
    apply (jsx_effect _ o d H1 Hcl). unfold crashed. rewrite Hu. reflexivity.
  - destruct (find_pending id s) as [p|] eqn:Hf.
    + apply (jsx_settle s id out p H Hf).
    + unfold MapJsx.step. rewrite Hf. exact H.
  - unfold MapJsx.step. destruct (crashed s) eqn:Hc; [exact H|].
    apply (jsx_cleanup s H Hc).
Qed.

(** * Runs *)

Lemma fold_left_inv {S E : Type} (P : S -> Prop) (step : S -> E -> S) :
  (forall s e, P s -> P (step s e)) ->
  forall events s, P s -> P (fold_left step events s).
Proof.
  intros Hstep events. induction events as [|e events IH]; intros s Hs; simpl.
  - exact Hs.
  - apply IH, Hstep, Hs.
Qed.

Lemma ref_inv_init : ref_inv init.
Proof.
  unfold ref_inv; simpl. split; [constructor|]. split; [intros id H; discriminate|].
  split; [reflexivity | left; reflexivity].
Qed.

Lemma jsx_inv_init : jsx_inv init.
Proof.
  unfold jsx_inv; simpl. split; [constructor|]. split; [intros p []|].
  split; [intros m sf H; discriminate | intros m H; discriminate].
Qed.

Lemma ref_inv_single_overlay s : ref_inv s -> always_single_overlay s.
Proof.
  intros (Htl & _ & Hm). split; [|exact Htl].
  destruct (mapRef s).
  - destruct Hm as (_ & sf & -> & _ & Hl & _).
    constructor; [exact (linked_length _ _ Hl) | constructor].
  - destruct Hm as [_ [-> | [_ ->]]]; repeat constructor.
Qed.

Lemma ref_inv_surfaces s :
  ref_inv s -> forall sf, In sf (surfaces (world s)) ->
  removed sf = 0 /\ never_fitted_to_points sf.
Proof.
  intros (_ & _ & Hm) sf Hin. destruct (mapRef s).
  - destruct Hm as (_ & sf0 & E & Hr & _ & Hv & _). rewrite E in Hin.
    destruct Hin as [<- | []]. split; assumption.
  - destruct Hm as [_ [E | [_ E]]]; rewrite E in Hin; [destruct Hin|].
    destruct Hin as [<- | []]. split; [reflexivity | apply never_fitted_new_surface].
Qed.

Lemma ref_inv_length s : ref_inv s -> length (surfaces (world s)) <= 1.
Proof.
  intros (_ & _ & Hm). destruct (mapRef s).
  - destruct Hm as (_ & sf & -> & _). simpl. lia.
  - destruct Hm as [_ [-> | [_ ->]]]; simpl; lia.
Qed.

Lemma ref_inv_created s : ref_inv s -> surfaces (world s) <> [] -> created s.
Proof.
  intros H Hne. pose proof (ref_inv_length s H) as Hlen.
  pose proof (ref_inv_surfaces s H) as Hs.
  destruct (surfaces (world s)) as [|sf [|sf' rest]] eqn:E; [contradiction| |simpl in Hlen; lia].
  exists sf. unfold created. rewrite E. split; [reflexivity|]. apply Hs. left. reflexivity.
Qed.

(** An effect that throws before it reaches Leaflet leaves the maps alone. *)
Lemma ref_inv_escaped e s : ref_inv s -> ref_inv (escaped e s).
Proof.
  unfold ref_inv, escaped, crashed; simpl. intros (Htl & Hrr & Hm).
  split; [exact Htl|]. split; [exact Hrr|].
  destruct (mapRef s); [exact Hm|].
  destruct Hm as [Hi [E | [_ E]]]; (split; [exact Hi|]); [left; exact E|].
  right. split; [|exact E]. destruct (uncaught s); reflexivity.
Qed.

Section RefMapRuns.

Variable acc : Value -> bool.

Lemma refmap_step_inv s e : ref_inv s -> ref_inv (RefMap.step acc s e).
Proof.
  intros H. destruct e as [o d|id out|].
  - destruct (crashed s) eqn:Hc; [unfold RefMap.step; rewrite Hc; exact H|].
    apply (refmap_render acc s o d H Hc).
  - destruct (find_pending id s) as [p|] eqn:Hf.
    + apply (refmap_settle acc s id out p H Hf).
    + unfold RefMap.step. rewrite Hf. exact H.
  - exact H.
Qed.

Lemma refmap_run_inv events : ref_inv (RefMap.run acc events).
Proof.
  unfold RefMap.run. apply (fold_left_inv ref_inv); [apply refmap_step_inv | apply ref_inv_init].
Qed.

Lemma refmap_step_created s e :
  ref_inv s /\ created s ->
  ref_inv (RefMap.step acc s e) /\ created (RefMap.step acc s e).
Proof.
  intros [H Hm]. split; [apply refmap_step_inv, H|].
  destruct e as [o d|id out|].
  - destruct (crashed s) eqn:Hc; [unfold RefMap.step; rewrite Hc; exact Hm|].
    apply (refmap_render acc s o d H Hc).
  - destruct (find_pending id s) as [p|] eqn:Hf.
    + apply (refmap_settle acc s id out p H Hf).
    + unfold RefMap.step. rewrite Hf. exact Hm.
  - exact Hm.
Qed.

Lemma refmap_run_created o d events :
  created (RefMap.run acc (RefMap.Render o d :: events)).
Proof.
  unfold RefMap.run. simpl fold_left.
  assert (H : ref_inv (RefMap.step acc init (RefMap.Render o d))
              /\ created (RefMap.step acc init (RefMap.Render o d))).
  { destruct (refmap_render acc init o d ref_inv_init eq_refl) as (H1 & H2 & _).
    split; assumption. }
  apply (fold_left_inv (fun s => ref_inv s /\ created s) (RefMap.step acc)
           refmap_step_created events) in H.
  apply H.
Qed.

(** What settling a request leaves alone. *)
Lemma refmap_settle_frame s id out :
  ref_inv s ->
  let s' := RefMap.step acc s (RefMap.Settle id out) in
  all_markers s' = all_markers s /\ views s' = views s /\ uncaught s' = uncaught s
  /\ issued s' = issued s /\ (forall q, In q (inflight s') -> In q (inflight s)).
Proof.
  intros H. destruct (find_pending id s) as [p|] eqn:Hf.
  - destruct (refmap_settle acc s id out p H Hf) as (_ & _ & Hmk & Hv & Hu & Hi & Hq & _).
    repeat split; assumption.
  - simpl. rewrite Hf. repeat split; auto.
Qed.

Lemma refmap_run_snoc events e :
  RefMap.run acc (events ++ [e]) = RefMap.step acc (RefMap.run acc events) e.
Proof. unfold RefMap.run. rewrite fold_left_app. reflexivity. Qed.

End RefMapRuns.

Section LocatingMapRuns.

Variable acc : Value -> bool.
Variable valid : Value -> bool.
Variable key : string.

Lemma locating_update s e :
  ref_inv s -> crashed s = false -> is_update e = true ->
  let s' := LocatingMap.step acc valid key s e in
  ref_inv s' /\ known_pair s'
  /\ all_overlays s' = all_overlays s
  /\ all_markers s' = all_markers s ++ both_markers (origin s') (destination s')
  /\ console s' = match e with
                  | LocatingMap.Located (Failure err) => console s ++ [GeolocationError err]
                  | _ => console s
                  end
  /\ origin s' = match e with
                 | LocatingMap.Located geo => Some (located_origin geo)
                 | _ => origin s
                 end
  /\ destination s' = match e with
                      | LocatingMap.Render d => d
                      | _ => destination s
                      end.
Proof.
  intros H Hc He. destruct e as [geo|d|id out| |cap]; try discriminate.
  - cbv zeta. rewrite locating_located by exact Hc. cbv zeta.
    set (o := located_origin geo).
    set (s1 := match geo with Success _ => s | Failure err => _ end).
    assert (H1 : ref_inv s1) by (subst s1; destruct geo; exact H).
    assert (Hc1 : crashed s1 = false) by (subst s1; destruct geo; exact Hc).
    assert (Hm : all_markers s1 = all_markers s) by (subst s1; destruct geo; reflexivity).
    assert (Ho : all_overlays s1 = all_overlays s) by (subst s1; destruct geo; reflexivity).
    destruct (locating_effect key s1 (Some o) (destination s) H1 Hc1)
      as (Hi & Eo & Ed & Econ & Hov & Hmk & Hk & _).
    rewrite Eo, Ed, Hov, Hmk, Ho, Hm, Econ.
    split; [exact Hi|]. split; [exact Hk|]. split; [reflexivity|]. split; [reflexivity|].
    split; [subst s1; destruct geo; reflexivity|]. split; reflexivity.
  - cbv zeta. rewrite locating_render by exact Hc.
    destruct (locating_effect key s (origin s) d H Hc)
      as (Hi & Eo & Ed & Econ & Hov & Hmk & Hk & _).
    rewrite Eo, Ed, Hov, Hmk.
    split; [exact Hi|]. split; [exact Hk|]. repeat split; first [assumption | reflexivity].
Qed.

Lemma locating_locate s cap :
  LocatingMap.step acc valid key s (LocatingMap.Locate cap)
  = if crashed s then s else if cap then s else escaped TypeError s.
Proof. unfold LocatingMap.step. destruct (crashed s), cap; reflexivity. Qed.

Lemma locating_step_inv s e :
  ref_inv s /\ known_pair s ->
  ref_inv (LocatingMap.step acc valid key s e)
  /\ known_pair (LocatingMap.step acc valid key s e).
Proof.
  intros [H Hk]. destruct e as [geo|d|id out| |cap].
  - destruct (crashed s) eqn:Hc; [unfold LocatingMap.step; rewrite Hc; split; assumption|].
    destruct (locating_update s (LocatingMap.Located geo) H Hc eq_refl) as (H1 & H2 & _).
    split; assumption.
  - destruct (crashed s) eqn:Hc; [unfold LocatingMap.step; rewrite Hc; split; assumption|].
    destruct (locating_update s (LocatingMap.Render d) H Hc eq_refl) as (H1 & H2 & _).
    split; assumption.
  - destruct (find_pending id s) as [p|] eqn:Hf.
    + destruct (locating_settle acc valid key s id out p H Hf)
        as (H1 & _ & _ & Eo & Ed & _ & Hcr & _).
      split; [exact H1|]. unfold known_pair in *. rewrite Eo, Ed.
      destruct (origin s), (destination s); try exact I. exact Hcr.
    + unfold LocatingMap.step. rewrite Hf. split; assumption.
  - split; assumption.
  - rewrite locating_locate. destruct (crashed s); [split; assumption|].
    destruct cap; [split; assumption|].
    split; [apply ref_inv_escaped, H | exact Hk].
Qed.

(** No step of part_000 takes the map away. *)
Lemma locating_step_created s e :
  ref_inv s -> created s -> created (LocatingMap.step acc valid key s e).
Proof.
  intros H Hm. destruct e as [geo|d|id out| |cap].
  - destruct (crashed s) eqn:Hc; [unfold LocatingMap.step; rewrite Hc; exact Hm|].
    rewrite locating_located by exact Hc. cbv zeta.
    match goal with
    | |- created (run_task _ (set_props _ _ ?s1)) =>
        apply (locating_effect key s1 (Some (located_origin geo)) (destination s))
    end; destruct geo; assumption.
  - destruct (crashed s) eqn:Hc; [unfold LocatingMap.step; rewrite Hc; exact Hm|].
    rewrite locating_render by exact Hc.
    apply (locating_effect key s (origin s) d H Hc). exact Hm.
  - destruct (find_pending id s) as [p|] eqn:Hf.
    + apply (locating_settle acc valid key s id out p H Hf).
    + unfold LocatingMap.step. rewrite Hf. exact Hm.
  - exact Hm.
  - rewrite locating_locate. destruct (crashed s), cap; exact Hm.
Qed.

Lemma locating_run_inv events :
  ref_inv (LocatingMap.run acc valid key events)
  /\ known_pair (LocatingMap.run acc valid key events).
Proof.
  unfold LocatingMap.run. apply (fold_left_inv (fun s => ref_inv s /\ known_pair s)).
  - apply locating_step_inv.
  - split; [apply ref_inv_init | exact I].
Qed.

Lemma locating_settle_frame s id out :
  ref_inv s ->
  let s' := LocatingMap.step acc valid key s (LocatingMap.Settle id out) in
  all_markers s' = all_markers s /\ uncaught s' = uncaught s.
Proof.
  intros H. destruct (find_pending id s) as [p|] eqn:Hf.
  - destruct (locating_settle acc valid key s id out p H Hf)
      as (_ & _ & Hmk & _ & _ & Hu & _).
    split; assumption.
  - simpl. rewrite Hf. split; reflexivity.
Qed.

Lemma locating_run_snoc events e :
  LocatingMap.run acc valid key (events ++ [e])
  = LocatingMap.step acc valid key (LocatingMap.run acc valid key events) e.
Proof. unfold LocatingMap.run. rewrite fold_left_app. reflexivity. Qed.

End LocatingMapRuns.

Lemma jsx_run_inv events : jsx_inv (MapJsx.run events).
Proof.
  unfold MapJsx.run. apply (fold_left_inv jsx_inv); [apply jsx_step_inv | apply jsx_inv_init].
Qed.

Lemma jsx_run_snoc events e :
  MapJsx.run (events ++ [e]) = MapJsx.step (MapJsx.run events) e.
Proof. unfold MapJsx.run. rewrite fold_left_app. reflexivity. Qed.

(** An effect run of Map.jsx: the cleanup of the run before, then the
    effect. *)
Lemma jsx_render s o d :
  jsx_inv s -> crashed s = false ->
  let s' := MapJsx.step s (MapJsx.Render o d) in
  exists older sf,
    surfaces (world s') = older ++ [sf]
    /\ length older = length (surfaces (world s))
    /\ Forall (fun old => removed old = 1) older
    /\ older = match cleanup s with
               | Some c => alter torn_down c (surfaces (world s))
               | None => surfaces (world s)
               end
    /\ fresh_map o d sf /\ no_geometry sf
    /\ console s' = console s
    /\ if has_NaN o || has_NaN d
       then crashed s' = true /\ inflight s' = inflight s
       else uncaught s' = []
            /\ inflight s'
               = inflight s ++ [{| fetch_id := issued s; request := MapJsx.route_request;
                                   query := (o, d);
                                   scope_map := Some (length (surfaces (world s))) |}].
Proof.
  intros H Hc. cbv zeta. rewrite jsx_render_step by exact Hc.
  destruct (jsx_cleanup _ (jsx_inv_props (Some o) (Some d) s H) Hc)
    as (H1 & Hcl & Hu & Hl & Hinf & _ & Hcon & Hr & Ess).
  set (s1 := run_task MapJsx.run_cleanup (set_props (Some o) (Some d) s)) in *.
  assert (Hc1 : crashed s1 = false) by (unfold crashed; rewrite Hu; reflexivity).
  assert (Hiss : issued s1 = issued s).
  { subst s1. clear. open_session s. destruct cl; reflexivity. }
  destruct (jsx_effect s1 o d H1 Hcl Hc1) as (_ & (sf & E & Hf & Hg) & Econ & Hcase).
  exists (surfaces (world s1)), sf.
  split; [exact E|]. split; [exact Hl|]. split; [apply Forall_lookup; exact Hr|].
  split; [exact Ess|]. split; [exact Hf|]. split; [exact Hg|].
  split; [rewrite Econ; exact Hcon|].
  rewrite Hl, Hinf, Hiss in Hcase. destruct (has_NaN o || has_NaN d).
  - destruct Hcase as (Hx & _ & Hy). split; assumption.
  - destruct Hcase as (Hx & _ & Hy). split; assumption.
Qed.

(** No step takes an uncaught error back. *)
Lemma jsx_step_uncaught s e :
  jsx_inv s -> uncaught (MapJsx.step s e) = [] -> uncaught s = [].
Proof.
  intros H. destruct (crashed s) eqn:Hc; [|intros _; apply crashed_false, Hc].
  destruct e as [o d|id out|]; unfold MapJsx.step; rewrite ?Hc; try (intros E; exact E).
  destruct (find_pending id s) as [p|] eqn:Hf; [|intros E; exact E].
  destruct (jsx_settle_run s id out p Hf) as (_ & Eu & _).
  unfold MapJsx.step in Eu. rewrite Hf in Eu. rewrite Eu. intros E; exact E.
Qed.

Lemma jsx_step_length s e :
  jsx_inv s ->
  length (surfaces (world (MapJsx.step s e)))
  = length (surfaces (world s))
    + (if is_render e && negb (crashed s) then 1 else 0).
Proof.
  intros H. destruct e as [o d|id out|]; simpl is_render.
  - destruct (crashed s) eqn:Hc; cbn [andb negb].
    + unfold MapJsx.step. rewrite Hc. lia.
    + destruct (jsx_render s o d H Hc) as (older & sf & E & Hl & _).
      rewrite E, length_app, Hl. simpl. lia.
  - cbn [andb]. destruct (find_pending id s) as [p|] eqn:Hf.
    + destruct (jsx_settle s id out p H Hf) as (_ & _ & _ & E & _). rewrite E. lia.
    + unfold MapJsx.step. rewrite Hf. lia.
  - cbn [andb]. unfold MapJsx.step. destruct (crashed s) eqn:Hc; [lia|].
    destruct (jsx_cleanup s H Hc) as (_ & _ & _ & E & _). rewrite E. lia.
Qed.

Lemma jsx_run_length events :
  let s := MapJsx.run events in
  length (surfaces (world s)) <= length (List.filter is_render events)
  /\ (uncaught s = [] ->
      length (surfaces (world s)) = length (List.filter is_render events)).
Proof.
  induction events as [|e events IH] using rev_ind; [split; reflexivity|].
  cbv zeta in *. rewrite jsx_run_snoc.
  pose proof (jsx_step_length _ e (jsx_run_inv events)) as E.
  pose proof (jsx_step_uncaught _ e (jsx_run_inv events)) as Hu.
  rewrite List.filter_app, length_app, E. destruct IH as [IH1 IH2]. simpl.
  split.
  - destruct (is_render e), (crashed (MapJsx.run events)); simpl; lia.
  - intros Hs. specialize (Hu Hs). rewrite (IH2 Hu).
    unfold crashed. rewrite Hu. destruct (is_render e); simpl; lia.
Qed.

(** * The claims about the map components *)

(** C3. In the three components, at every observation point (every state
    the maps go through, also between two Leaflet calls of one task) each map
    carries at most one route overlay: where an overlay is replaced, the old
    layer is taken off before the new one is added. *)
Theorem one_route_overlay_at_a_time
    (geojson_accepts bounds_valid : Value -> bool) (ors_key : string) :
  (forall events, always_single_overlay (RefMap.run geojson_accepts events))
  /\ (forall events,
        always_single_overlay (LocatingMap.run geojson_accepts bounds_valid ors_key events))
  /\ (forall events, always_single_overlay (MapJsx.run events)).
Proof.
  split; [|split]; intros events.
  - apply ref_inv_single_overlay, refmap_run_inv.
  - apply ref_inv_single_overlay, locating_run_inv.
  - pose proof (jsx_run_inv events) as H. split.
    + apply jsx_single_overlay, H.
    + apply H.
Qed.

(** C1, as the code has it. There is no epoch: the outcome of every
    request in flight is applied when its fetch settles, whatever was
    requested since. When the response is one Leaflet draws (and, in
    part_000, has a 2xx status), the overlay on the map afterwards is the one
    drawn from it, for the origin and destination of its own request. *)
Theorem outcomes_applied_as_they_arrive
    (geojson_accepts bounds_valid : Value -> bool) (ors_key : string) :
  (forall events id p res data,
     find_pending id (RefMap.run geojson_accepts events) = Some p ->
     resp_json res = Some data ->
     geojson_accepts data = true ->
     all_overlays (RefMap.step geojson_accepts (RefMap.run geojson_accepts events)
                     (RefMap.Settle id (Resolved res)))
     = [GeoJSON data (query p)])
  /\ (forall events id p res data,
        find_pending id (LocatingMap.run geojson_accepts bounds_valid ors_key events)
          = Some p ->
        resp_json res = Some data ->
        resp_ok res = true ->
        geojson_accepts data = true ->
        all_overlays (LocatingMap.step geojson_accepts bounds_valid ors_key
                        (LocatingMap.run geojson_accepts bounds_valid ors_key events)
                        (LocatingMap.Settle id (Resolved res)))
        = [GeoJSON data (query p)]).
Proof.
  split.
  - intros events id p res data Hf Hj Ha.
    destruct (refmap_settle geojson_accepts _ id (Resolved res) p
                (refmap_run_inv geojson_accepts events) Hf)
      as (_ & _ & _ & _ & _ & _ & _ & _ & H).
    simpl in H. rewrite Hj, Ha in H. apply H.
  - intros events id p res data Hf Hj Hok Ha.
    destruct (locating_settle geojson_accepts bounds_valid ors_key _ id (Resolved res) p
                (proj1 (locating_run_inv geojson_accepts bounds_valid ors_key events)) Hf)
      as (_ & _ & _ & _ & _ & _ & _ & H).
    simpl in H. rewrite Hj, Hok, Ha in H. simpl in H. apply H.
Qed.

Lemma outcomes_applied_as_they_arrive_witness :
  let o1 := coord 6.60 3.40 in
  let o2 := coord 6.61 3.41 in
  let d := coord 6.5244 3.3792 in
  let body := Builtins.route [(3.40, 6.60); (3.3792, 6.5244)]%Q in
  let res := {| resp_ok := true; resp_json := Some body |} in
  all_overlays
    (RefMap.step Builtins.geojson_accepts
       (RefMap.run Builtins.geojson_accepts
          [RefMap.Render (Some o1) (Some d); RefMap.Render (Some o2) (Some d)])
       (RefMap.Settle 0 (Resolved res)))
  = [GeoJSON body (o1, d)].
Proof.
  intros o1 o2 d body res.
  apply (proj1 (outcomes_applied_as_they_arrive Builtins.geojson_accepts
                  Builtins.bounds_valid "ors-key")
           [RefMap.Render (Some o1) (Some d); RefMap.Render (Some o2) (Some d)] 0
           {| fetch_id := 0; request := directions_request "YOUR_API_KEY_HERE" o1 d;
              query := (o1, d); scope_map := None |} res body);
    reflexivity.
Defined.

(** C1, counterexample: after update(o1,d) and update(o2,d), the second
    fetch resolves first and the first one last; both answers are routes, as
    the directions service sends them. The outcome of the first request is
    drawn, and the overlay left on the map is the route from o1 although the
    origin is o2. In part_000, where the origin is set once, the same happens
    with two destinations: the route to the first one is what stays drawn. *)
Lemma stale_route_is_drawn :
  let o1 := coord 6.60 3.40 in
  let o2 := coord 6.61 3.41 in
  let d := coord 6.5244 3.3792 in
  let d2 := coord 6.45 3.39 in
  let route1 := Builtins.route [(3.40, 6.60); (3.3792, 6.5244)]%Q in
  let route2 := Builtins.route [(3.41, 6.61); (3.3792, 6.5244)]%Q in
  let route3 := Builtins.route [(3.40, 6.60); (3.39, 6.45)]%Q in
  let answer body := Resolved {| resp_ok := true; resp_json := Some body |} in
  let s := RefMap.run Builtins.geojson_accepts
             [RefMap.Render (Some o1) (Some d); RefMap.Render (Some o2) (Some d);
              RefMap.Settle 1 (answer route2); RefMap.Settle 0 (answer route1)] in
  let s' := LocatingMap.run Builtins.geojson_accepts Builtins.bounds_valid "ors-key"
              [LocatingMap.Locate true; LocatingMap.Render (Some d);
               LocatingMap.Located (Success {| latitude := 6.60; longitude := 3.40;
                                               accuracy := Some 200%Q |});
               LocatingMap.Render (Some d2);
               LocatingMap.Settle 1 (answer route3);
               LocatingMap.Settle 0 (answer route1)] in
  origin s = Some o2 /\ issued s = 2 /\ uncaught s = [] /\ console s = []
  /\ all_overlays s = [GeoJSON route1 (o1, d)]
  /\ destination s' = Some d2 /\ issued s' = 2 /\ uncaught s' = [] /\ console s' = []
  /\ all_overlays s' = [GeoJSON route1 (o1, d)].
Proof. repeat split. Qed.

(** Among the elements of a list that are told apart by their position,
    at most one satisfies a test that holds at one position only. *)
Lemma filter_at_most_one {A} (P : A -> bool) (l : list A) :
  (forall i j x y, l !! i = Some x -> l !! j = Some y ->
                   P x = true -> P y = true -> i = j) ->
  length (List.filter P l) <= 1.
Proof.
  induction l as [|x l IH]; intros H; simpl; [lia|].
  destruct (P x) eqn:Px; simpl.
  - assert (E : List.filter P l = []).
    { destruct (List.filter P l) as [|y ys] eqn:F; [reflexivity|]. exfalso.
      assert (Hy : In y (List.filter P l)) by (rewrite F; left; reflexivity).
      apply List.filter_In in Hy as [Hin Py].
      apply list_elem_of_In, list_elem_of_lookup in Hin as [j Hj].
      specialize (H 0 (S j) x y eq_refl Hj Px Py). discriminate. }
    rewrite E. simpl. lia.
  - apply IH. intros i j a b Hi Hj Pa Pb.
    specialize (H (S i) (S j) a b Hi Hj Pa Pb). lia.
Qed.

(** C2, as the code has it. The components of utils/geocode.js and
    part_000 create the map once: in utils/geocode.js there is exactly one
    map from the first effect run on, in part_000 there is at most one, and
    exactly one once the effect has run with an origin and a destination; it
    is never removed. The component of Map.jsx creates a map in every effect
    run, after the cleanup has removed the one before, so that at most one of
    its maps is not removed: it has as many maps as it has had effect runs,
    which are all its renders as long as no effect has thrown. In part_000
    the map, once it is there, stays the one map through every later event. *)
Theorem map_created_once_with_refs
    (geojson_accepts bounds_valid : Value -> bool) (ors_key : string) :
  (forall o d events,
     exists sf,
       surfaces (world (RefMap.run geojson_accepts (RefMap.Render o d :: events))) = [sf]
       /\ removed sf = 0)
  /\ (forall events,
        let s := LocatingMap.run geojson_accepts bounds_valid ors_key events in
        length (surfaces (world s)) <= 1
        /\ match origin s, destination s with
           | Some _, Some _ => exists sf, surfaces (world s) = [sf] /\ removed sf = 0
           | _, _ => True
           end)
  /\ (forall events,
        let s := MapJsx.run events in
        length (surfaces (world s)) <= length (List.filter is_render events)
        /\ (uncaught s = [] ->
            length (surfaces (world s)) = length (List.filter is_render events))
        /\ length (List.filter (fun sf => (removed sf =? 0)%nat) (surfaces (world s))) <= 1)
  /\ (forall events o d,
        let s := MapJsx.run events in
        uncaught s = [] ->
        length (surfaces (world (MapJsx.step s (MapJsx.Render o d))))
        = S (length (surfaces (world s))))
  /\ (forall events e,
        let s := LocatingMap.run geojson_accepts bounds_valid ors_key events in
        created s ->
        created (LocatingMap.step geojson_accepts bounds_valid ors_key s e)).
Proof.
  split; [|split; [|split; [|split]]].
  - intros o d events. apply refmap_run_created.
  - intros events s.
    destruct (locating_run_inv geojson_accepts bounds_valid ors_key events) as [Hi Hk].
    fold s in Hi, Hk. split; [apply ref_inv_length, Hi|]. exact Hk.
  - intros events s. destruct (jsx_run_length events) as [H1 H2].
    split; [exact H1|]. split; [exact H2|].
    apply filter_at_most_one. intros i j x y Hi Hj Px Py.
    apply Nat.eqb_eq in Px, Py.
    destruct (jsx_live s i x (jsx_run_inv events) Hi) as [_ Hx].
    destruct (jsx_live s j y (jsx_run_inv events) Hj) as [_ Hy].
    specialize (Hx Px). specialize (Hy Py). congruence.
  - intros events o d s Hu.
    rewrite (jsx_step_length s _ (jsx_run_inv events)). unfold crashed. rewrite Hu.
    simpl. lia.
  - intros events e s.
    apply (locating_step_created geojson_accepts bounds_valid ors_key s e).
    apply locating_run_inv.
Qed.

Lemma map_created_once_with_refs_witness :
  let o := coord 6.60 3.40 in
  let d := coord 6.5244 3.3792 in
  let events := [MapJsx.Render o d; MapJsx.Settle 0 Rejected; MapJsx.Render d o] in
  length (surfaces (world (MapJsx.run events))) = length (List.filter is_render events).
Proof.
  intros o d events.
  apply (proj1 (proj2 (proj1 (proj2 (proj2 (map_created_once_with_refs
            Builtins.geojson_accepts Builtins.bounds_valid "ors-key"))) events))).
  reflexivity.
Defined.

(** C2, counterexample: in Map.jsx a change of the origin creates a second
    map (the first one is removed by the cleanup). *)
Lemma map_created_again_in_MapJsx :
  let o1 := coord 6.60 3.40 in
  let o2 := coord 6.61 3.41 in
  let d := coord 6.5244 3.3792 in
  map removed (surfaces (world (MapJsx.run [MapJsx.Render o1 d]))) = [0]
  /\ map removed (surfaces (world (MapJsx.run [MapJsx.Render o1 d; MapJsx.Render o2 d])))
     = [1; 0].
Proof. split; reflexivity. Qed.

(** C4, as the code has it. In Map.jsx the cleanup of an effect run removes
    the map that run created, before the next effect run and at unmount: no
    map is removed twice, only the map created last can be one that is not
    removed, and after the unmount every map has been removed, as long as no
    effect run has thrown (a run that throws returns no cleanup). A
    [getRoute] call in flight is not cancelled by the cleanup: when its fetch
    resolves, its layer is added to the map of its effect run, removed or not.
    The components of utils/geocode.js and part_000 return no cleanup: their
    map is never removed. *)
Theorem cleanup_removes_each_map_once
    (geojson_accepts bounds_valid : Value -> bool) (ors_key : string) :
  (forall events,
     let s := MapJsx.run events in
     Forall (fun sf => removed sf <= 1) (surfaces (world s))
     /\ forall m sf, surfaces (world s) !! m = Some sf -> removed sf = 0 ->
                     S m = length (surfaces (world s)))
  /\ (forall events,
        let s := MapJsx.run (events ++ [MapJsx.Unmount]) in
        uncaught s = [] ->
        Forall (fun sf => removed sf = 1) (surfaces (world s)))
  /\ (forall events id p res,
        find_pending id (MapJsx.run events) = Some p ->
        exists m sf,
          scope_map p = Some m
          /\ surfaces (world (MapJsx.run events)) !! m = Some sf
          /\ surfaces (world (MapJsx.step (MapJsx.run events)
                                (MapJsx.Settle id (Resolved res))))
             = alter (with_layer {| layer_id := next_layer (world (MapJsx.run events));
                                    kind := GeoJSON Undefined (query p) |}) m
                 (surfaces (world (MapJsx.run events))))
  /\ (forall events,
        Forall (fun sf => removed sf = 0)
          (surfaces (world (RefMap.run geojson_accepts (events ++ [RefMap.Unmount])))))
  /\ (forall events,
        Forall (fun sf => removed sf = 0)
          (surfaces (world (LocatingMap.run geojson_accepts bounds_valid ors_key
                              (events ++ [LocatingMap.Unmount]))))).
Proof.
  split; [|split; [|split; [|split]]].
  - intros events s. split.
    + apply Forall_lookup. intros m sf E.
      apply (jsx_live _ m sf (jsx_run_inv events) E).
    + intros m sf E Hr.
      destruct (jsx_live _ m sf (jsx_run_inv events) E) as [_ Hl].
      specialize (Hl Hr). fold s in Hl. unfold live_map in Hl.
      destruct (crashed s) eqn:Hc.
      * destruct (length (surfaces (world s))); [discriminate|].
        injection Hl as ->. reflexivity.
      * pose proof (jsx_run_inv events) as (_ & _ & _ & H). apply (H m Hl).
  - intros events s Hu. subst s. rewrite jsx_run_snoc in *.
    pose proof (jsx_step_uncaught _ _ (jsx_run_inv events) Hu) as Hu0.
    assert (Hc : crashed (MapJsx.run events) = false).
    { unfold crashed. rewrite Hu0. reflexivity. }
    unfold MapJsx.step. rewrite Hc. apply Forall_lookup. intros m sf E.
    destruct (jsx_cleanup _ (jsx_run_inv events) Hc) as (_ & _ & _ & _ & _ & _ & _ & H & _).
    apply (H m sf E).
  - intros events id p res Hf.
    destruct (jsx_settle _ id (Resolved res) p (jsx_run_inv events) Hf)
      as (_ & _ & _ & _ & _ & m & sf & Hm & Hsf & Hs & _).
    exists m, sf. repeat split; assumption.
  - intros events. apply List.Forall_forall. intros sf Hin.
    apply (ref_inv_surfaces _ (refmap_run_inv geojson_accepts _) sf Hin).
  - intros events. apply List.Forall_forall. intros sf Hin.
    apply (ref_inv_surfaces _
             (proj1 (locating_run_inv geojson_accepts bounds_valid ors_key _)) sf Hin).
Qed.

Lemma cleanup_removes_each_map_once_witness :
  let o := coord 6.60 3.40 in
  let d := coord 6.5244 3.3792 in
  let events := [MapJsx.Render o d; MapJsx.Unmount] in
  exists m sf,
    Some 0 = Some m
    /\ surfaces (world (MapJsx.run events)) !! m = Some sf
    /\ surfaces (world (MapJsx.step (MapJsx.run events)
                          (MapJsx.Settle 0 (Resolved {| resp_ok := false;
                                                        resp_json := None |}))))
       = alter (with_layer {| layer_id := 3; kind := GeoJSON Undefined (o, d) |}) m
           (surfaces (world (MapJsx.run events))).
Proof.
  intros o d events.
  apply (proj1 (proj2 (proj2 (cleanup_removes_each_map_once Builtins.geojson_accepts
                                Builtins.bounds_valid "ors-key")))
           events 0
           {| fetch_id := 0; request := MapJsx.route_request; query := (o, d);
              scope_map := Some 0 |}
           {| resp_ok := false; resp_json := None |}).
  reflexivity.
Defined.

(** C4, counterexample: in Map.jsx a route fetch that resolves after the
    unmount adds its layer to the map that was removed; in utils/geocode.js
    and part_000 the map is not removed at unmount. *)
Lemma layer_added_after_teardown :
  let o := coord 6.60 3.40 in
  let d := coord 6.5244 3.3792 in
  let res := Resolved {| resp_ok := true;
                         resp_json := Some (Builtins.route [(3.40, 6.60);
                                                            (3.3792, 6.5244)]%Q) |} in
  let s1 := MapJsx.run [MapJsx.Render o d; MapJsx.Unmount] in
  let s2 := MapJsx.step s1 (MapJsx.Settle 0 res) in
  surfaces (world s1)
    = [{| layers := []; view := Some (Centered o 13); removed := 1 |}]
  /\ surfaces (world s2)
     = [{| layers := [{| layer_id := 3; kind := GeoJSON Undefined (o, d) |}];
           view := Some (Centered o 13); removed := 1 |}]
  /\ map removed (surfaces (world (RefMap.run Builtins.geojson_accepts
                                     [RefMap.Render (Some o) (Some d); RefMap.Unmount])))
     = [0]
  /\ map removed (surfaces (world (LocatingMap.run Builtins.geojson_accepts
                                     Builtins.bounds_valid "ors-key"
                                     [LocatingMap.Locate true;
                                      LocatingMap.Render (Some d);
                                      LocatingMap.Located (Failure TIMEOUT);
                                      LocatingMap.Unmount])))
     = [0].
Proof. repeat split. Qed.

(** C9, as the code has it. An effect run takes no marker off: the markers
    of the earlier runs stay on the map, whatever the event. While no effect
    has thrown, an effect run adds a new marker for each input that is there,
    up to the first position Leaflet rejects (a NaN coordinate), where the
    effect is left; nothing is added for an input that is absent, and in
    part_000 nothing is added unless both are there. When Leaflet takes the
    inputs these are the markers of all the inputs that are there. Settling a
    route request leaves the markers as they are. *)
Theorem markers_accumulate
    (geojson_accepts bounds_valid : Value -> bool) (ors_key : string) :
  (forall events o d,
     let s := RefMap.run geojson_accepts events in
     uncaught s = [] ->
     all_markers (RefMap.step geojson_accepts s (RefMap.Render o d))
     = all_markers s ++ placed o d)
  /\ (forall o d,
        sound o = true -> sound d = true ->
        placed o d = marker_for "Your Location" o ++ marker_for "Hospital" d)
  /\ (forall events e,
        let s := RefMap.run geojson_accepts events in
        exists added, all_markers (RefMap.step geojson_accepts s e) = all_markers s ++ added)
  /\ (forall events id out,
        let s := RefMap.run geojson_accepts events in
        all_markers (RefMap.step geojson_accepts s (RefMap.Settle id out)) = all_markers s)
  /\ (forall events d,
        let s := LocatingMap.run geojson_accepts bounds_valid ors_key events in
        uncaught s = [] ->
        all_markers (LocatingMap.step geojson_accepts bounds_valid ors_key s
                       (LocatingMap.Render d))
        = all_markers s ++ both_markers (origin s) d)
  /\ (forall events geo,
        let s := LocatingMap.run geojson_accepts bounds_valid ors_key events in
        uncaught s = [] ->
        all_markers (LocatingMap.step geojson_accepts bounds_valid ors_key s
                       (LocatingMap.Located geo))
        = all_markers s ++ both_markers (Some (located_origin geo)) (destination s))
  /\ (forall events e,
        let s := LocatingMap.run geojson_accepts bounds_valid ors_key events in
        exists added,
          all_markers (LocatingMap.step geojson_accepts bounds_valid ors_key s e)
          = all_markers s ++ added)
  /\ (forall events id out,
        let s := LocatingMap.run geojson_accepts bounds_valid ors_key events in
        all_markers (LocatingMap.step geojson_accepts bounds_valid ors_key s
                       (LocatingMap.Settle id out))
        = all_markers s).
Proof.
  assert (Hnone : forall l : list LayerKind, exists added, l = l ++ added).
  { intros l. exists []. symmetry. apply app_nil_r. }
  split; [|split; [|split; [|split; [|split; [|split; [|split]]]]]].
  - intros events o d s Hu.
    apply (refmap_render geojson_accepts s o d (refmap_run_inv geojson_accepts events)).
    unfold crashed. rewrite Hu. reflexivity.
  - intros o d Ho Hd. unfold placed, marker_at, marker_for, sound in *.
    destruct o as [o|], d as [d|]; simpl;
      repeat match goal with
             | H : negb (has_NaN ?c) = true |- _ => apply negb_true_iff in H; rewrite H
             end; reflexivity.
  - intros events e s.
    pose proof (refmap_run_inv geojson_accepts events) as H. fold s in H.
    destruct e as [o d|id out|].
    + destruct (crashed s) eqn:Hc; [unfold RefMap.step; rewrite Hc; apply Hnone|].
      exists (placed o d). apply (refmap_render geojson_accepts s o d H Hc).
    + destruct (refmap_settle_frame geojson_accepts s id out H) as [E _].
      rewrite E. apply Hnone.
    + apply Hnone.
  - intros events id out s.
    apply (refmap_settle_frame geojson_accepts s id out
             (refmap_run_inv geojson_accepts events)).
  - intros events d s Hu.
    assert (Hc : crashed s = false) by (unfold crashed; rewrite Hu; reflexivity).
    rewrite locating_render by exact Hc.
    apply (locating_effect ors_key s (origin s) d
             (proj1 (locating_run_inv geojson_accepts bounds_valid ors_key events)) Hc).
  - intros events geo s Hu.
    assert (Hc : crashed s = false) by (unfold crashed; rewrite Hu; reflexivity).
    pose proof (proj1 (locating_run_inv geojson_accepts bounds_valid ors_key events)) as H.
    fold s in H.
    destruct (locating_update geojson_accepts bounds_valid ors_key s
                (LocatingMap.Located geo) H Hc eq_refl) as (_ & _ & _ & E & _ & Eo & Ed).
    rewrite E, Eo, Ed. reflexivity.
  - intros events e s.
    pose proof (proj1 (locating_run_inv geojson_accepts bounds_valid ors_key events)) as H.
    fold s in H.
    destruct (crashed s) eqn:Hc.
    + destruct e as [geo|d|id out| |cap]; unfold LocatingMap.step; rewrite ?Hc;
        try apply Hnone.
      fold (LocatingMap.step geojson_accepts bounds_valid ors_key s
              (LocatingMap.Settle id out)).
      rewrite (proj1 (locating_settle_frame geojson_accepts bounds_valid ors_key s id out H)).
      apply Hnone.
    + destruct e as [geo|d|id out| |cap].
      * destruct (locating_update geojson_accepts bounds_valid ors_key s
                    (LocatingMap.Located geo) H Hc eq_refl) as (_ & _ & _ & E & _).
        eexists. exact E.
      * destruct (locating_update geojson_accepts bounds_valid ors_key s
                    (LocatingMap.Render d) H Hc eq_refl) as (_ & _ & _ & E & _).
        eexists. exact E.
      * rewrite (proj1 (locating_settle_frame geojson_accepts bounds_valid ors_key
                          s id out H)).
        apply Hnone.
      * apply Hnone.
      * rewrite locating_locate, Hc. destruct cap; apply Hnone.
  - intros events id out s.
    apply (locating_settle_frame geojson_accepts bounds_valid ors_key s id out
             (proj1 (locating_run_inv geojson_accepts bounds_valid ors_key events))).
Qed.

Lemma markers_accumulate_witness :
  let o := coord 6.60 3.40 in
  let d := coord 6.5244 3.3792 in
  let s := RefMap.run Builtins.geojson_accepts [RefMap.Render (Some o) None] in
  all_markers (RefMap.step Builtins.geojson_accepts s (RefMap.Render (Some o) (Some d)))
  = all_markers s ++ placed (Some o) (Some d).
Proof.
  intros o d s.
  apply (proj1 (markers_accumulate Builtins.geojson_accepts Builtins.bounds_valid "ors-key")
           [RefMap.Render (Some o) None] (Some o) (Some d)).
  reflexivity.
Defined.

(** C9, counterexample: after two updates with different origins the map
    carries two origin markers and two destination markers. *)
Lemma markers_are_not_replaced :
  let o1 := coord 6.60 3.40 in
  let o2 := coord 6.61 3.41 in
  let d := coord 6.5244 3.3792 in
  all_markers (RefMap.run Builtins.geojson_accepts
                 [RefMap.Render (Some o1) (Some d); RefMap.Render (Some o2) (Some d)])
  = [Marker o1 "Your Location"; Marker d "Hospital";
     Marker o2 "Your Location"; Marker d "Hospital"]
  /\ all_markers (LocatingMap.run Builtins.geojson_accepts Builtins.bounds_valid "ors-key"
                    [LocatingMap.Locate true;
                     LocatingMap.Located (Success {| latitude := 6.60; longitude := 3.40;
                                                     accuracy := None |});
                     LocatingMap.Render (Some d);
                     LocatingMap.Render (Some (coord 6.45 3.39))])
     = [Marker o1 "You are here"; Marker d "Hospital";
        Marker o1 "You are here"; Marker (coord 6.45 3.39) "Hospital"].
Proof. split; reflexivity. Qed.

(** C7, as the code has it. Whatever way a route request ends, nothing
    leaves [getRoute] uncaught and the markers stay. When the fetch is
    rejected or its body is not JSON (and, in part_000, when the status is not
    2xx), the error is logged to the console and the maps are left exactly as
    they were: the overlay drawn before, if any, and the viewport stay; there
    is no fit to the markers. In utils/geocode.js a JSON body that Leaflet
    rejects is logged too, after the overlay drawn before has been taken off;
    the viewport never changes there. *)
Theorem route_failures_are_caught
    (geojson_accepts bounds_valid : Value -> bool) (ors_key : string) :
  (forall events id out,
     let s := RefMap.run geojson_accepts events in
     let s' := RefMap.step geojson_accepts s (RefMap.Settle id out) in
     uncaught s' = uncaught s /\ all_markers s' = all_markers s /\ views s' = views s)
  /\ (forall events id p out e,
        let s := RefMap.run geojson_accepts events in
        let s' := RefMap.step geojson_accepts s (RefMap.Settle id out) in
        find_pending id s = Some p -> json_of out = Throw e ->
        surfaces (world s') = surfaces (world s)
        /\ console s' = console s ++ [RouteError e])
  /\ (forall events id p out res data,
        let s := RefMap.run geojson_accepts events in
        let s' := RefMap.step geojson_accepts s (RefMap.Settle id out) in
        find_pending id s = Some p -> json_of out = Normal (res, data) ->
        geojson_accepts data = false ->
        all_overlays s' = [] /\ console s' = console s ++ [RouteError LeafletError])
  /\ (forall events id out,
        let s := LocatingMap.run geojson_accepts bounds_valid ors_key events in
        let s' := LocatingMap.step geojson_accepts bounds_valid ors_key s
                    (LocatingMap.Settle id out) in
        uncaught s' = uncaught s /\ all_markers s' = all_markers s
        /\ Forall never_fitted_to_points (surfaces (world s')))
  /\ (forall events id p out e,
        let s := LocatingMap.run geojson_accepts bounds_valid ors_key events in
        let s' := LocatingMap.step geojson_accepts bounds_valid ors_key s
                    (LocatingMap.Settle id out) in
        find_pending id s = Some p -> json_of out = Throw e ->
        surfaces (world s') = surfaces (world s)
        /\ console s' = console s ++ [RouteError e])
  /\ (forall events id p out res data,
        let s := LocatingMap.run geojson_accepts bounds_valid ors_key events in
        let s' := LocatingMap.step geojson_accepts bounds_valid ors_key s
                    (LocatingMap.Settle id out) in
        find_pending id s = Some p -> json_of out = Normal (res, data) ->
        resp_ok res = false ->
        surfaces (world s') = surfaces (world s)
        /\ console s' = console s ++ [OrsError data]).
Proof.
  split; [|split; [|split; [|split; [|split]]]].
  - intros events id out s s'.
    pose proof (refmap_run_inv geojson_accepts events) as H. fold s in H.
    destruct (refmap_settle_frame geojson_accepts s id out H) as (E1 & E2 & E3 & _).
    repeat split; assumption.
  - intros events id p out e s s' Hf Hj.
    destruct (refmap_settle geojson_accepts s id out p
                (refmap_run_inv geojson_accepts events) Hf)
      as (_ & _ & _ & _ & _ & _ & _ & _ & H).
    rewrite Hj in H. exact H.
  - intros events id p out res data s s' Hf Hj Ha.
    destruct (refmap_settle geojson_accepts s id out p
                (refmap_run_inv geojson_accepts events) Hf)
      as (_ & _ & _ & _ & _ & _ & _ & _ & H).
    rewrite Hj, Ha in H. exact H.
  - intros events id out s s'.
    pose proof (locating_run_inv geojson_accepts bounds_valid ors_key events) as H.
    fold s in H.
    pose proof (locating_step_inv geojson_accepts bounds_valid ors_key s
                  (LocatingMap.Settle id out) H) as [H' _].
    fold s' in H'.
    destruct (locating_settle_frame geojson_accepts bounds_valid ors_key s id out
                (proj1 H)) as [E1 E2].
    split; [exact E2|]. split; [exact E1|].
    apply List.Forall_forall. intros sf Hin. apply (ref_inv_surfaces s' H' sf Hin).
  - intros events id p out e s s' Hf Hj.
    destruct (locating_settle geojson_accepts bounds_valid ors_key s id out p
                (proj1 (locating_run_inv geojson_accepts bounds_valid ors_key events)) Hf)
      as (_ & _ & _ & _ & _ & _ & _ & H).
    rewrite Hj in H. exact H.
  - intros events id p out res data s s' Hf Hj Hok.
    destruct (locating_settle geojson_accepts bounds_valid ors_key s id out p
                (proj1 (locating_run_inv geojson_accepts bounds_valid ors_key events)) Hf)
      as (_ & _ & _ & _ & _ & _ & _ & H).
    rewrite Hj, Hok in H. exact H.
Qed.

Lemma route_failures_are_caught_witness :
  let o := coord 6.60 3.40 in
  let d := coord 6.5244 3.3792 in
  let s := RefMap.run Builtins.geojson_accepts [RefMap.Render (Some o) (Some d)] in
  let s' := RefMap.step Builtins.geojson_accepts s (RefMap.Settle 0 Rejected) in
  surfaces (world s') = surfaces (world s)
  /\ console s' = console s ++ [RouteError NetworkError].
Proof.
  intros o d s s'.
  apply (proj1 (proj2 (route_failures_are_caught Builtins.geojson_accepts
                         Builtins.bounds_valid "ors-key"))
           [RefMap.Render (Some o) (Some d)] 0
           {| fetch_id := 0; request := directions_request "YOUR_API_KEY_HERE" o d;
              query := (o, d); scope_map := None |} Rejected NetworkError);
    reflexivity.
Defined.

(** C7, counterexample: the directions fetch is rejected; the error is
    logged, the two markers stay, and the viewport stays where it was after
    the markers were placed, on the origin: it is not fitted to the two
    markers. A later failure leaves the overlay of an earlier route on the
    map. *)
Lemma no_fit_to_markers_on_failure :
  let o := coord 6.60 3.40 in
  let o2 := coord 6.61 3.41 in
  let d := coord 6.5244 3.3792 in
  let pos := {| latitude := 6.60; longitude := 3.40; accuracy := Some 200%Q |} in
  let body := Builtins.route [(3.40, 6.60); (3.3792, 6.5244)]%Q in
  let s := LocatingMap.run Builtins.geojson_accepts Builtins.bounds_valid "ors-key"
             [LocatingMap.Locate true; LocatingMap.Render (Some d);
              LocatingMap.Located (Success pos); LocatingMap.Settle 0 Rejected] in
  let s' := RefMap.run Builtins.geojson_accepts
              [RefMap.Render (Some o) (Some d);
               RefMap.Settle 0 (Resolved {| resp_ok := true; resp_json := Some body |});
               RefMap.Render (Some o2) (Some d);
               RefMap.Settle 1 Rejected] in
  console s = [RouteError NetworkError]
  /\ all_markers s = [Marker o "You are here"; Marker d "Hospital"]
  /\ all_overlays s = []
  /\ views s = [Some (AutoPanned o (Centered o 13))]
  /\ views s <> [Some (Fitted (Points [o; d]))]
  /\ console s' = [RouteError NetworkError]
  /\ origin s' = Some o2
  /\ all_overlays s' = [GeoJSON body (o, d)]
  /\ views s' = [Some (Centered o2 13)].
Proof. repeat split. discriminate. Qed.

(** * More on the geocoders and on origin resolution *)

Section GeocoderFacts.

Import Geocode.

Variable parseFloat : Value -> JsNumber.
Variable encodeURIComponent : string -> string.
Variable network : Request -> Settled.

Lemma geocodePlace_requests place t :
  requests (snd (geocodePlace parseFloat encodeURIComponent network place t))
  = requests t ++ (if String.eqb place EmptyString then []
                   else [place_request encodeURIComponent place]).
Proof.
  unfold geocodePlace. destruct (String.eqb place EmptyString).
  - simpl. rewrite app_nil_r. reflexivity.
  - unfold try_catch, bind. rewrite fetch_run.
    destruct (json_of (network _)) as [[res data]|e]; simpl; [|reflexivity].
    destruct (truthy (get_first_opt data)); simpl; [|reflexivity].
    unfold lift. destruct (get_field "lat" _); simpl; [|reflexivity].
    destruct (get_field "lon" _); simpl; reflexivity.
Qed.

Lemma geocodePlace_console place t :
  console (snd (geocodePlace parseFloat encodeURIComponent network place t)) = console t.
Proof.
  unfold geocodePlace. destruct (String.eqb place EmptyString); [reflexivity|].
  unfold try_catch, bind. rewrite fetch_run.
  destruct (json_of (network _)) as [[res data]|e]; simpl; [|reflexivity].
  destruct (truthy (get_first_opt data)); simpl; [|reflexivity].
  unfold lift. destruct (get_field "lat" _); simpl; [|reflexivity].
  destruct (get_field "lon" _); simpl; reflexivity.
Qed.

(** What a geocoder returns does not depend on what was traced before. *)
Lemma geocodePlace_result place t :
  fst (geocodePlace parseFloat encodeURIComponent network place t)
  = Normal (lookup_place parseFloat encodeURIComponent network place).
Proof.
  unfold lookup_place, geocodePlace. destruct (String.eqb place EmptyString); [reflexivity|].
  unfold try_catch, bind. rewrite !fetch_run.
  destruct (json_of (network _)) as [[res data]|e]; simpl; [|reflexivity].
  destruct (truthy (get_first_opt data)); simpl; [|reflexivity].
  unfold lift. destruct (get_field "lat" _); simpl; [|reflexivity].
  destruct (get_field "lon" _); simpl; reflexivity.
Qed.

Lemma geocodeWithNominatim_result address t :
  fst (geocodeWithNominatim parseFloat encodeURIComponent network address t)
  = Normal (lookup_address parseFloat encodeURIComponent network address).
Proof.
  unfold lookup_address, geocodeWithNominatim, try_catch, bind. rewrite !fetch_run.
  destruct (json_of (network _)) as [[res data]|e]; simpl; [|reflexivity].
  unfold lift. destruct (get_length data) as [len|e]; simpl; [|reflexivity].
  destruct (truthy len); simpl; [|reflexivity].
  destruct (get_first data) as [first|e]; simpl; [|reflexivity].
  destruct (get_field "lat" first); simpl; [|reflexivity].
  destruct (get_field "lon" first); simpl; reflexivity.
Qed.

Lemma geocodePlace_run place t :
  geocodePlace parseFloat encodeURIComponent network place t
  = (Normal (lookup_place parseFloat encodeURIComponent network place),
     {| requests := requests t ++ (if String.eqb place EmptyString then []
                                   else [place_request encodeURIComponent place]);
        console := console t |}).
Proof.
  pose proof (geocodePlace_result place t) as H1.
  pose proof (geocodePlace_requests place t) as H2.
  pose proof (geocodePlace_console place t) as H3.
  destruct (geocodePlace _ _ _ place t) as [r [rq co]]. simpl in *.
  rewrite H1, H2, H3. reflexivity.
Qed.

End GeocoderFacts.

(** X1. In the commented [MapComponent], whenever the geocoder is asked
    (the callback is not cancelled, the hint is not empty, and the device
    failed or reported an accuracy worse than 5000 m or none) and the hint
    geocodes, the origin that is set is the geocoded coordinate, not the
    device coordinate and not the fallback. *)
Theorem hint_wins_when_consulted
    (parseFloat : Value -> JsNumber) (encodeURIComponent : string -> string)
    (network : Request -> Settled) (destination : option Coord) (originHint : string)
    (originFallback : Coord) (cancelled : bool) (geo : Outcome) (g : Coord)
    (t : Geocode.Trace) :
  asks_geocoder destination originHint cancelled geo = true ->
  lookup_place parseFloat encodeURIComponent network originHint = Some g ->
  fst (HintedMap.resolve parseFloat encodeURIComponent network destination originHint
         originFallback cancelled geo t) = Normal (Some g).
Proof.
  unfold asks_geocoder, HintedMap.resolve, HintedMap.locate.
  destruct destination as [d|]; [|discriminate].
  destruct cancelled; [discriminate|]. simpl.
  destruct (String.eqb originHint EmptyString) eqn:E; [discriminate|]. simpl.
  intros Hg Hl. destruct geo as [pos|err].
  - unfold HintedMap.on_position. fold (poor pos). rewrite Hg. simpl.
    unfold bind. rewrite geocodePlace_run, Hl. reflexivity.
  - unfold HintedMap.on_error, bind. rewrite geocodePlace_run, Hl. reflexivity.
Qed.

Lemma hint_wins_when_consulted_witness :
  let network := fun _ : Request =>
    Resolved {| resp_ok := true;
                resp_json := Some (Array [Object [("lat", Number (Finite 6.6194));
                                                  ("lon", Number (Finite 3.5105))]]) |} in
  fst (HintedMap.resolve Builtins.parseFloat Builtins.encodeURIComponent network
         (Some (coord 6.5244 3.3792)) "Ikorodu" HintedMap.default_originFallback false
         (Success {| latitude := 9.05; longitude := 7.49; accuracy := Some 25000%Q |})
         Geocode.no_trace)
  = Normal (Some (coord 6.6194 3.5105)).
Proof.
  intros network.
  apply (hint_wins_when_consulted Builtins.parseFloat Builtins.encodeURIComponent network
           (Some (coord 6.5244 3.3792)) "Ikorodu" HintedMap.default_originFallback false
           (Success {| latitude := 9.05; longitude := 7.49; accuracy := Some 25000%Q |})
           (coord 6.6194 3.5105) Geocode.no_trace);
    reflexivity.
Defined.

(** X2. In the commented [MapComponent], a device position is used as the
    origin even when its accuracy is worse than 5000 m (or not reported), if
    there is no hint or the hint does not geocode: the fallback coordinate is
    only for a device that gave no position. *)
Theorem inaccurate_position_is_kept_without_hint
    (parseFloat : Value -> JsNumber) (encodeURIComponent : string -> string)
    (network : Request -> Settled) (destination : Coord) (originHint : string)
    (originFallback : Coord) (pos : Position) (t : Geocode.Trace) :
  poor pos = true ->
  lookup_place parseFloat encodeURIComponent network originHint = None ->
  fst (HintedMap.resolve parseFloat encodeURIComponent network (Some destination)
         originHint originFallback false (Success pos) t)
  = Normal (Some (coord (latitude pos) (longitude pos))).
Proof.
  intros Hp Hl. unfold HintedMap.resolve, HintedMap.locate, HintedMap.on_position.
  fold (poor pos). rewrite Hp. simpl.
  destruct (String.eqb originHint EmptyString); simpl; [reflexivity|].
  unfold bind. rewrite geocodePlace_run, Hl. reflexivity.
Qed.

Lemma inaccurate_position_is_kept_without_hint_witness :
  fst (HintedMap.resolve Builtins.parseFloat Builtins.encodeURIComponent
         (fun _ => Resolved {| resp_ok := true; resp_json := Some (Array []) |})
         (Some (coord 6.5244 3.3792)) "Nowhere" HintedMap.default_originFallback false
         (Success {| latitude := 9.05; longitude := 7.49; accuracy := None |})
         Geocode.no_trace)
  = Normal (Some (coord 9.05 7.49)).
Proof.
  apply (inaccurate_position_is_kept_without_hint Builtins.parseFloat
           Builtins.encodeURIComponent
           (fun _ => Resolved {| resp_ok := true; resp_json := Some (Array []) |})
           (coord 6.5244 3.3792) "Nowhere" HintedMap.default_originFallback
           {| latitude := 9.05; longitude := 7.49; accuracy := None |} Geocode.no_trace);
    reflexivity.
Defined.

(** X3. A resolution of the commented [MapComponent] sends at most one
    request: the Nominatim search for the hint, exactly when the callback is
    not cancelled, the hint is not empty, and the device failed or was
    inaccurate; it writes nothing to the console, whatever the answer. *)
Theorem resolution_asks_at_most_once
    (parseFloat : Value -> JsNumber) (encodeURIComponent : string -> string)
    (network : Request -> Settled) (destination : option Coord) (originHint : string)
    (originFallback : Coord) (cancelled : bool) (geo : Outcome) (t : Geocode.Trace) :
  let t' := snd (HintedMap.resolve parseFloat encodeURIComponent network destination
                   originHint originFallback cancelled geo t) in
  Geocode.requests t'
  = Geocode.requests t
    ++ (if asks_geocoder destination originHint cancelled geo
        then [place_request encodeURIComponent originHint] else [])
  /\ Geocode.console t' = Geocode.console t.
Proof.
  unfold asks_geocoder, HintedMap.resolve, HintedMap.locate.
  destruct destination as [d|]; [|simpl; rewrite app_nil_r; split; reflexivity].
  destruct geo as [pos|err]; unfold HintedMap.on_position, HintedMap.on_error;
    (destruct cancelled; [simpl; rewrite app_nil_r; split; reflexivity|]); simpl.
  - fold (poor pos). destruct (poor pos); simpl.
    + destruct (String.eqb originHint EmptyString) eqn:E; simpl.
      * rewrite app_nil_r. split; reflexivity.
      * unfold bind. rewrite geocodePlace_run, E. split; reflexivity.
    + rewrite andb_false_r, app_nil_r. split; reflexivity.
  - unfold bind. rewrite geocodePlace_run.
    destruct (String.eqb originHint EmptyString); simpl; split; reflexivity.
Qed.

(** X4. A callback that finds [cancelled] set (the effect was cleaned up
    before the platform answered) does not call [setOrigin] and sends no
    request; without a destination nothing is set or sent either. *)
Theorem cancelled_resolution_does_nothing
    (parseFloat : Value -> JsNumber) (encodeURIComponent : string -> string)
    (network : Request -> Settled) (destination : option Coord) (originHint : string)
    (originFallback : Coord) (cancelled : bool) (geo : Outcome) (t : Geocode.Trace) :
  cancelled = true \/ destination = None ->
  HintedMap.resolve parseFloat encodeURIComponent network destination originHint
    originFallback cancelled geo t = (Normal None, t).
Proof.
  intros H. unfold HintedMap.resolve, HintedMap.locate.
  destruct destination as [d|]; [|reflexivity].
  destruct H as [-> | H]; [|discriminate].
  destruct geo; reflexivity.
Qed.

Lemma cancelled_resolution_does_nothing_witness :
  HintedMap.resolve Builtins.parseFloat Builtins.encodeURIComponent (fun _ => Rejected)
    (Some (coord 6.5244 3.3792)) "Ikorodu" HintedMap.default_originFallback true
    (Failure TIMEOUT) Geocode.no_trace
  = (Normal None, Geocode.no_trace).
Proof.
  apply (cancelled_resolution_does_nothing Builtins.parseFloat
           Builtins.encodeURIComponent (fun _ => Rejected) (Some (coord 6.5244 3.3792))
           "Ikorodu" HintedMap.default_originFallback true (Failure TIMEOUT)
           Geocode.no_trace).
  left. reflexivity.
Defined.

Lemma truthy_length n : truthy (number_of_nat (S n)) = true.
Proof. reflexivity. Qed.

(** X5. [geocodeWithNominatim] and [geocodePlace] return the same thing for
    a place that is not empty when the server answers both alike with no
    body, or with an array that is empty or whose first element is [null] or
    truthy (as the places of Nominatim are). *)
Theorem geocoders_agree_on_plain_answers
    (parseFloat : Value -> JsNumber) (encodeURIComponent : string -> string)
    (network : Request -> Settled) (place : string) (out : Settled)
    (t t' : Geocode.Trace) :
  String.eqb place EmptyString = false ->
  network (nominatim_request encodeURIComponent place) = out ->
  network (place_request encodeURIComponent place) = out ->
  plain_answer out = true ->
  fst (Geocode.geocodeWithNominatim parseFloat encodeURIComponent network place t)
  = fst (Geocode.geocodePlace parseFloat encodeURIComponent network place t').
Proof.
  intros Hne Hw Hp Hplain.
  unfold Geocode.geocodeWithNominatim, Geocode.geocodePlace. rewrite Hne.
  unfold try_catch, bind. rewrite !fetch_run.
  change (network {| req_method := GET; req_url := _; req_headers := []; req_coordinates := [] |})
    with (network (nominatim_request encodeURIComponent place)).
  change (network {| req_method := GET; req_url := _;
                     req_headers := [("Accept", "application/json")];
                     req_coordinates := [] |})
    with (network (place_request encodeURIComponent place)).
  rewrite Hw, Hp. unfold plain_answer in Hplain.
  destruct out as [|res]; simpl; [reflexivity|].
  destruct (resp_json res) as [data|]; simpl; [|reflexivity].
  destruct data as [| |b|n|str|items|fields]; try discriminate.
  destruct items as [|first rest]; [reflexivity|].
  cbn [snd get_length lift length]. rewrite truthy_length.
  cbn [negb get_first get_first_opt head default].
  destruct first; try discriminate; simpl in Hplain; simpl; rewrite ?Hplain; reflexivity.
Qed.

Lemma geocoders_agree_on_plain_answers_witness :
  let network := fun _ : Request =>
    Resolved {| resp_ok := true;
                resp_json := Some (Array [Object [("lat", Str "6.4550");
                                                  ("lon", Str "3.3941")]]) |} in
  fst (Geocode.geocodeWithNominatim Builtins.parseFloat Builtins.encodeURIComponent
         network "Lagos Island" Geocode.no_trace)
  = fst (Geocode.geocodePlace Builtins.parseFloat Builtins.encodeURIComponent
           network "Lagos Island" Geocode.no_trace).
Proof.
  intros network.
  apply (geocoders_agree_on_plain_answers Builtins.parseFloat Builtins.encodeURIComponent
           network "Lagos Island" (network (nominatim_request Builtins.encodeURIComponent
                                              "Lagos Island")));
    reflexivity.
Defined.

(** X6. [geocodeWithNominatim] writes to the console exactly when it
    caught an exception: one entry for a rejected fetch and one for a body
    that is not JSON, none for an empty array and none whenever it returns a
    coordinate; in every case at most one entry, and with an entry the result
    is [null]. *)
Theorem geocodeWithNominatim_logs_what_it_catches
    (parseFloat : Value -> JsNumber) (encodeURIComponent : string -> string)
    (network : Request -> Settled) (address : string) (t : Geocode.Trace) :
  let run := Geocode.geocodeWithNominatim parseFloat encodeURIComponent network address t in
  (Geocode.console (snd run) = Geocode.console t
   \/ fst run = Normal None
      /\ exists e, Geocode.console (snd run) = Geocode.console t ++ [e])
  /\ (forall c, fst run = Normal (Some c) -> Geocode.console (snd run) = Geocode.console t)
  /\ match network (nominatim_request encodeURIComponent address) with
     | Rejected => Geocode.console (snd run) = Geocode.console t ++ [NetworkError]
     | Resolved res =>
         match resp_json res with
         | None => Geocode.console (snd run) = Geocode.console t ++ [SyntaxError]
         | Some (Array []) => Geocode.console (snd run) = Geocode.console t
         | Some _ => True
         end
     end.
Proof.
  intros run. subst run.
  unfold Geocode.geocodeWithNominatim, try_catch, bind. rewrite fetch_run.
  change (network {| req_method := GET; req_url := _; req_headers := []; req_coordinates := [] |})
    with (network (nominatim_request encodeURIComponent address)).
  destruct (network (nominatim_request encodeURIComponent address)) as [|res]; simpl.
  { repeat split; [right; split; [reflexivity|eauto] | discriminate]. }
  destruct (resp_json res) as [data|]; simpl.
  2: { repeat split; [right; split; [reflexivity|eauto] | discriminate]. }
  unfold lift. destruct (get_length data) as [len|e] eqn:Hlen; simpl.
  2: { split; [right; split; [reflexivity|eauto]|]. split; [discriminate|].
       destruct data; try exact I. discriminate. }
  destruct (truthy len) eqn:Hlt; simpl.
  2: { split; [left; reflexivity|]. split; [reflexivity|].
       destruct data as [| | | | |items|]; try exact I. destruct items; [reflexivity|exact I]. }
  assert (Hne : match data with Array [] => False | _ => True end).
  { destruct data as [| | | | |items|]; try exact I. destruct items; [|exact I].
    simpl in Hlen. injection Hlen as <-. discriminate. }
  destruct (get_first data) as [first|e]; simpl.
  2: { split; [right; split; [reflexivity|eauto]|]. split; [discriminate|].
       destruct data as [| | | | |items|]; try exact I. destruct items; [contradiction|exact I]. }
  destruct (get_field "lat" first); simpl.
  2: { split; [right; split; [reflexivity|eauto]|]. split; [discriminate|].
       destruct data as [| | | | |items|]; try exact I. destruct items; [contradiction|exact I]. }
  destruct (get_field "lon" first); simpl.
  2: { split; [right; split; [reflexivity|eauto]|]. split; [discriminate|].
       destruct data as [| | | | |items|]; try exact I. destruct items; [contradiction|exact I]. }
  split; [left; reflexivity|]. split; [reflexivity|].
  destruct data as [| | | | |items|]; try exact I. destruct items; [contradiction|exact I].
Qed.

Section FetchCoordsFacts.

Import Geocode Recommendations.

Variable parseFloat : Value -> JsNumber.
Variable encodeURIComponent : string -> string.
Variable network : Request -> Settled.
Variable toString : Value -> string.

Lemma geocodeWithNominatim_run address t :
  exists t',
    geocodeWithNominatim parseFloat encodeURIComponent network address t
    = (Normal (lookup_address parseFloat encodeURIComponent network address), t')
    /\ requests t' = requests t ++ [nominatim_request encodeURIComponent address].
Proof.
  pose proof (geocodeWithNominatim_result parseFloat encodeURIComponent network address t)
    as H1.
  pose proof (geocodeWithNominatim_requests parseFloat encodeURIComponent network
                address t) as H2.
  destruct (geocodeWithNominatim _ _ _ address t) as [r t']. simpl in *.
  exists t'. rewrite H1. split; [reflexivity | exact H2].
Qed.

Lemma readable_full_address h :
  readable h = true -> get_field "full_address" h = Normal (property "full_address" h).
Proof. destruct h; try discriminate; reflexivity. Qed.

Lemma unreadable_full_address h :
  readable h = false -> get_field "full_address" h = Throw TypeError.
Proof. destruct h; try discriminate; reflexivity. Qed.

(** The row [fetchCoords] makes of a hospital. *)
Lemma fetchCoords_readable recommendation t :
  forallb readable recommendation = true ->
  exists t',
    fetchCoords parseFloat encodeURIComponent network toString recommendation t
    = (Normal (map (fun h =>
                      {| hospital := h;
                         coords := lookup_address parseFloat encodeURIComponent network
                                     (address_text toString (property "full_address" h)) |})
                 recommendation), t')
    /\ requests t'
       = requests t
         ++ map (fun h => nominatim_request encodeURIComponent
                            (address_text toString (property "full_address" h)))
              recommendation.
Proof.
  revert t. induction recommendation as [|h rest IH]; intros t Hr.
  - exists t. simpl. rewrite app_nil_r. split; reflexivity.
  - simpl in Hr. apply andb_prop in Hr as [Hh Hrest].
    simpl. unfold bind, lift. rewrite (readable_full_address h Hh).
    destruct (geocodeWithNominatim_run
                (address_text toString (property "full_address" h)) t)
      as (t1 & -> & H1).
    destruct (IH t1 Hrest) as (t2 & -> & H2).
    exists t2. split.
    + unfold ret. f_equal. f_equal. f_equal. f_equal.
      destruct (lookup_address _ _ _ _); reflexivity.
    + rewrite H2, H1, <- app_assoc. reflexivity.
Qed.

Lemma fetchCoords_unreadable before h after t :
  forallb readable before = true -> readable h = false ->
  exists t',
    fetchCoords parseFloat encodeURIComponent network toString (before ++ h :: after) t
    = (Throw TypeError, t')
    /\ requests t'
       = requests t
         ++ map (fun h => nominatim_request encodeURIComponent
                            (address_text toString (property "full_address" h)))
              before.
Proof.
  revert t. induction before as [|b before IH]; intros t Hb Hh.
  - exists t. simpl. unfold bind, lift. rewrite (unreadable_full_address h Hh).
    rewrite app_nil_r. split; reflexivity.
  - simpl in Hb. apply andb_prop in Hb as [Hb1 Hb2].
    simpl. unfold bind, lift. rewrite (readable_full_address b Hb1).
    destruct (geocodeWithNominatim_run
                (address_text toString (property "full_address" b)) t)
      as (t1 & -> & H1).
    destruct (IH t1 Hb2 Hh) as (t2 & -> & H2).
    exists t2. split; [reflexivity|].
    rewrite H2, H1, <- app_assoc. reflexivity.
Qed.

End FetchCoordsFacts.

(** X7. [fetchCoords] of the commented [Recommendations] geocodes the
    hospitals in the order of the list, one request each, and keeps every one
    of them: a hospital whose address does not geocode stays in the result
    with no coordinates (and gets no "View on Map" button) and does not stop
    the loop. It throws at an element that is [null] or [undefined], whose
    [full_address] cannot be read: a TypeError, after the requests for the
    elements before it, with no result. *)
Theorem fetchCoords_keeps_every_hospital
    (parseFloat : Value -> JsNumber) (encodeURIComponent : string -> string)
    (network : Request -> Settled) (toString : Value -> string)
    (recommendation : list Value) (t : Geocode.Trace) :
  let address h := Recommendations.address_text toString (property "full_address" h) in
  (forallb readable recommendation = true ->
   exists t',
     Recommendations.fetchCoords parseFloat encodeURIComponent network toString
       recommendation t
     = (Normal (map (fun h =>
                       {| Recommendations.hospital := h;
                          Recommendations.coords :=
                            lookup_address parseFloat encodeURIComponent network
                              (address h) |})
                  recommendation), t')
     /\ Geocode.requests t'
        = Geocode.requests t
          ++ map (fun h => nominatim_request encodeURIComponent (address h))
               recommendation)
  /\ (forall before h after,
        recommendation = before ++ h :: after ->
        forallb readable before = true -> readable h = false ->
        exists t',
          Recommendations.fetchCoords parseFloat encodeURIComponent network toString
            recommendation t
          = (Throw TypeError, t')
          /\ Geocode.requests t'
             = Geocode.requests t
               ++ map (fun h => nominatim_request encodeURIComponent (address h)) before).
Proof.
  intros address. split.
  - apply fetchCoords_readable.
  - intros before h after -> Hb Hh. apply fetchCoords_unreadable; assumption.
Qed.

Lemma fetchCoords_keeps_every_hospital_witness :
  let h := Recommendations.hospital_of "General Hospital" "Ikeja, Lagos" in
  let toString := fun _ : Value => "undefined" in
  exists t',
    Recommendations.fetchCoords Builtins.parseFloat Builtins.encodeURIComponent
      (fun _ => Rejected) toString [h; Null; h] Geocode.no_trace
    = (Throw TypeError, t')
    /\ Geocode.requests t'
       = Geocode.requests Geocode.no_trace
         ++ map (fun h => nominatim_request Builtins.encodeURIComponent
                            (Recommendations.address_text toString
                               (property "full_address" h))) [h].
Proof.
  intros h toString.
  exact (proj2 (fetchCoords_keeps_every_hospital Builtins.parseFloat
                  Builtins.encodeURIComponent (fun _ => Rejected) toString
                  [h; Null; h] Geocode.no_trace)
           [h] Null [h] eq_refl eq_refl eq_refl).
Defined.

(** * The recommendation request of [App] *)

(** Reading a property throws on [null] and [undefined] only, whatever its
    name. *)
Lemma get_field_throws name name' v e :
  get_field name v = Throw e -> get_field name' v = Throw e.
Proof. destruct v; simpl; congruence. Qed.

Lemma get_field_property name v x : get_field name v = Normal x -> property name v = x.
Proof. unfold property. intros ->. reflexivity. Qed.

Section AppFacts.

Variable native_message : JsError -> string.
Variable toString : Value -> string.

Lemma try_block_cases out s :
  (exists thrown, App.try_block toString out s = (Some thrown, s))
  \/ (exists res data,
        out = Resolved res /\ resp_ok res = true /\ resp_json res = Some data
        /\ get_field "recommendations" data = Normal (property "recommendations" data)
        /\ App.try_block toString out s
           = (None,
              App.setIsLoading false
                (App.navigate "/recommend"
                   (App.setMapUrl (App.or_else (property "map_url" data) (Str EmptyString))
                      (App.setRecommendation
                         (App.or_else (property "recommendations" data) (Array [])) s))))).
Proof.
  unfold App.try_block. destruct out as [|res]; [left; eauto|].
  destruct (resp_ok res) eqn:Hok; simpl.
  - destruct (resp_json res) as [data|] eqn:Hj; [|left; eauto].
    destruct (get_field "recommendations" data) as [r|e] eqn:Hr; [|left; eauto].
    destruct (get_field "map_url" data) as [m|e] eqn:Hm.
    + right. exists res, data.
      rewrite (get_field_property _ _ _ Hr), (get_field_property _ _ _ Hm).
      repeat split; first [reflexivity | assumption].
    + apply (get_field_throws _ "recommendations") in Hm. congruence.
  - destruct (get_field "message" _); left; eauto.
Qed.

End AppFacts.

(** X8. Whatever the server answers, [handleGetRecommendation] ends with
    [isLoading] false and leaves the form as it was; between the click and the
    answer [isLoading] is true and the error of an earlier attempt is
    cleared. *)
Theorem request_always_ends_loading
    (native_message : JsError -> string) (toString : Value -> string)
    (out : Settled) (s : App.State) :
  let waiting := snd (App.submit s) in
  let s' := App.handleGetRecommendation native_message toString out s in
  App.isLoading waiting = true /\ App.error waiting = EmptyString
  /\ App.sub_body (fst (App.submit s)) = App.formData s
  /\ App.isLoading s' = false /\ App.formData s' = App.formData s.
Proof.
  intros waiting s'. split; [reflexivity|]. split; [reflexivity|]. split; [reflexivity|].
  subst s' waiting. unfold App.handleGetRecommendation, App.settle.
  destruct (try_block_cases toString out (snd (App.submit s)))
    as [(thrown & ->) | (res & data & _ & _ & _ & _ & ->)]; split; reflexivity.
Qed.

(** X9. A call of [handleGetRecommendation] ends in one of two ways. Either
    it navigates to /recommend, with no error left and the results replaced;
    or it does not navigate, the error is a text that is not empty, and the
    recommendations and the map URL are the ones from before. *)
Theorem request_succeeds_or_reports
    (native_message : JsError -> string) (toString : Value -> string)
    (out : Settled) (s : App.State) :
  let s' := App.handleGetRecommendation native_message toString out s in
  (App.navigated s' = App.navigated s ++ ["/recommend"] /\ App.error s' = EmptyString)
  \/ (App.navigated s' = App.navigated s
      /\ String.eqb (App.error s') EmptyString = false
      /\ App.recommendation s' = App.recommendation s
      /\ App.mapUrl s' = App.mapUrl s).
Proof.
  intros s'. subst s'. unfold App.handleGetRecommendation, App.settle.
  destruct (try_block_cases toString out (snd (App.submit s)))
    as [(thrown & ->) | (res & data & _ & _ & _ & _ & ->)].
  - right. simpl.
    destruct (String.eqb (App.message_of native_message thrown) EmptyString) eqn:E;
      repeat split; try reflexivity; exact E.
  - left. split; reflexivity.
Qed.

(** X10. When the answer has a 2xx status and a JSON body that is not
    [null], the recommendations become [data.recommendations], or the empty
    list when that is missing or falsy, and the map URL becomes
    [data.map_url], or the empty text; the results of an earlier request are
    replaced, not merged. *)
Theorem request_success_replaces_results
    (native_message : JsError -> string) (toString : Value -> string)
    (res : Response) (data : Value) (s : App.State) :
  resp_ok res = true ->
  resp_json res = Some data ->
  data <> Null -> data <> Undefined ->
  let s' := App.handleGetRecommendation native_message toString (Resolved res) s in
  App.recommendation s' = App.or_else (property "recommendations" data) (Array [])
  /\ App.mapUrl s' = App.or_else (property "map_url" data) (Str EmptyString)
  /\ App.navigated s' = App.navigated s ++ ["/recommend"]
  /\ App.error s' = EmptyString.
Proof.
  intros Hok Hj Hn Hu s'. subst s'.
  unfold App.handleGetRecommendation, App.settle, App.try_block. simpl.
  rewrite Hok, Hj. simpl. unfold property.
  destruct data; try contradiction; simpl; repeat split; reflexivity.
Qed.

Lemma request_success_replaces_results_witness :
  let data := Object [("recommendations", Array [Object [("name", Str "Lagoon Hospital")]])] in
  let s' := App.handleGetRecommendation (fun _ => "Failed to fetch") (fun _ => "[object Object]")
              (Resolved {| resp_ok := true; resp_json := Some data |}) App.initial in
  App.recommendation s' = Array [Object [("name", Str "Lagoon Hospital")]]
  /\ App.mapUrl s' = Str EmptyString
  /\ App.navigated s' = ["/recommend"]
  /\ App.error s' = EmptyString.
Proof.
  intros data s'.
  apply (request_success_replaces_results (fun _ => "Failed to fetch")
           (fun _ => "[object Object]") {| resp_ok := true; resp_json := Some data |} data
           App.initial); first [reflexivity | discriminate].
Defined.

(** X11. When the status is not 2xx, the error shown is the [message] of
    the JSON body when that is a text that is not empty; it is "Internal
    Server Error" when the body is not JSON, or is an object without a
    [message], or has an empty one. *)
Theorem server_message_is_shown
    (native_message : JsError -> string) (toString : Value -> string)
    (res : Response) (s : App.State) :
  resp_ok res = false ->
  let s' := App.handleGetRecommendation native_message toString (Resolved res) s in
  (forall fields m,
     resp_json res = Some (Object fields) -> assoc "message" fields = Str m ->
     String.eqb m EmptyString = false ->
     App.error s' = m)
  /\ (resp_json res = None -> App.error s' = "Internal Server Error")
  /\ (forall fields,
        resp_json res = Some (Object fields) ->
        assoc "message" fields = Undefined \/ assoc "message" fields = Str EmptyString ->
        App.error s' = "Internal Server Error").
Proof.
  intros Hok s'. subst s'.
  unfold App.handleGetRecommendation, App.settle, App.try_block. simpl. rewrite Hok. simpl.
  split; [|split].
  - intros fields m Hj Hm Hne. rewrite Hj. simpl. rewrite Hm. simpl. rewrite Hne. reflexivity.
  - intros Hj. rewrite Hj. reflexivity.
  - intros fields Hj [Hm | Hm]; rewrite Hj; simpl; rewrite Hm; reflexivity.
Qed.

Lemma server_message_is_shown_witness :
  App.error (App.handleGetRecommendation (fun _ => "Failed to fetch")
               (fun _ => "[object Object]")
               (Resolved {| resp_ok := false;
                            resp_json := Some (Object [("message",
                                                        Str "location is required")]) |})
               App.initial)
  = "location is required".
Proof.
  apply (proj1 (server_message_is_shown (fun _ => "Failed to fetch")
                  (fun _ => "[object Object]")
                  {| resp_ok := false;
                     resp_json := Some (Object [("message", Str "location is required")]) |}
                  App.initial eq_refl)
           [("message", Str "location is required")] "location is required");
    reflexivity.
Defined.

(** X12. An input of [MainPage] changes its own field of the form and no
    other, and nothing else of the state; the request that is sent next
    carries the form with that change. *)
Theorem onChange_sets_one_field (f g : App.Field) (value : string) (s : App.State) :
  let s' := App.onChange f value s in
  App.field f (App.formData s') = value
  /\ (g <> f -> App.field g (App.formData s') = App.field g (App.formData s))
  /\ App.recommendation s' = App.recommendation s
  /\ App.isLoading s' = App.isLoading s
  /\ App.error s' = App.error s
  /\ App.mapUrl s' = App.mapUrl s
  /\ App.navigated s' = App.navigated s
  /\ App.sub_body (fst (App.submit s')) = App.with_field f value (App.formData s).
Proof.
  intros s'. subst s'. split; [destruct f; reflexivity|].
  split; [|repeat split].
  intros Hne. destruct f, g; try reflexivity; contradiction.
Qed.

(** * The results page *)

Lemma prefix_http_base url :
  String.prefix "http" (String.append Results.API_BASE_URL url) = true.
Proof. reflexivity. Qed.

Lemma prefix_http_not_empty r : String.prefix "http" r = true -> String.eqb r EmptyString = false.
Proof. destruct r; [discriminate | reflexivity]. Qed.

(** X13. Every URL that [getMapUrl] returns starts with "http": a value
    that already does is returned as it is, any other text is put behind the
    address of the API; so [getMapUrl] returns its own results unchanged. *)
Theorem getMapUrl_is_absolute (mapUrl : Value) (r : string) :
  Results.getMapUrl mapUrl = Normal (Some r) ->
  String.prefix "http" r = true
  /\ Results.getMapUrl (Str r) = Normal (Some r)
  /\ exists url, mapUrl = Str url
       /\ r = (if String.prefix "http" url then url
               else String.append Results.API_BASE_URL url).
Proof.
  unfold Results.getMapUrl. destruct (truthy mapUrl) eqn:T; simpl; [|discriminate].
  destruct mapUrl as [| | | |url| |]; try discriminate.
  intros [= <-].
  assert (H : String.prefix "http"
                (if String.prefix "http" url then url
                 else String.append Results.API_BASE_URL url) = true).
  { destruct (String.prefix "http" url) eqn:P; [exact P | apply prefix_http_base]. }
  split; [exact H|]. split; [|eauto].
  simpl. rewrite (prefix_http_not_empty _ H). simpl. rewrite H. reflexivity.
Qed.

Lemma getMapUrl_is_absolute_witness :
  String.prefix "http"
    "https://hospital-recommender-system.onrender.com/recommend/static/route_map.png" = true
  /\ Results.getMapUrl
       (Str "https://hospital-recommender-system.onrender.com/recommend/static/route_map.png")
     = Normal (Some "https://hospital-recommender-system.onrender.com/recommend/static/route_map.png").
Proof.
  destruct (getMapUrl_is_absolute (Str "/static/route_map.png")
              "https://hospital-recommender-system.onrender.com/recommend/static/route_map.png"
              eq_refl) as (H1 & H2 & _).
  split; [exact H1 | exact H2].
Defined.

(** X14. [getMapUrl] returns [null] exactly for the falsy values (no
    URL, the empty text), a URL for every text that is not empty, and throws
    exactly for the truthy values that are not texts, which have no
    [startsWith]. *)
Theorem getMapUrl_null_for_falsy (mapUrl : Value) :
  (Results.getMapUrl mapUrl = Normal None <-> truthy mapUrl = false)
  /\ ((exists e, Results.getMapUrl mapUrl = Throw e)
      <-> truthy mapUrl = true /\ forall url, mapUrl <> Str url)
  /\ (forall url, mapUrl = Str url -> String.eqb url EmptyString = false ->
        exists r, Results.getMapUrl mapUrl = Normal (Some r)).
Proof.
  unfold Results.getMapUrl. split; [|split].
  - destruct (truthy mapUrl) eqn:T; simpl.
    + split; [|discriminate]. destruct mapUrl; discriminate.
    + split; reflexivity.
  - destruct (truthy mapUrl) eqn:T; simpl.
    + split.
      * intros [e He]. split; [reflexivity|]. intros url ->. discriminate.
      * intros [_ H]. destruct mapUrl as [| | | |url| |]; eauto.
        exfalso. apply (H url). reflexivity.
    + split; [intros [e He]; discriminate | intros [H _]; discriminate].
  - intros url -> Hne. simpl. rewrite Hne. simpl. eauto.
Qed.

(** X15. After a successful request the image of the results page has
    the absolute form of the [map_url] of the answer when that is a text that
    is not empty, and there is no image when the answer has no [map_url]. *)
Theorem route_image_after_success
    (native_message : JsError -> string) (toString : Value -> string)
    (res : Response) (fields : list (string * Value)) (s : App.State) :
  resp_ok res = true ->
  resp_json res = Some (Object fields) ->
  let s' := App.handleGetRecommendation native_message toString (Resolved res) s in
  (assoc "map_url" fields = Undefined ->
   Results.route_image (App.mapUrl s') = Normal None)
  /\ (forall url,
        assoc "map_url" fields = Str url -> String.eqb url EmptyString = false ->
        Results.route_image (App.mapUrl s')
        = Normal (Some (if String.prefix "http" url then url
                        else String.append Results.API_BASE_URL url))).
Proof.
  intros Hok Hj s'. subst s'.
  unfold App.handleGetRecommendation, App.settle, App.try_block. simpl.
  rewrite Hok, Hj. simpl. split.
  - intros ->. reflexivity.
  - intros url -> Hne. unfold App.or_else, Results.route_image, Results.getMapUrl.
    simpl. rewrite Hne. simpl. rewrite Hne. reflexivity.
Qed.

Lemma route_image_after_success_witness :
  Results.route_image
    (App.mapUrl (App.handleGetRecommendation (fun _ => "Failed to fetch")
                   (fun _ => "[object Object]")
                   (Resolved {| resp_ok := true;
                                resp_json := Some (Object [("map_url",
                                                            Str "/static/route_map.png")]) |})
                   App.initial))
  = Normal (Some "https://hospital-recommender-system.onrender.com/recommend/static/route_map.png").
Proof.
  apply (proj2 (route_image_after_success (fun _ => "Failed to fetch")
                  (fun _ => "[object Object]")
                  {| resp_ok := true;
                     resp_json := Some (Object [("map_url", Str "/static/route_map.png")]) |}
                  [("map_url", Str "/static/route_map.png")] App.initial eq_refl eq_refl)
           "/static/route_map.png");
    reflexivity.
Defined.

Section TableFacts.

Variable stringToNumber : string -> JsNumber.
Variable toString : Value -> string.

Lemma rows_from_spec idx items :
  Forall (fun v => v <> Null /\ v <> Undefined) items ->
  exists rs,
    Results.rows_from stringToNumber toString idx items = Normal rs
    /\ map Results.serial rs = seq (idx + 1) (length items)
    /\ map Results.key rs = map (property "name") items
    /\ map Results.level rs
       = map (fun v => Results.level_of stringToNumber toString
                         (property "recommendation_score" v)) items.
Proof.
  revert idx. induction items as [|v items IH]; intros idx H.
  - exists []. repeat split.
  - apply Forall_cons in H as [[Hn Hu] H].
    destruct (IH (S idx) H) as (rs & E & Hs & Hk & Hl).
    simpl. unfold Results.row.
    assert (Hname : get_field "name" v = Normal (property "name" v)).
    { destruct v; try contradiction; reflexivity. }
    rewrite Hname, E. eexists. split; [reflexivity|]. simpl.
    rewrite Hs, Hk, Hl. replace (S idx + 1) with (S (idx + 1)) by lia.
    repeat split.
Qed.

Lemma rows_from_throws idx items :
  Exists (fun v => v = Null \/ v = Undefined) items ->
  Results.rows_from stringToNumber toString idx items = Throw TypeError.
Proof.
  revert idx. induction items as [|v items IH]; intros idx H; [inversion H|].
  simpl. unfold Results.row.
  destruct (get_field "name" v) as [name|e] eqn:E.
  - apply Exists_cons in H as [[-> | ->] | H]; try discriminate.
    rewrite (IH (S idx) H). reflexivity.
  - destruct v; try discriminate; injection E as <-; reflexivity.
Qed.

End TableFacts.

(** X16. [recommendation.map] of the results page gives one table row for
    each recommendation, in their order, numbered from 1, each with the label
    of its own score ("Highly Recommended" when the score is a number above
    0.5, "Not recommended" when it is 0.5 or less or missing); the call throws
    when the recommendations are not an array or one of them is [null] or
    [undefined]. *)
Theorem table_rows_are_numbered
    (stringToNumber : string -> JsNumber) (toString : Value -> string) :
  (forall items,
     Forall (fun v => v <> Null /\ v <> Undefined) items ->
     exists rs,
       Results.rows stringToNumber toString (Array items) = Normal rs
       /\ map Results.serial rs = seq 1 (length items)
       /\ map Results.key rs = map (property "name") items
       /\ map Results.level rs
          = map (fun v => Results.level_of stringToNumber toString
                            (property "recommendation_score" v)) items)
  /\ (forall q : Q,
        Results.level_of stringToNumber toString (Number (Finite q))
        = if Qle_bool q 0.5 then "Not recommended" else "Highly Recommended")
  /\ Results.level_of stringToNumber toString Undefined = "Not recommended"
  /\ (forall items,
        Exists (fun v => v = Null \/ v = Undefined) items ->
        Results.rows stringToNumber toString (Array items) = Throw TypeError)
  /\ (forall v, (forall items, v <> Array items) ->
        Results.rows stringToNumber toString v = Throw TypeError).
Proof.
  split; [|split; [|split; [|split]]].
  - intros items H. apply (rows_from_spec stringToNumber toString 0 items H).
  - intros q. unfold Results.level_of, Results.greater. simpl.
    destruct (Qle_bool q 0.5); reflexivity.
  - reflexivity.
  - intros items H. apply (rows_from_throws stringToNumber toString 0 items H).
  - intros v H. destruct v; try reflexivity. exfalso. apply (H items). reflexivity.
Qed.

(** * More on the map components *)

Section RefMapMore.

Variable acc : Value -> bool.

(** No step takes an uncaught error back. *)
Lemma refmap_step_uncaught s e :
  ref_inv s -> uncaught (RefMap.step acc s e) = [] -> uncaught s = [].
Proof.
  intros H. destruct (crashed s) eqn:Hc; [|intros _; apply crashed_false, Hc].
  destruct e as [o d|id out|]; unfold RefMap.step; rewrite ?Hc; try (intros E; exact E).
  fold (RefMap.step acc s (RefMap.Settle id out)).
  destruct (refmap_settle_frame acc s id out H) as (_ & _ & E & _). rewrite E.
  intros E'; exact E'.
Qed.

(** Without an uncaught error the map of the first effect run is in
    [mapRef]. *)
Lemma ref_inv_held s :
  ref_inv s -> created s -> crashed s = false -> mapRef s = Some 0.
Proof.
  intros (_ & _ & Hm) (sf & E & _) Hc. destruct (mapRef s) as [m|].
  - destruct Hm as [-> _]. reflexivity.
  - destruct Hm as [_ [E' | [Hc' _]]]; congruence.
Qed.

Lemma route_call_length n o d :
  length (route_call n o d)
  = match o, d with
    | Some o, Some d => if has_NaN o || has_NaN d then 0 else 1
    | _, _ => 0
    end.
Proof.
  unfold route_call. destruct o as [o|], d as [d|]; try reflexivity.
  destruct (has_NaN o || has_NaN d); reflexivity.
Qed.

Lemma refmap_step_issued s e :
  ref_inv s ->
  let s' := RefMap.step acc s e in
  issued s' <= issued s + (if full_render e then 1 else 0)
  /\ (uncaught s' = [] -> issued s' = issued s + (if full_render e then 1 else 0))
  /\ (Forall (fun p => asks_route (query p) (request p)) (inflight s) ->
      Forall (fun p => asks_route (query p) (request p)) (inflight s')).
Proof.
  intros H. cbv zeta. destruct e as [o d|id out|].
  - destruct (crashed s) eqn:Hc.
    + unfold RefMap.step. rewrite Hc. split; [lia|]. split; [|auto].
      intros Hu. unfold crashed in Hc. rewrite Hu in Hc. discriminate.
    + destruct (refmap_render acc s o d H Hc)
        as (_ & _ & _ & _ & Einf & Eiss & _ & Hcase & _).
      set (s' := RefMap.step acc s (RefMap.Render o d)) in *. clearbody s'.
      rewrite Eiss, Einf, route_call_length. unfold sound in Hcase.
      split; [|split].
      * destruct o as [o|], d as [d|]; simpl; try lia.
        destruct (has_NaN o || has_NaN d); lia.
      * intros Hu. destruct o as [o|], d as [d|]; simpl; try lia.
        simpl in Hcase. rewrite <- negb_orb in Hcase.
        destruct (has_NaN o || has_NaN d); simpl in *; [|lia].
        unfold crashed in Hcase. rewrite Hu in Hcase. discriminate.
      * intros Hall. apply Forall_app. split; [exact Hall|].
        unfold route_call. destruct o as [o|], d as [d|]; try constructor.
        destruct (has_NaN o || has_NaN d); repeat constructor.
  - destruct (refmap_settle_frame acc s id out H) as (_ & _ & _ & E & Hq).
    rewrite E. simpl. split; [lia|]. split; [lia|].
    intros Hall. apply List.Forall_forall. intros p Hp.
    rewrite List.Forall_forall in Hall. apply Hall, Hq, Hp.
  - simpl. split; [lia|]. split; [lia | auto].
Qed.

End RefMapMore.

(** X17. In utils/geocode.js every effect run that has an origin Leaflet
    takes leaves the viewport centred on that origin at zoom 13 (the popup it
    opens before may pan the map, the [setView] after it settles the view); a
    run without an origin leaves the viewport where it was, except the very
    first one, which centres the new map on the middle of Nigeria at zoom 6.
    A run whose origin has a NaN throws instead. *)
Theorem viewport_follows_the_origin (geojson_accepts : Value -> bool) :
  (forall events o d,
     let s := RefMap.run geojson_accepts events in
     uncaught s = [] -> has_NaN o = false ->
     views (RefMap.step geojson_accepts s (RefMap.Render (Some o) d))
     = [Some (Centered o 13)])
  /\ (forall events o d,
        let s := RefMap.run geojson_accepts events in
        uncaught s = [] -> has_NaN o = true ->
        uncaught (RefMap.step geojson_accepts s (RefMap.Render (Some o) d)) <> [])
  /\ (forall o0 d0 events d,
        let s := RefMap.run geojson_accepts (RefMap.Render o0 d0 :: events) in
        views (RefMap.step geojson_accepts s (RefMap.Render None d)) = views s)
  /\ (forall d,
        views (RefMap.run geojson_accepts [RefMap.Render None d])
        = [Some (Centered (coord 9.082 8.6753) 6)]).
Proof.
  split; [|split; [|split]].
  - intros events o d s Hu Ho.
    assert (Hc : crashed s = false) by (unfold crashed; rewrite Hu; reflexivity).
    destruct (refmap_render geojson_accepts s (Some o) d
                (refmap_run_inv geojson_accepts events) Hc)
      as (_ & _ & _ & _ & _ & _ & _ & _ & Hv).
    apply Hv. unfold sound. rewrite Ho. reflexivity.
  - intros events o d s Hu Ho.
    assert (Hc : crashed s = false) by (unfold crashed; rewrite Hu; reflexivity).
    destruct (refmap_render geojson_accepts s (Some o) d
                (refmap_run_inv geojson_accepts events) Hc)
      as (_ & _ & _ & _ & _ & _ & _ & Hcase & _).
    set (s' := RefMap.step geojson_accepts s (RefMap.Render (Some o) d)) in *.
    clearbody s'. unfold sound in Hcase. rewrite Ho in Hcase. simpl in Hcase.
    unfold crashed in Hcase. intros E. rewrite E in Hcase. discriminate.
  - intros o0 d0 events d s.
    destruct (crashed s) eqn:Hc; [unfold RefMap.step; rewrite Hc; reflexivity|].
    assert (Hi : ref_inv s) by apply refmap_run_inv.
    destruct (refmap_render geojson_accepts s None d Hi Hc)
      as (_ & _ & _ & _ & _ & _ & _ & _ & Hv).
    rewrite (Hv eq_refl).
    rewrite (ref_inv_held s Hi (refmap_run_created geojson_accepts o0 d0 events) Hc).
    reflexivity.
  - intros d.
    destruct (refmap_render geojson_accepts init None d ref_inv_init eq_refl)
      as (_ & _ & _ & _ & _ & _ & _ & _ & Hv).
    apply (Hv eq_refl).
Qed.

Lemma viewport_follows_the_origin_witness :
  let o := coord 6.60 3.40 in
  let o2 := coord 6.61 3.41 in
  let d := coord 6.5244 3.3792 in
  views (RefMap.step Builtins.geojson_accepts
           (RefMap.run Builtins.geojson_accepts [RefMap.Render (Some o) (Some d)])
           (RefMap.Render (Some o2) (Some d)))
  = [Some (Centered o2 13)].
Proof.
  intros o o2 d.
  apply (proj1 (viewport_follows_the_origin Builtins.geojson_accepts)
           [RefMap.Render (Some o) (Some d)] o2 (Some d)); reflexivity.
Defined.

(** X18. In utils/geocode.js a directions request is sent by the effect
    runs that have both an origin and a destination, one each, as long as no
    effect run throws; a run in which Leaflet rejects the origin or the
    destination (a NaN) sends none. Every request in flight is a POST to the
    directions URL whose body lists the origin and the destination of its own
    effect run, each as [[lng, lat]]. *)
Theorem route_requested_when_both_known (geojson_accepts : Value -> bool) (events : list RefMap.Event) :
  let s := RefMap.run geojson_accepts events in
  issued s <= length (List.filter full_render events)
  /\ (uncaught s = [] -> issued s = length (List.filter full_render events))
  /\ Forall (fun p => asks_route (query p) (request p)) (inflight s)
  /\ (forall o d,
        uncaught s = [] ->
        inflight (RefMap.step geojson_accepts s (RefMap.Render o d))
        = inflight s ++ route_call (issued s) o d).
Proof.
  cbv zeta.
  assert (G : issued (RefMap.run geojson_accepts events)
              <= length (List.filter full_render events)
              /\ (uncaught (RefMap.run geojson_accepts events) = [] ->
                  issued (RefMap.run geojson_accepts events)
                  = length (List.filter full_render events))
              /\ Forall (fun p => asks_route (query p) (request p))
                   (inflight (RefMap.run geojson_accepts events))).
  { induction events as [|e events IH] using rev_ind.
    - split; [reflexivity|]. split; [reflexivity | constructor].
    - rewrite refmap_run_snoc, List.filter_app, length_app.
      pose proof (refmap_run_inv geojson_accepts events) as Hi.
      destruct (refmap_step_issued geojson_accepts _ e Hi) as (H1 & H2 & H3).
      destruct IH as (IH1 & IH2 & IH3).
      assert (El : length (List.filter full_render [e]) = if full_render e then 1 else 0).
      { simpl. destruct (full_render e); reflexivity. }
      rewrite El. split; [lia|]. split; [|apply H3, IH3].
      intros Hu. rewrite (H2 Hu).
      rewrite (IH2 (refmap_step_uncaught geojson_accepts _ e Hi Hu)). reflexivity. }
  destruct G as (G1 & G2 & G3). split; [exact G1|]. split; [exact G2|]. split; [exact G3|].
  intros o d Hu.
  apply (refmap_render geojson_accepts _ o d (refmap_run_inv geojson_accepts events)).
  unfold crashed. rewrite Hu. reflexivity.
Qed.

Lemma route_requested_when_both_known_witness :
  let o := coord 6.60 3.40 in
  let d := coord 6.5244 3.3792 in
  let events := [RefMap.Render (Some o) None; RefMap.Render (Some o) (Some d)] in
  issued (RefMap.run Builtins.geojson_accepts events)
  = length (List.filter full_render events).
Proof.
  intros o d events.
  apply (proj1 (proj2 (route_requested_when_both_known Builtins.geojson_accepts events))).
  reflexivity.
Defined.

Section LocatingMapMore.

Variable acc : Value -> bool.
Variable valid : Value -> bool.
Variable key : string.

Lemma locating_step_uncaught s e :
  ref_inv s -> uncaught (LocatingMap.step acc valid key s e) = [] -> uncaught s = [].
Proof.
  intros H. destruct (crashed s) eqn:Hc; [|intros _; apply crashed_false, Hc].
  destruct e as [geo|d|id out| |cap]; unfold LocatingMap.step; rewrite ?Hc;
    try (intros E; exact E).
  fold (LocatingMap.step acc valid key s (LocatingMap.Settle id out)).
  destruct (locating_settle_frame acc valid key s id out H) as [_ E]. rewrite E.
  intros E'; exact E'.
Qed.

Lemma locating_quiet s e :
  not_located e = true ->
  origin s = None /\ inflight s = [] ->
  let s' := LocatingMap.step acc valid key s e in
  (origin s' = None /\ inflight s' = [])
  /\ world s' = world s /\ issued s' = issued s /\ console s' = console s.
Proof.
  intros He [Ho Hi]. destruct e as [geo|d|id out| |cap]; try discriminate.
  - unfold LocatingMap.step. destruct (crashed s); [repeat split; assumption|].
    open_session s. simpl in *. subst. cbn. repeat split.
  - unfold LocatingMap.step, find_pending. rewrite Hi. simpl. repeat split; assumption.
  - simpl. repeat split; assumption.
  - rewrite locating_locate. destruct (crashed s), cap; repeat split; assumption.
Qed.

End LocatingMapMore.

(** X19. In part_000 nothing is drawn and nothing is requested before a
    geolocation callback has come: whatever destinations the component is
    rendered with, there is no map, no directions request and no console
    output. *)
Theorem nothing_before_a_position
    (geojson_accepts bounds_valid : Value -> bool) (ors_key : string)
    (events : list LocatingMap.Event) :
  forallb not_located events = true ->
  let s := LocatingMap.run geojson_accepts bounds_valid ors_key events in
  surfaces (world s) = [] /\ issued s = 0 /\ console s = [] /\ origin s = None.
Proof.
  intros H. cbv zeta.
  assert (G : let s := LocatingMap.run geojson_accepts bounds_valid ors_key events in
              (origin s = None /\ inflight s = [])
              /\ world s = world init /\ issued s = 0 /\ console s = []).
  { induction events as [|e events IH] using rev_ind.
    - repeat split.
    - rewrite forallb_app in H. apply andb_prop in H as [H1 H2].
      simpl in H2. rewrite andb_true_r in H2.
      destruct (IH H1) as (Hq & Hw & Hi & Hc).
      cbv zeta. rewrite locating_run_snoc.
      destruct (locating_quiet geojson_accepts bounds_valid ors_key _ e H2 Hq)
        as (Hq' & Hw' & Hi' & Hc').
      rewrite Hw', Hi', Hc'. repeat split; first [apply Hq' | assumption]. }
  destruct G as ((Ho & _) & Hw & Hi & Hc). rewrite Hw. repeat split; assumption.
Qed.

Lemma nothing_before_a_position_witness :
  let s := LocatingMap.run Builtins.geojson_accepts Builtins.bounds_valid "ors-key"
             [LocatingMap.Locate true;
              LocatingMap.Render (Some (coord 6.5244 3.3792));
              LocatingMap.Settle 0 Rejected;
              LocatingMap.Render (Some (coord 7.25 5.19))] in
  surfaces (world s) = [] /\ issued s = 0 /\ console s = [] /\ origin s = None.
Proof.
  apply (nothing_before_a_position Builtins.geojson_accepts Builtins.bounds_valid "ors-key"
           [LocatingMap.Locate true;
            LocatingMap.Render (Some (coord 6.5244 3.3792));
            LocatingMap.Settle 0 Rejected;
            LocatingMap.Render (Some (coord 7.25 5.19))]).
  reflexivity.
Defined.

(** X20. In part_000 the effect calls [setView] only when it creates the
    map, centred on the origin at zoom 13. On every run it opens the popup of
    the new origin marker, by which Leaflet may pan the map; it changes the
    viewport in no other way: after a run that did not throw, the view is the
    one from before (the one of the new map, for the run that creates it)
    after that popup was opened. A run without an origin or without a
    destination leaves the viewport alone. *)
Theorem viewport_set_at_creation_only
    (geojson_accepts bounds_valid : Value -> bool) (ors_key : string)
    (events : list LocatingMap.Event) (e : LocatingMap.Event) :
  is_update e = true ->
  let s := LocatingMap.run geojson_accepts bounds_valid ors_key events in
  let s' := LocatingMap.step geojson_accepts bounds_valid ors_key s e in
  uncaught s' = [] ->
  views s' = match origin s', destination s' with
             | Some o, Some _ =>
                 map (option_map (AutoPanned o))
                   match surfaces (world s) with
                   | [] => [Some (Centered o 13)]
                   | _ :: _ => views s
                   end
             | _, _ => views s
             end.
Proof.
  intros He s s' Hu.
  pose proof (proj1 (locating_run_inv geojson_accepts bounds_valid ors_key events)) as Hi.
  fold s in Hi.
  pose proof (locating_step_uncaught geojson_accepts bounds_valid ors_key s e Hi Hu) as Hu0.
  assert (Hc : crashed s = false) by (unfold crashed; rewrite Hu0; reflexivity).
  assert (G : forall s1 o d,
             ref_inv s1 -> crashed s1 = false -> world s1 = world s ->
             let s2 := run_task (LocatingMap.effect ors_key o d) (set_props o d s1) in
             uncaught s2 = [] ->
             views s2 = match origin s2, destination s2 with
                        | Some o, Some _ =>
                            map (option_map (AutoPanned o))
                              match surfaces (world s) with
                              | [] => [Some (Centered o 13)]
                              | _ :: _ => views s
                              end
                        | _, _ => views s
                        end).
  { intros s1 o d H1 Hc1 Hw s2 Hu2.
    destruct (locating_effect ors_key s1 o d H1 Hc1)
      as (_ & Eo & Ed & _ & _ & _ & _ & Hcase & Hv & _).
    fold s2 in Eo, Ed, Hcase, Hv. rewrite Eo, Ed, Hv. unfold views. rewrite Hw.
    destruct o as [o|], d as [d|]; try reflexivity.
    destruct (has_NaN o) eqn:Ho; [|reflexivity].
    simpl in Hcase. unfold crashed in Hcase. rewrite Hu2 in Hcase. discriminate. }
  subst s'. destruct e as [geo|d|id out| |cap]; try discriminate.
  - rewrite locating_located in * by exact Hc. cbv zeta in *.
    apply G; [destruct geo; exact Hi | destruct geo; exact Hc | destruct geo; reflexivity
             | exact Hu].
  - rewrite locating_render in * by exact Hc.
    apply G; [exact Hi | exact Hc | reflexivity | exact Hu].
Qed.

Lemma viewport_set_at_creation_only_witness :
  let s := LocatingMap.run Builtins.geojson_accepts Builtins.bounds_valid "ors-key"
             [LocatingMap.Locate true;
              LocatingMap.Render (Some (coord 6.5244 3.3792));
              LocatingMap.Located (Failure TIMEOUT)] in
  let s' := LocatingMap.step Builtins.geojson_accepts Builtins.bounds_valid "ors-key" s
              (LocatingMap.Render (Some (coord 7.25 5.19))) in
  views s' = match origin s', destination s' with
             | Some o, Some _ =>
                 map (option_map (AutoPanned o))
                   match surfaces (world s) with
                   | [] => [Some (Centered o 13)]
                   | _ :: _ => views s
                   end
             | _, _ => views s
             end.
Proof.
  exact (viewport_set_at_creation_only Builtins.geojson_accepts Builtins.bounds_valid
           "ors-key"
           [LocatingMap.Locate true;
            LocatingMap.Render (Some (coord 6.5244 3.3792));
            LocatingMap.Located (Failure TIMEOUT)]
           (LocatingMap.Render (Some (coord 7.25 5.19))) eq_refl eq_refl).
Defined.

(** X21. In part_000, when a 2xx response has been drawn, the viewport is
    fitted to the bounds of the new overlay; when Leaflet rejects those bounds
    the overlay stays drawn, the viewport stays where it was and the error is
    logged as a route error. *)
Theorem drawn_route_is_fitted
    (geojson_accepts bounds_valid : Value -> bool) (ors_key : string)
    (events : list LocatingMap.Event) (id : nat) (p : Pending) (res : Response)
    (data : Value) :
  let s := LocatingMap.run geojson_accepts bounds_valid ors_key events in
  let s' := LocatingMap.step geojson_accepts bounds_valid ors_key s
              (LocatingMap.Settle id (Resolved res)) in
  find_pending id s = Some p ->
  resp_json res = Some data -> resp_ok res = true -> geojson_accepts data = true ->
  all_overlays s' = [GeoJSON data (query p)]
  /\ if bounds_valid data
     then views s' = [Some (Fitted (LayerBounds data))] /\ console s' = console s
     else views s' = views s /\ console s' = console s ++ [RouteError LeafletError].
Proof.
  intros s s' Hf Hj Hok Ha. subst s s'.
  destruct (locating_settle geojson_accepts bounds_valid ors_key _ id (Resolved res) p
              (proj1 (locating_run_inv geojson_accepts bounds_valid ors_key events)) Hf)
    as (_ & _ & _ & _ & _ & _ & _ & H).
  simpl in H. rewrite Hj, Hok, Ha in H. simpl in H. exact H.
Qed.

Lemma drawn_route_is_fitted_witness :
  let d := coord 6.5244 3.3792 in
  let body := Builtins.route [(5.1931, 7.2526); (3.3792, 6.5244)]%Q in
  let res := {| resp_ok := true; resp_json := Some body |} in
  let s := LocatingMap.run Builtins.geojson_accepts Builtins.bounds_valid "ors-key"
             [LocatingMap.Locate true; LocatingMap.Render (Some d);
              LocatingMap.Located (Failure PERMISSION_DENIED)] in
  let s' := LocatingMap.step Builtins.geojson_accepts Builtins.bounds_valid "ors-key" s
              (LocatingMap.Settle 0 (Resolved res)) in
  all_overlays s' = [GeoJSON body (LocatingMap.akure, d)]
  /\ views s' = [Some (Fitted (LayerBounds body))] /\ console s' = console s.
Proof.
  intros d body res s s'.
  apply (drawn_route_is_fitted Builtins.geojson_accepts Builtins.bounds_valid "ors-key"
           [LocatingMap.Locate true; LocatingMap.Render (Some d);
            LocatingMap.Located (Failure PERMISSION_DENIED)] 0
           {| fetch_id := 0; request := directions_request "ors-key" LocatingMap.akure d;
              query := (LocatingMap.akure, d); scope_map := None |} res body);
    reflexivity.
Defined.

(** * More on Map.jsx *)

Lemma no_geometry_alter f m now :
  (forall sf, no_geometry sf -> no_geometry (f sf)) ->
  Forall no_geometry now -> Forall no_geometry (alter f m now).
Proof.
  intros Hf H. revert m. induction H as [|sf now Hsf H IH]; intros m; [constructor|].
  destruct m as [|m]; cbn; constructor; first [apply Hf; exact Hsf | exact Hsf | exact H | apply IH].
Qed.

Lemma no_geometry_torn_down sf : no_geometry sf -> no_geometry (torn_down sf).
Proof. intros _. constructor. Qed.

Lemma no_geometry_drawn n q sf :
  no_geometry sf -> no_geometry (with_layer {| layer_id := n; kind := GeoJSON Undefined q |} sf).
Proof.
  intros H. unfold no_geometry, with_layer. simpl. apply Forall_app. split; [exact H|].
  constructor; [|constructor]. intros _. exists q. reflexivity.
Qed.

Lemma jsx_step_no_geometry s e :
  jsx_inv s /\ Forall no_geometry (surfaces (world s))
  /\ Forall (fun p => request p = MapJsx.route_request) (inflight s) ->
  jsx_inv (MapJsx.step s e) /\ Forall no_geometry (surfaces (world (MapJsx.step s e)))
  /\ Forall (fun p => request p = MapJsx.route_request) (inflight (MapJsx.step s e)).
Proof.
  intros (Hi & Hs & Hp). split; [apply jsx_step_inv, Hi|].
  destruct e as [o d|id out|].
  - destruct (crashed s) eqn:Hc; [unfold MapJsx.step; rewrite Hc; split; assumption|].
    destruct (jsx_render s o d Hi Hc) as (older & sf & E & _ & _ & Eo & _ & Hg & _ & Hcase).
    rewrite E. split.
    + apply Forall_app. split; [|constructor; [exact Hg | constructor]].
      rewrite Eo. destruct (cleanup s); [|exact Hs].
      apply no_geometry_alter; [apply no_geometry_torn_down | exact Hs].
    + destruct (has_NaN o || has_NaN d).
      * destruct Hcase as [_ ->]. exact Hp.
      * destruct Hcase as [_ ->]. apply Forall_app. split; [exact Hp|].
        constructor; [reflexivity | constructor].
  - destruct (find_pending id s) as [p|] eqn:Hf.
    + destruct (jsx_settle_run s id out p Hf) as (_ & _ & E2 & Hout). rewrite E2. split.
      * destruct out as [|res]; [destruct Hout as [-> _]; exact Hs|].
        destruct (scope_map p).
        -- destruct Hout as (-> & _).
           apply no_geometry_alter; [apply no_geometry_drawn | exact Hs].
        -- destruct Hout as [-> _]. exact Hs.
      * apply List.Forall_forall. intros q Hq. apply List.filter_In in Hq as [Hq _].
        rewrite List.Forall_forall in Hp. apply Hp, Hq.
    + unfold MapJsx.step. rewrite Hf. split; assumption.
  - unfold MapJsx.step. destruct (crashed s) eqn:Hc; [split; assumption|].
    destruct (jsx_cleanup s Hi Hc) as (_ & _ & _ & _ & E2 & _ & _ & _ & E1).
    rewrite E1, E2. split; [|exact Hp].
    destruct (cleanup s); [|exact Hs].
    apply no_geometry_alter; [apply no_geometry_torn_down | exact Hs].
Qed.

(** X22. In Map.jsx every effect run leaves a new map as the last one
    created, not removed; every map created before has been removed exactly
    once by then. When Leaflet takes the origin and the destination the new
    map is centred on the origin at zoom 13 and carries the tile layer, the
    marker of the origin and the marker of the destination of this run and
    nothing else. When a coordinate is NaN the effect throws and the map is
    left as it was by then: bare for the origin, with the tile layer and the
    origin marker for the destination. *)
Theorem every_render_starts_a_fresh_map
    (events : list MapJsx.Event) (o d : Coord) :
  let s := MapJsx.run events in
  let s' := MapJsx.step s (MapJsx.Render o d) in
  uncaught s = [] ->
  exists older sf,
    surfaces (world s') = older ++ [sf]
    /\ fresh_map o d sf
    /\ length older = length (surfaces (world s))
    /\ Forall (fun old => removed old = 1) older
    /\ (has_NaN o = false -> has_NaN d = false ->
        uncaught s' = []
        /\ map kind (layers sf) = [TileLayer; Marker o "Your Location"; Marker d "Hospital"]
        /\ view sf = Some (Centered o 13))
    /\ (has_NaN o || has_NaN d = true -> uncaught s' <> []).
Proof.
  intros s s' Hu.
  assert (Hc : crashed s = false) by (unfold crashed; rewrite Hu; reflexivity).
  destruct (jsx_render s o d (jsx_run_inv events) Hc)
    as (older & sf & E & Hl & Hr & _ & Hf & _ & _ & Hcase).
  exists older, sf. fold s' in E, Hcase.
  split; [exact E|]. split; [exact Hf|]. split; [exact Hl|]. split; [exact Hr|]. split.
  - intros Ho Hd. rewrite Ho, Hd in Hcase. destruct Hcase as [Hx _].
    destruct Hf as (Hk & Hv & _). unfold marker_at in Hk. rewrite Ho in Hk, Hv.
    rewrite Hd in Hk. split; [exact Hx|]. split; [exact Hk | exact Hv].
  - intros Hn. rewrite Hn in Hcase. destruct Hcase as [Hx _].
    unfold crashed in Hx. intros Ex. rewrite Ex in Hx. discriminate.
Qed.

Lemma every_render_starts_a_fresh_map_witness :
  let o := coord 6.60 3.40 in
  let d := coord 6.5244 3.3792 in
  let s := MapJsx.run [MapJsx.Render o d] in
  let s' := MapJsx.step s (MapJsx.Render o (NaN, NaN)) in
  exists older sf,
    surfaces (world s') = older ++ [sf]
    /\ fresh_map o (NaN, NaN) sf
    /\ length older = length (surfaces (world s))
    /\ Forall (fun old => removed old = 1) older
    /\ (has_NaN o = false -> has_NaN (NaN, NaN) = false ->
        uncaught s' = []
        /\ map kind (layers sf)
           = [TileLayer; Marker o "Your Location"; Marker (NaN, NaN) "Hospital"]
        /\ view sf = Some (Centered o 13))
    /\ (has_NaN o || has_NaN (NaN, NaN) = true -> uncaught s' <> []).
Proof.
  exact (every_render_starts_a_fresh_map
           [MapJsx.Render (coord 6.60 3.40) (coord 6.5244 3.3792)]
           (coord 6.60 3.40) (NaN, NaN) eq_refl).
Defined.

(** X23. Map.jsx never shows a route: every request it sends is a GET to
    the directions URL without coordinates and without headers (the options
    are passed as a third argument, which [fetch] ignores), and every overlay
    on any of its maps was drawn from [res.data], which is [undefined]. *)
Theorem MapJsx_draws_no_geometry (events : list MapJsx.Event) :
  let s := MapJsx.run events in
  Forall no_geometry (surfaces (world s))
  /\ Forall (fun p => req_method (request p) = GET
                      /\ req_url (request p) = ors_url
                      /\ req_coordinates (request p) = []
                      /\ req_headers (request p) = []) (inflight s).
Proof.
  cbv zeta.
  assert (H : jsx_inv (MapJsx.run events)
              /\ Forall no_geometry (surfaces (world (MapJsx.run events)))
              /\ Forall (fun p => request p = MapJsx.route_request)
                   (inflight (MapJsx.run events))).
  { unfold MapJsx.run.
    apply (fold_left_inv
             (fun s => jsx_inv s /\ Forall no_geometry (surfaces (world s))
                       /\ Forall (fun p => request p = MapJsx.route_request) (inflight s))).
    - apply jsx_step_no_geometry.
    - split; [apply jsx_inv_init|]. split; constructor. }
  destruct H as (_ & H1 & H2). split; [exact H1|].
  apply List.Forall_forall. intros p Hp. rewrite List.Forall_forall in H2.
  rewrite (H2 p Hp). repeat split.
Qed.

(** * From the recommendations to the map *)

(** X24. In the commented [Recommendations], for every recommended
    hospital (of a list without [null] elements, which [fetchCoords] goes
    through) the row that [fetchCoords] made can be selected exactly when its
    address geocoded; once it is selected and the user's position is known,
    [MapComponent] is rendered with the user's position as origin and the
    geocoded coordinate of that hospital's address as destination. Before a
    position is known, and for a hospital whose address did not geocode, no
    map is rendered. *)
Theorem selected_hospital_is_the_destination
    (parseFloat : Value -> JsNumber) (encodeURIComponent : string -> string)
    (network : Request -> Settled) (toString : Value -> string)
    (recommendation : list Value)
    (t : Geocode.Trace) (geo : Outcome) (h : Value) :
  forallb readable recommendation = true ->
  In h recommendation ->
  exists rows r,
    fst (Recommendations.fetchCoords parseFloat encodeURIComponent network toString
           recommendation t)
    = Normal rows
    /\ In r rows /\ Recommendations.hospital r = h
    /\ Recommendations.map_props (Some (Recommendations.userCoords geo))
         (Recommendations.view_on_map r)
       = option_map (fun c => {| Recommendations.origin := Recommendations.userCoords geo;
                                 Recommendations.destination := c |})
           (lookup_address parseFloat encodeURIComponent network
              (Recommendations.address_text toString (property "full_address" h)))
    /\ Recommendations.map_props None (Recommendations.view_on_map r) = None.
Proof.
  intros Hr Hin.
  destruct (fetchCoords_readable parseFloat encodeURIComponent network toString
              recommendation t Hr) as (t' & E & _).
  eexists. eexists. split; [rewrite E; reflexivity|].
  split; [apply (List.in_map _ _ _ Hin)|]. split; [reflexivity|].
  unfold Recommendations.view_on_map, Recommendations.map_props. simpl.
  destruct (lookup_address _ _ _ _); split; reflexivity.
Qed.

Lemma selected_hospital_is_the_destination_witness :
  let network := fun _ : Request =>
    Resolved {| resp_ok := true;
                resp_json := Some (Array [Object [("lat", Str "6.4550");
                                                  ("lon", Str "3.3941")]]) |} in
  let toString := fun _ : Value => "[object Object]" in
  let h := Recommendations.hospital_of "Lagoon Hospital" "Ikoyi, Lagos" in
  exists rows r,
    fst (Recommendations.fetchCoords Builtins.parseFloat Builtins.encodeURIComponent
           network toString [h] Geocode.no_trace) = Normal rows
    /\ In r rows /\ Recommendations.hospital r = h
    /\ Recommendations.map_props
         (Some (Recommendations.userCoords (Failure PERMISSION_DENIED)))
         (Recommendations.view_on_map r)
       = option_map (fun c => {| Recommendations.origin :=
                                   Recommendations.userCoords (Failure PERMISSION_DENIED);
                                 Recommendations.destination := c |})
           (lookup_address Builtins.parseFloat Builtins.encodeURIComponent network
              (Recommendations.address_text toString (property "full_address" h)))
    /\ Recommendations.map_props None (Recommendations.view_on_map r) = None.
Proof.
  intros network toString h.
  exact (selected_hospital_is_the_destination Builtins.parseFloat
           Builtins.encodeURIComponent network toString [h] Geocode.no_trace
           (Failure PERMISSION_DENIED) h eq_refl (or_introl eq_refl)).
Defined.
